(** * Mail monitoring and ledger export: a shallow embedding

    The TypeScript sources ([gmail/watcher.ts], [pdf/parser.ts],
    [excel/writer.ts], [index.ts]) are translated function by function.
    JavaScript strings are sequences of UTF-16 code units, regular
    expressions are interpreted by a backtracking matcher that follows the
    ECMAScript pattern semantics, exceptions are an explicit [Result], and
    the external collaborators (Gmail API, pdf-parse, the xlsx file) are
    state-passing oracles over an abstract world. *)

From Stdlib Require Import ZArith NArith QArith Ascii String List Lia.
From stdpp Require Import base option list gmap sets.

Local Open Scope nat_scope.

(** ** JavaScript strings *)

Module JS.

(** A string is the list of its UTF-16 code units. *)
Definition jsstring := list N.

Definition js (s : string) : jsstring :=
  map N_of_ascii (list_ascii_of_string s).

Definition between (lo hi c : N) : bool := ((lo <=? c) && (c <=? hi))%N.

(** WhiteSpace and LineTerminator code units (what [\s] and [trim] use). *)
Definition isWhiteSpace (c : N) : bool :=
  between 9 13 c || (c =? 32)%N || (c =? 160)%N || (c =? 5760)%N
  || between 8192 8202 c || (c =? 8232)%N || (c =? 8233)%N
  || (c =? 8239)%N || (c =? 8287)%N || (c =? 12288)%N || (c =? 65279)%N.

Definition isLineTerminator (c : N) : bool :=
  (c =? 10)%N || (c =? 13)%N || (c =? 8232)%N || (c =? 8233)%N.

Definition isDigit (c : N) : bool := between 48 57 c.

(** [\w]: ASCII letters, digits and underscore. *)
Definition isWordChar (c : N) : bool :=
  between 97 122 c || between 65 90 c || isDigit c || (c =? 95)%N.

(** Upper-case mapping of one code unit when the result is again one code
    unit.  The table covers U+0000..U+00FF; code units above U+00FF are left
    as they are (no pattern of this program contains or can match one
    case-insensitively). *)
Definition upperUnit (c : N) : N :=
  if between 97 122 c then (c - 32)%N
  else if between 224 254 c && negb (c =? 247)%N then (c - 32)%N
  else if (c =? 255)%N then 376%N
  else if (c =? 181)%N then 924%N
  else c.

Definition lowerUnit (c : N) : N :=
  if between 65 90 c then (c + 32)%N
  else if between 192 222 c && negb (c =? 215)%N then (c + 32)%N
  else c.

(** [String.prototype.toUpperCase]; U+00DF becomes the two units "SS".
    Exact on strings of white space and code units up to U+00FF, which is
    all the program applies it to (matches of its patterns). *)
Definition toUpperCase (s : jsstring) : jsstring :=
  flat_map (fun c => if (c =? 223)%N then [83%N; 83%N] else [upperUnit c]) s.

(** [String.prototype.toLowerCase] on U+0000..U+00FF, other code units
    unchanged.  No code unit outside that range lower-cases to one of the
    letters of the words the program looks for in a lower-cased file name. *)
Definition toLowerCase (s : jsstring) : jsstring := map lowerUnit s.

Fixpoint trimStart (s : jsstring) : jsstring :=
  match s with
  | c :: t => if isWhiteSpace c then trimStart t else s
  | [] => []
  end.

Definition trimEnd (s : jsstring) : jsstring := rev (trimStart (rev s)).

Definition trim (s : jsstring) : jsstring := trimEnd (trimStart s).

Fixpoint startsWith (p s : jsstring) : bool :=
  match p, s with
  | [], _ => true
  | a :: p', b :: s' => (a =? b)%N && startsWith p' s'
  | _ :: _, [] => false
  end.

(** [s.includes(p)] *)
Fixpoint includes (s p : jsstring) : bool :=
  startsWith p s || match s with [] => false | _ :: t => includes t p end.

Definition jsstring_eqb (a b : jsstring) : bool := bool_decide (a = b).

(** [s.split('\n')]: always at least one piece. *)
Fixpoint splitOn (sep : N) (s : jsstring) : list jsstring :=
  match s with
  | [] => [[]]
  | c :: t =>
      if (c =? sep)%N then [] :: splitOn sep t
      else match splitOn sep t with
           | l :: ls => (c :: l) :: ls
           | [] => [[c]]
           end
  end.

(** [s.replace(/[...]/g, '')] for a set of single code units. *)
Definition removeAll (drop : N -> bool) (s : jsstring) : jsstring :=
  List.filter (fun c => negb (drop c)) s.

Definition substring (s : jsstring) (from to : nat) : jsstring :=
  take (to - from) (drop from s).

(** Decimal rendering of a number, as template literals do. *)
Fixpoint digitsOf (fuel n : nat) (acc : jsstring) : jsstring :=
  match fuel with
  | 0 => acc
  | S f =>
      let acc' := N.of_nat (48 + n mod 10) :: acc in
      if n / 10 =? 0 then acc' else digitsOf f (n / 10) acc'
  end.

Definition natToString (n : nat) : jsstring := digitsOf (S n) n [].

(** [Array.prototype.sort(compare)].  The sort is stable; for a consistent
    comparator the outcome is the one stable ordering, computed here by
    insertion from the right. *)
Fixpoint insertSorted {A : Type} (compare : A -> A -> Z) (x : A) (l : list A) : list A :=
  match l with
  | [] => [x]
  | y :: t =>
      if (compare x y <=? 0)%Z then x :: y :: t
      else y :: insertSorted compare x t
  end.

Definition arraySort {A : Type} (compare : A -> A -> Z) (l : list A) : list A :=
  fold_right (insertSorted compare) [] l.

End JS.

Import JS.

(** ** Regular expressions (ECMAScript backtracking semantics) *)

Module RegExp.

Inductive ClassItem :=
| CChar (c : N)
| CRange (lo hi : N)
| CDigit
| CSpace
| CWord.

Inductive regex :=
| Eps
| Lit (c : N)
| Dot
| Cls (negated : bool) (items : list ClassItem)
| Cat (r1 r2 : regex)
| Or (r1 r2 : regex)
| Repeat (min : nat) (max : option nat) (greedy : bool) (r : regex)
| Capture (n : nat) (r : regex)
| Lookahead (r : regex)
| WordBoundary
| Bol
| Eol.

Record flags := { ignoreCase : bool; multiline : bool }.

Definition noFlags := {| ignoreCase := false; multiline := false |}.
Definition flagI := {| ignoreCase := true; multiline := false |}.
Definition flagM := {| ignoreCase := false; multiline := true |}.

(** Matcher state: the position, the code unit before it, the remaining
    input and the captures (group number, start, end), latest first. *)
Record mstate := {
  pos : nat;
  prev : option N;
  rest : list N;
  caps : list (nat * (nat * nat))
}.

Definition cont := mstate -> option mstate.

(** Canonicalize of the non-unicode case-insensitive mode. *)
Definition canonicalize (fl : flags) (c : N) : N :=
  if ignoreCase fl then
    let u := upperUnit c in
    if (128 <=? c)%N && (u <? 128)%N then c else u
  else c.

Definition rangeUnits (lo hi : N) : list N :=
  map (fun i => (lo + N.of_nat i)%N) (seq 0 (N.to_nat (hi + 1 - lo))).

Definition itemMatches (fl : flags) (ch : N) (it : ClassItem) : bool :=
  match it with
  | CChar c => (canonicalize fl c =? canonicalize fl ch)%N
  | CRange lo hi =>
      if ignoreCase fl
      then existsb (fun a => (canonicalize fl a =? canonicalize fl ch)%N)
                   (rangeUnits lo hi)
      else between lo hi ch
  | CDigit => isDigit ch
  | CSpace => isWhiteSpace ch
  | CWord => isWordChar ch
  end.

Definition advance (x : mstate) : option mstate :=
  match rest x with
  | c :: t => Some {| pos := S (pos x); prev := Some c; rest := t; caps := caps x |}
  | [] => None
  end.

Definition setCap (n : nat) (s e : nat) (x : mstate) : mstate :=
  {| pos := pos x; prev := prev x; rest := rest x;
     caps := (n, (s, e)) :: List.filter (fun p => negb (fst p =? n)) (caps x) |}.

Definition clearCaps (ns : list nat) (x : mstate) : mstate :=
  {| pos := pos x; prev := prev x; rest := rest x;
     caps := List.filter (fun p => negb (existsb (Nat.eqb (fst p)) ns)) (caps x) |}.

Fixpoint groupsOf (r : regex) : list nat :=
  match r with
  | Cat a b | Or a b => groupsOf a ++ groupsOf b
  | Repeat _ _ _ a | Lookahead a => groupsOf a
  | Capture n a => n :: groupsOf a
  | _ => []
  end.

(** One code unit accepted by [ok]. *)
Definition charM (ok : N -> bool) (k : cont) (x : mstate) : option mstate :=
  match rest x with
  | c :: _ => if ok c then advance x ≫= k else None
  | [] => None
  end.

Definition orElse (a b : option mstate) : option mstate :=
  match a with Some z => Some z | None => b end.

(** RepeatMatcher.  [fuel] bounds the number of iterations: the first [min]
    may be empty, every later one must consume input, so [min] plus the
    length of the remaining input is never exceeded. *)
Fixpoint repeatM (m : cont -> cont) (inner : list nat) (fuel : nat)
    (min : nat) (max : option nat) (greedy : bool) (k : cont) (x : mstate)
    {struct fuel} : option mstate :=
  match max with
  | Some 0 => k x
  | _ =>
      let d : cont := fun y =>
        if (min =? 0) && (pos y =? pos x) then None
        else match fuel with
             | 0 => None
             | S f => repeatM m inner f (Nat.pred min) (Nat.pred <$> max) greedy k y
             end in
      let xr := clearCaps inner x in
      if negb (min =? 0) then m d xr
      else if greedy then orElse (m d xr) (k x)
      else orElse (k x) (m d xr)
  end.

Definition isWordAt (c : option N) : bool :=
  match c with Some c => isWordChar c | None => false end.

Fixpoint rmatch (fl : flags) (r : regex) (k : cont) (x : mstate)
    {struct r} : option mstate :=
  match r with
  | Eps => k x
  | Lit c => charM (fun ch => (canonicalize fl ch =? canonicalize fl c)%N) k x
  | Dot => charM (fun ch => negb (isLineTerminator ch)) k x
  | Cls neg items =>
      charM (fun ch => xorb neg (existsb (itemMatches fl ch) items)) k x
  | Cat a b => rmatch fl a (rmatch fl b k) x
  | Or a b => orElse (rmatch fl a k x) (rmatch fl b k x)
  | Repeat min max greedy a =>
      repeatM (rmatch fl a) (groupsOf a) (S (min + length (rest x)))
              min max greedy k x
  | Capture n a => rmatch fl a (fun y => k (setCap n (pos x) (pos y) y)) x
  | Lookahead a =>
      match rmatch fl a Some x with
      | Some y => k {| pos := pos x; prev := prev x; rest := rest x; caps := caps y |}
      | None => None
      end
  | WordBoundary =>
      if xorb (isWordAt (prev x)) (isWordAt (head (rest x))) then k x else None
  | Bol =>
      match prev x with
      | None => k x
      | Some c => if multiline fl && isLineTerminator c then k x else None
      end
  | Eol =>
      match rest x with
      | [] => k x
      | c :: _ => if multiline fl && isLineTerminator c then k x else None
      end
  end.

(** The result of [RegExp.prototype.exec]: where the match starts and ends
    and the captures, over the input it was run on. *)
Record MatchResult := {
  input : jsstring;
  index : nat;
  lastIndex : nat;
  captures : list (nat * (nat * nat))
}.

(** Leftmost match: try every start position in turn. *)
Fixpoint searchFrom (fl : flags) (r : regex) (whole : jsstring)
    (start : nat) (before : option N) (s : jsstring) : option MatchResult :=
  match rmatch fl r Some {| pos := start; prev := before; rest := s; caps := [] |} with
  | Some y => Some {| input := whole; index := start; lastIndex := pos y;
                      captures := caps y |}
  | None =>
      match s with
      | [] => None
      | c :: t => searchFrom fl r whole (S start) (Some c) t
      end
  end.

(** [s.match(re)] for a regular expression without the [g] flag. *)
Definition jsmatch (fl : flags) (r : regex) (s : jsstring) : option MatchResult :=
  searchFrom fl r s 0 None s.

(** [m[0]] *)
Definition whole (m : MatchResult) : jsstring :=
  substring (input m) (index m) (lastIndex m).

(** [m[n]] for [n >= 1]; [None] is [undefined]. *)
Definition group (m : MatchResult) (n : nat) : option jsstring :=
  match find (fun p => fst p =? n) (captures m) with
  | Some (_, (s, e)) => Some (substring (input m) s e)
  | None => None
  end.

(** Pattern syntax helpers. *)
Fixpoint cats (rs : list regex) : regex :=
  match rs with
  | [] => Eps
  | [r] => r
  | r :: rs' => Cat r (cats rs')
  end.

Fixpoint alts (rs : list regex) : regex :=
  match rs with
  | [] => Eps
  | [r] => r
  | r :: rs' => Or r (alts rs')
  end.

Definition lit (s : string) : regex := cats (map Lit (js s)).
Definition units (cs : list N) : regex := cats (map Lit cs).
Definition star (r : regex) : regex := Repeat 0 None true r.
Definition plus (r : regex) : regex := Repeat 1 None true r.
Definition plusLazy (r : regex) : regex := Repeat 1 None false r.
Definition opt (r : regex) : regex := Repeat 0 (Some 1) true r.
Definition atLeast (n : nat) (r : regex) : regex := Repeat n None true r.
Definition exactly (n : nat) (r : regex) : regex := Repeat n (Some n) true r.
Definition space : regex := Cls false [CSpace].
Definition digit : regex := Cls false [CDigit].
Definition chr (s : string) : N :=
  match js s with c :: _ => c | [] => 0%N end.

End RegExp.

Import RegExp.

(** ** Exceptions *)

(** A thrown [Error] with its message. *)
Inductive Exn := Error (message : jsstring).

(** The outcome of a call: a returned value or a thrown exception. *)
Inductive Result (A : Type) :=
| Ok (a : A)
| Throw (e : Exn).

Arguments Ok {A} a.
Arguments Throw {A} e.

(** A downloaded attachment: the buffer decoded from this base64 text. *)
Inductive Buffer := FromBase64 (data : jsstring).

(** ** pdf/parser.ts *)

Module PDFParser.

(** Code units of the accented letters that occur in the patterns. *)
Definition Ntilde : N := 209.   (* U+00D1 *)
Definition ntilde : N := 241.   (* U+00F1 *)
Definition lowerAccents : list N := [225; 233; 237; 243; 250]%N.  (* a e i o u, acute *)
Definition upperAccents : list N := [193; 201; 205; 211; 218]%N.  (* A E I O U, acute *)

(** ["(?:SA\s+DE\s+CV|S\.A\.|EMPRESARIAL|CORPORATION|CORP|INC|LLC)"] *)
Definition legalSuffix : regex :=
  alts [cats [lit "SA"; plus space; lit "DE"; plus space; lit "CV"];
        lit "S.A.";
        lit "EMPRESARIAL"; lit "CORPORATION"; lit "CORP"; lit "INC"; lit "LLC"].

Definition upperAZ : regex := Cls false [CRange (chr "A") (chr "Z")].

(** [REGEX_PATTERNS] *)

(** ["/^\s*([A-Z]{3,}(?:\s+[A-Z]{3,})* )\s*$/m"] (the blank after the star is
    not part of the pattern) *)
Definition companyName : flags * regex :=
  (flagM,
   cats [Bol; star space;
         Capture 1 (Cat (atLeast 3 upperAZ)
                        (star (Cat (plus space) (atLeast 3 upperAZ))));
         star space; Eol]).

(** ["/(CAZAN|OPTIMAL|OFFSHORE|CORPORATIVO|EMPRESA|COMPAÑIA|SERVICIOS)/i"] *)
Definition knownCompanies : flags * regex :=
  (flagI,
   Capture 1 (alts [lit "CAZAN"; lit "OPTIMAL"; lit "OFFSHORE"; lit "CORPORATIVO";
                    lit "EMPRESA";
                    cats [lit "COMPA"; Lit Ntilde; lit "IA"];
                    lit "SERVICIOS"])).

(** ["/\b(CAZAN|OPTIMAL)\b/i"] *)
Definition specificCompanies : flags * regex :=
  (flagI,
   cats [WordBoundary; Capture 1 (Or (lit "CAZAN") (lit "OPTIMAL")); WordBoundary]).

(** ["/\b(CAZAN|OPTIMAL)[\s\w]*(?:SA\s+DE\s+CV|S\.A\.|EMPRESARIAL|CORPORATION|CORP|INC|LLC)?/i"] *)
Definition fullCompanyName : flags * regex :=
  (flagI,
   cats [WordBoundary; Capture 1 (Or (lit "CAZAN") (lit "OPTIMAL"));
         star (Cls false [CSpace; CWord]);
         opt legalSuffix]).

(** ["/^\s*([A-Z][A-Z\s]+(?:SA\s+DE\s+CV|...|LLC)?)\s*$/"] *)
Definition companyLinePattern : flags * regex :=
  (noFlags,
   cats [Bol; star space;
         Capture 1 (cats [upperAZ;
                          plus (Cls false [CRange (chr "A") (chr "Z"); CSpace]);
                          opt legalSuffix]);
         star space; Eol]).

Definition matchWith (p : flags * regex) (s : jsstring) : option MatchResult :=
  jsmatch (fst p) (snd p) s.

(** The value returned when no company name is found. *)
Definition EMPRESA_NO_IDENTIFICADA : jsstring := js "EMPRESA NO IDENTIFICADA".

(** [m[1]] of a match whose first group took part in it. *)
Definition group1 (m : MatchResult) : jsstring := default [] (group m 1).

(** The bodies of the six [for] loops of [extractCompanyName]: what one
    line yields, [None] when the loop moves on to the next line. *)
Definition fullNameOnLine (line : jsstring) : option jsstring :=
  m ← matchWith fullCompanyName line;
  Some (toUpperCase (trim (whole m))).

Definition companyLineOnLine (line : jsstring) : option jsstring :=
  m ← matchWith companyLinePattern line;
  if 10 <=? length (group1 m) then Some (toUpperCase (trim (group1 m))) else None.

Definition specificOnLine (line : jsstring) : option jsstring :=
  m ← matchWith specificCompanies line;
  Some (toUpperCase (group1 m)).

Definition knownOnLine (line : jsstring) : option jsstring :=
  m ← matchWith knownCompanies line;
  Some (toUpperCase (group1 m)).

Definition upperRunOnLine (line0 : jsstring) : option jsstring :=
  let line := trim line0 in
  m ← matchWith companyName line;
  if (4 <=? length (group1 m)) && (length (group1 m) <=? 25)
  then Some (trim (group1 m)) else None.

(** [for (let i = 0; i < lines.length; i++) { ... return ... }]: the first
    line on which the body returns. *)
Fixpoint forLines (body : jsstring -> option jsstring) (lines : list jsstring)
    : option jsstring :=
  match lines with
  | [] => None
  | line :: more =>
      match body line with
      | Some r => Some r
      | None => forLines body more
      end
  end.

Definition extractCompanyName (text : jsstring) : jsstring :=
  let lines := take 15 (splitOn 10 text) in
  match forLines fullNameOnLine lines with
  | Some r => r
  | None =>
  match forLines companyLineOnLine lines with
  | Some r => r
  | None =>
  match forLines specificOnLine lines with
  | Some r => r
  | None =>
  match forLines knownOnLine lines with
  | Some r => r
  | None =>
  match forLines upperRunOnLine (take (Nat.min 5 (length lines)) lines) with
  | Some r => r
  | None =>
  match specificOnLine text with
  | Some r => r
  | None => EMPRESA_NO_IDENTIFICADA
  end end end end end end.

(** ["[\d,]+(?:\.\d{2})?"] *)
Definition amountDigits : regex :=
  Cat (plus (Cls false [CDigit; CChar (chr ",")]))
      (opt (Cat (Lit (chr ".")) (exactly 2 digit))).

Definition amountPatterns : list (flags * regex) :=
  [ (* "/\$\s*([\d,]+(?:\.\d{2})?)/" *)
    (noFlags, cats [Lit (chr "$"); star space; Capture 1 amountDigits]);
    (* "/([\d,]+(?:\.\d{2})?)\s*(?:pesos|usd|dolares|dólares)/i" *)
    (flagI, cats [Capture 1 amountDigits; star space;
                  alts [lit "pesos"; lit "usd"; lit "dolares";
                        cats [lit "d"; Lit 243; lit "lares"]]]);
    (* "/(?:monto|cantidad|total|valor)\s*:?\s*\$?\s*([\d,]+(?:\.\d{2})?)/i" *)
    (flagI, cats [alts [lit "monto"; lit "cantidad"; lit "total"; lit "valor"];
                  star space; opt (Lit (chr ":")); star space;
                  opt (Lit (chr "$")); star space; Capture 1 amountDigits]);
    (* "/([\d,]+(?:\.\d{2})?)\s*-/" *)
    (noFlags, cats [Capture 1 amountDigits; star space; Lit (chr "-")]) ].

(** [for (const pattern of patterns) { const match = subject.match(pattern);
    if (match) return f(match[1]); }] *)
Fixpoint firstPattern (patterns : list (flags * regex)) (subject : jsstring)
    : option MatchResult :=
  match patterns with
  | [] => None
  | p :: more =>
      match matchWith p subject with
      | Some m => Some m
      | None => firstPattern more subject
      end
  end.

Definition extractAmountFromSubject (subject : jsstring) : jsstring :=
  match firstPattern amountPatterns subject with
  | Some m => removeAll (N.eqb (chr ",")) (group1 m)
  | None => []
  end.

(** [[a-zA-ZñÑáéíóúÁÉÍÓÚ\s]] *)
Definition cityLetters : regex :=
  Cls false ([CRange (chr "a") (chr "z"); CRange (chr "A") (chr "Z");
              CChar ntilde; CChar Ntilde]
             ++ map CChar lowerAccents ++ map CChar upperAccents ++ [CSpace]).

(** [[A-ZÁÉÍÓÚÑ][a-záéíóúñ]+] *)
Definition capitalizedWord : regex :=
  Cat (Cls false (CRange (chr "A") (chr "Z") :: map CChar upperAccents ++ [CChar Ntilde]))
      (plus (Cls false (CRange (chr "a") (chr "z") :: map CChar lowerAccents ++ [CChar ntilde]))).

Definition cityPatterns : list (flags * regex) :=
  [ (* "/(?:ciudad|city|lugar|ubicación|ubicacion)\s*:?\s*([a-zA-ZñÑáéíóúÁÉÍÓÚ\s]+?)(?:\s*-|\s*\$|$)/i" *)
    (flagI, cats [alts [lit "ciudad"; lit "city"; lit "lugar";
                        cats [lit "ubicaci"; Lit 243; lit "n"]; lit "ubicacion"];
                  star space; opt (Lit (chr ":")); star space;
                  Capture 1 (plusLazy cityLetters);
                  alts [Cat (star space) (Lit (chr "-"));
                        Cat (star space) (Lit (chr "$"));
                        Eol]]);
    (* "/\b([A-ZÁÉÍÓÚÑ][a-záéíóúñ]+(?:\s+[A-ZÁÉÍÓÚÑ][a-záéíóúñ]+)* )\b(?=\s*\$|\s*-|$)/"
       (the blank after the star is not part of the pattern) *)
    (noFlags, cats [WordBoundary;
                    Capture 1 (Cat capitalizedWord
                                   (star (Cat (plus space) capitalizedWord)));
                    WordBoundary;
                    Lookahead (alts [Cat (star space) (Lit (chr "$"));
                                     Cat (star space) (Lit (chr "-"));
                                     Eol])]);
    (* "/\b(TABASCO|CANCUN|CANCÚN|PLAYA|...|PUERTO\s+VALLARTA|VALLARTA)\b/i" *)
    (flagI, cats [WordBoundary;
                  Capture 1 (alts [lit "TABASCO"; lit "CANCUN";
                                   cats [lit "CANC"; Lit 218; lit "N"];
                                   lit "PLAYA"; lit "CARMEN"; lit "CABOS"; lit "COZUMEL";
                                   cats [lit "M"; Lit 201; lit "RIDA"]; lit "MERIDA";
                                   lit "GUADALAJARA"; lit "MONTERREY"; lit "TIJUANA";
                                   lit "PUEBLA"; lit "QUERETARO";
                                   cats [lit "QUER"; Lit 201; lit "TARO"];
                                   lit "VERACRUZ"; lit "ACAPULCO";
                                   cats [lit "MAZATL"; Lit 193; lit "N"]; lit "MAZATLAN";
                                   cats [lit "PUERTO"; plus space; lit "VALLARTA"];
                                   lit "VALLARTA"]);
                  WordBoundary]) ].

(** ["/\b(?:RECURSO|los|las)\s+([a-zA-ZñÑáéíóúÁÉÍÓÚ\s]+?)\s*\$/i"] *)
Definition locationPattern : flags * regex :=
  (flagI, cats [WordBoundary; alts [lit "RECURSO"; lit "los"; lit "las"];
                plus space; Capture 1 (plusLazy cityLetters);
                star space; Lit (chr "$")]).

Definition extractCityFromSubject (subject : jsstring) : jsstring :=
  match firstPattern cityPatterns subject with
  | Some m => trim (group1 m)
  | None =>
      match matchWith locationPattern subject with
      | Some m => trim (group1 m)
      | None => []
      end
  end.

Record SolicitudParsed := {
  cantidad : jsstring;
  domicilioEntrega : jsstring;
  fechaEntrega : jsstring;
  horario : jsstring;
  ciudad : jsstring
}.

Definition No_especificada : jsstring := js "No especificada".

(** [a || b] on strings: the empty string is falsy. *)
Definition orString (a b : jsstring) : jsstring :=
  match a with [] => b | _ => a end.

Definition extractDataFromText (text : jsstring) : SolicitudParsed :=
  let companyName := extractCompanyName text in
  {| cantidad := [];
     domicilioEntrega := orString companyName No_especificada;
     fechaEntrega := [];
     horario := [];
     ciudad := [] |}.

Section WithPdfParse.

(** The pdf-parse library: the text of the document, or an exception. *)
Variable World : Type.
Variable pdfParse : Buffer -> World -> Result jsstring * World.

Definition parsePDF (pdfBuffer : Buffer) (wd : World)
    : Result SolicitudParsed * World :=
  match pdfParse pdfBuffer wd with
  | (Ok text, wd1) => (Ok (extractDataFromText text), wd1)
  | (Throw (Error message), wd1) =>
      (Throw (Error (js "PDF parsing failed: " ++ message)), wd1)
  end.

End WithPdfParse.

Arguments parsePDF {World} pdfParse pdfBuffer wd.

End PDFParser.


(** ** Numbers read from text *)

Module Number.

(** The value [parseFloat] denotes, kept as the exact decimal
    [(-1)^neg * mantissa * 10^exp10]; the rounding of that decimal to a
    binary64 value is not part of the embedding.  What is said of a
    [Finite] value is said of the decimal that was read: the number the
    program then holds is its binary64 rounding, which has the same sign,
    loses digits beyond 53 bits and is infinite for a decimal beyond the
    binary64 range. *)
Inductive JSNumber :=
| Finite (neg : bool) (mantissa : N) (exp10 : Z)
| Infinity (neg : bool).

Fixpoint spanDigits (s : jsstring) : jsstring * jsstring :=
  match s with
  | c :: t =>
      if isDigit c then let '(d, r) := spanDigits t in (c :: d, r) else ([], s)
  | [] => ([], [])
  end.

Definition digitsValue (ds : jsstring) : N :=
  fold_left (fun acc d => (10 * acc + (d - 48))%N) ds 0%N.

(** ExponentPart: [e] or [E], an optional sign and at least one digit;
    when it is not complete the literal ends before it. *)
Definition exponentPart (s : jsstring) : Z :=
  match s with
  | c :: t =>
      if (c =? 101)%N || (c =? 69)%N then
        let '(sign, u) :=
          match t with
          | 43%N :: u => (1%Z, u)
          | 45%N :: u => ((-1)%Z, u)
          | _ => (1%Z, t)
          end in
        match fst (spanDigits u) with
        | [] => 0%Z
        | ds => (sign * Z.of_N (digitsValue ds))%Z
        end
      else 0%Z
  | [] => 0%Z
  end.

(** [parseFloat]: leading white space is skipped and the longest prefix
    that is a StrDecimalLiteral is read; [None] is NaN. *)
Definition parseFloat (s : jsstring) : option JSNumber :=
  let t := trimStart s in
  let '(neg, u) :=
    match t with
    | 43%N :: u => (false, u)
    | 45%N :: u => (true, u)
    | _ => (false, t)
    end in
  if startsWith (js "Infinity") u then Some (Infinity neg)
  else
    let '(ip, r1) := spanDigits u in
    let '(fp, r2) :=
      match r1 with
      | 46%N :: r => spanDigits r
      | _ => ([], r1)
      end in
    match ip ++ fp with
    | [] => None
    | ds => Some (Finite neg (digitsValue ds)
                         (exponentPart r2 - Z.of_nat (length fp))%Z)
    end.


End Number.

Import Number.

(** ** excel/writer.ts *)

Module ExcelWriter.

(** [SolicitudData] of types.ts *)
Record SolicitudData := {
  fecha : jsstring;
  operador : jsstring;
  sucursal : jsstring;
  monto : jsstring;
  link : jsstring;
  messageId : jsstring
}.

(** What a cell of the sheet holds. *)
Inductive CellValue :=
| VNull
| VString (s : jsstring)
| VNumber (n : JSNumber)
| VHyperlink (text hyperlink : jsstring).

Inductive Font := FontBold | FontLink.

Record Cell := {
  value : CellValue;
  numFmt : option jsstring;
  font : option Font;
  border : bool
}.

Definition emptyCell : Cell :=
  {| value := VNull; numFmt := None; font := None; border := false |}.

Definition stringCell (s : jsstring) : Cell :=
  {| value := VString s; numFmt := None; font := None; border := false |}.

(** A row is the list of its cells, columns 1, 2, ... *)
Definition Row := list Cell.

(** The sheet: rows 1, 2, ... (row 1 is the header) and the filter range.
    Column widths and the hidden flag of column 6 are presentation only and
    are left out. *)
Record Worksheet := {
  rows : list Row;
  autoFilter : option jsstring
}.

Definition rowCount (ws : Worksheet) : nat := length (rows ws).

(** [row.getCell(n)]: a column that was never written reads as empty. *)
Definition getCell (row : Row) (n : nat) : Cell :=
  nth (n - 1) row emptyCell.

Fixpoint setCellAt (i : nat) (f : Cell -> Cell) (row : Row) : Row :=
  match i, row with
  | 0, c :: t => f c :: t
  | 0, [] => [f emptyCell]
  | S j, c :: t => c :: setCellAt j f t
  | S j, [] => emptyCell :: setCellAt j f []
  end.

(** Assigning through [row.getCell(n)]. *)
Definition updateCell (n : nat) (f : Cell -> Cell) (row : Row) : Row :=
  setCellAt (n - 1) f row.

(** [worksheet.addRow(values)] *)
Definition addRow (values : list jsstring) (ws : Worksheet) : Worksheet :=
  {| rows := rows ws ++ [map stringCell values]; autoFilter := autoFilter ws |}.

(** Changes made through the handle [addRow] returned: the last row. *)
Definition updateLastRow (f : Row -> Row) (ws : Worksheet) : Worksheet :=
  {| rows := match rev (rows ws) with
             | r :: before => rev before ++ [f r]
             | [] => []
             end;
     autoFilter := autoFilter ws |}.

Definition isNullValue (v : CellValue) : bool :=
  match v with VNull => true | _ => false end.

(** [row.eachCell(cb)] visits the cells that hold a value. *)
Definition eachCell (f : Cell -> Cell) (row : Row) : Row :=
  map (fun c => if isNullValue (value c) then c else f c) row.

Definition thinBorder (c : Cell) : Cell :=
  {| value := value c; numFmt := numFmt c; font := font c; border := true |}.

Definition accountingFormat : jsstring :=
  js "_($* #,##0.00_);_($* (#,##0.00);_($* " ++ [34%N] ++ js "-" ++ [34%N]
  ++ js "??_);_(@_)".

Definition No_especificada : jsstring := js "No especificada".

(** [cellValue === messageId] *)
Definition strictEqualsString (v : CellValue) (s : jsstring) : bool :=
  match v with
  | VString t => jsstring_eqb t s
  | _ => false
  end.

Definition messageIdColumn : nat := 6.

(** [for (let i = 2; i <= rowCount; i++)] over the rows from row [i] on. *)
Fixpoint scanRows (i : nat) (rs : list Row) (mid : jsstring) : option (nat * Row) :=
  match rs with
  | [] => None
  | row :: more =>
      if strictEqualsString (value (getCell row messageIdColumn)) mid
      then Some (i, row)
      else scanRows (S i) more mid
  end.

Definition findExistingRow (worksheet : option Worksheet) (mid : jsstring)
    : option (nat * Row) :=
  match worksheet with
  | None => None
  | Some ws => scanRows 2 (drop 1 (rows ws)) mid
  end.

Definition parseAmount (amountString : jsstring) : option JSNumber :=
  match amountString with
  | [] => None
  | _ =>
      if jsstring_eqb amountString No_especificada then None
      else
        let cleanAmount :=
          trim (removeAll (fun c => (c =? chr "$")%N || (c =? chr ",")%N) amountString) in
        parseFloat cleanAmount
  end.

Definition createFilterableTable (ws : Worksheet) : Worksheet :=
  if rowCount ws <=? 1 then ws
  else {| rows := rows ws;
          autoFilter := Some (js "A1:F" ++ natToString (rowCount ws)) |}.

(** The MONTO cell (column 4) of a new row. *)
Definition formatMonto (monto : jsstring) (row : Row) : Row :=
  match monto with
  | [] => row
  | _ =>
      if jsstring_eqb monto No_especificada then row
      else match parseAmount monto with
           | Some amount =>
               updateCell 4 (fun c => {| value := VNumber amount;
                                         numFmt := Some accountingFormat;
                                         font := font c; border := border c |}) row
           | None => row
           end
  end.

(** The LINK cell (column 5) of a new row. *)
Definition formatLink (lnk : jsstring) (row : Row) : Row :=
  match lnk with
  | [] => row
  | _ =>
      updateCell 5 (fun c => {| value := VHyperlink (js "Ver correo") lnk;
                                numFmt := numFmt c;
                                font := Some FontLink; border := border c |}) row
  end.

Definition headers : list jsstring :=
  [js "FECHA"; js "OPERADOR"; js "SUCURSAL"; js "MONTO"; js "LINK"].

Definition headerStyle (c : Cell) : Cell :=
  {| value := value c; numFmt := numFmt c; font := Some FontBold; border := true |}.

(** The writer object; [worksheet] is [null] until [initialize] ran. *)
Record Writer := { worksheet : option Worksheet }.

Section WithFile.

(** The file system: [workbook.xlsx.writeFile] stores the sheet or throws. *)
Variable World : Type.
Variable writeFile : Worksheet -> World -> Result unit * World.

Definition saveWorkbook (ws : Worksheet) (wd : World) : Result unit * World :=
  writeFile ws wd.

Definition setupHeaders (ws : Worksheet) (wd : World)
    : Result unit * Worksheet * World :=
  let ws1 := updateLastRow (eachCell headerStyle) (addRow headers ws) in
  let '(r, wd1) := saveWorkbook ws1 wd in
  (r, ws1, wd1).

(** [setupWorksheet], given the sheet found in the loaded workbook (if
    any): a missing sheet is created, an empty one gets the header row. *)
Definition setupWorksheet (loaded : option Worksheet) (wd : World)
    : Result unit * Writer * World :=
  let ws := default {| rows := []; autoFilter := None |} loaded in
  if rowCount ws =? 0 then
    let '(r, ws1, wd1) := setupHeaders ws wd in
    (r, {| worksheet := Some ws1 |}, wd1)
  else (Ok tt, {| worksheet := Some ws |}, wd).

Definition appendSolicitud (solicitud : SolicitudData) (w : Writer) (wd : World)
    : Result unit * Writer * World :=
  match worksheet w with
  | None => (Throw (Error (js "Worksheet not initialized")), w, wd)
  | Some ws =>
      match findExistingRow (worksheet w) (messageId solicitud) with
      | Some _ => (Ok tt, w, wd)
      | None =>
          let rowData := [fecha solicitud; operador solicitud; sucursal solicitud;
                          monto solicitud; link solicitud; messageId solicitud] in
          let ws1 := addRow rowData ws in
          let ws2 := updateLastRow (formatMonto (monto solicitud)) ws1 in
          let ws3 := updateLastRow (formatLink (link solicitud)) ws2 in
          let ws4 := createFilterableTable ws3 in
          let ws5 := updateLastRow (eachCell thinBorder) ws4 in
          let '(r, wd1) := saveWorkbook ws5 wd in
          (r, {| worksheet := Some ws5 |}, wd1)
      end
  end.

(** [getStatistics().totalRows] *)
Definition totalRows (w : Writer) : Z :=
  match worksheet w with
  | Some ws => Z.of_nat (rowCount ws) - 1
  | None => 0
  end.

End WithFile.

Arguments saveWorkbook {World} writeFile ws wd.
Arguments setupHeaders {World} writeFile ws wd.
Arguments setupWorksheet {World} writeFile loaded wd.
Arguments appendSolicitud {World} writeFile solicitud w wd.

End ExcelWriter.

(** ** gmail/watcher.ts *)

Module GmailWatcher.

(** [GmailAttachment] and [ProcessedEmail] of types.ts *)
Record GmailAttachment := {
  filename : jsstring;
  mimeType : jsstring;
  attachmentId : jsstring;
  size : N
}.

(** What the program reads from a [Date]: [getDate()] and [getMonth()]. *)
Inductive JSDate :=
| InvalidDate
| LocalDate (date month : nat).

Record ProcessedEmail := {
  messageId : jsstring;
  subject : jsstring;
  sender : jsstring;
  receivedAt : JSDate;
  attachments : list GmailAttachment
}.

(** A part of the message tree as the Gmail API returns it; absent fields
    are [None]. *)
#[warnings="-register-all"] Inductive MessagePart :=
| Part (partFilename partMimeType bodyAttachmentId : option jsstring)
       (bodySize : option N) (parts : option (list MessagePart)).

Record Message := {
  headers : list (jsstring * jsstring);
  payloadParts : option (list MessagePart)
}.

Definition truthy (s : option jsstring) : bool :=
  match s with Some (_ :: _) => true | _ => false end.

Definition isCartaAttachment (filename : jsstring) : bool :=
  let normalizedFilename := toLowerCase filename in
  existsb (includes normalizedFilename)
          [js "carta"; js "cartas"; js "carat"; js "carata"; js "cart";
           js "crta"; js "acarta"].

Definition application_pdf : jsstring := js "application/pdf".

(** The filter of [getMessageDetails]: every PDF, cover letter or not. *)
Definition pdfAttachments (atts : list GmailAttachment) : list GmailAttachment :=
  List.filter (fun att => jsstring_eqb (mimeType att) application_pdf) atts.

Fixpoint extractFromPart (part : MessagePart) : list GmailAttachment :=
  match part with
  | Part fn mt aid sz sub =>
      (if truthy fn && truthy aid
       then [{| filename := default [] fn;
                mimeType := default [] mt;
                attachmentId := default [] aid;
                size := default 0%N sz |}]
       else [])
      ++ match sub with
         | Some ps => flat_map extractFromPart ps
         | None => []
         end
  end.

Definition extractAttachments (message : Message) : list GmailAttachment :=
  match payloadParts message with
  | Some ps => flat_map extractFromPart ps
  | None => []
  end.

(** [headers.find(h => h.name === name)?.value || ''] *)
Definition headerValue (name : jsstring) (hs : list (jsstring * jsstring)) : jsstring :=
  match List.find (fun h => jsstring_eqb (fst h) name) hs with
  | Some h => snd h
  | None => []
  end.

(** The watcher object: whether the API client is set and the identifiers
    of the messages already handed out. *)
Record Watcher := {
  gmail : bool;
  processedMessages : gset jsstring
}.

Section WithGmail.

(** The mailbox provider and the clock. *)
Variable World : Type.
(** [users.messages.list({q, maxResults})]: the ids, each possibly absent *)
Variable messagesList : jsstring -> nat -> World -> Result (list (option jsstring)) * World.
(** [users.messages.get({id})] *)
Variable messagesGet : jsstring -> World -> Result Message * World.
(** [users.messages.attachments.get({messageId, id})]: [response.data.data] *)
Variable attachmentsGet : jsstring -> jsstring -> World -> Result (option jsstring) * World.
(** labelling a message PROCESSED: [ensureLabelExists] then [messages.modify] *)
Variable labelProcessed : jsstring -> World -> Result unit * World.
(** [new Date(header)] and [new Date()] *)
Variable dateOf : jsstring -> JSDate.
Variable now : World -> JSDate.
(** [setTimeout] of the given number of milliseconds *)
Variable sleep : Z -> World -> World.
(** [config.errorHandling.retryDelayMs] *)
Variable retryDelayMs : Z.

Definition notInitialized : Exn := Error (js "Gmail not initialized").

Definition getMessageDetails (w : Watcher) (messageId : jsstring) (wd : World)
    : Result (option ProcessedEmail) * World :=
  if negb (gmail w) then (Throw notInitialized, wd)
  else
    match messagesGet messageId wd with
    | (Throw _, wd1) => (Ok None, wd1)
    | (Ok message, wd1) =>
        let subject := headerValue (js "Subject") (headers message) in
        let sender := headerValue (js "From") (headers message) in
        let dateHeader := headerValue (js "Date") (headers message) in
        let receivedAt := match dateHeader with [] => now wd1 | _ => dateOf dateHeader end in
        let pdfs := pdfAttachments (extractAttachments message) in
        if length pdfs =? 0 then (Ok None, wd1)
        else (Ok (Some {| messageId := messageId; subject := subject;
                          sender := sender; receivedAt := receivedAt;
                          attachments := pdfs |}), wd1)
    end.

(** The [for (const message of messages)] loop of [checkForNewMessages]. *)
Fixpoint collectMessages (messages : list (option jsstring)) (w : Watcher)
    (wd : World) (processedEmails : list ProcessedEmail)
    : list ProcessedEmail * Watcher * World :=
  match messages with
  | [] => (processedEmails, w, wd)
  | m :: more =>
      match m with
      | Some (c :: i) =>
          let id := c :: i in
          if bool_decide (id ∈ processedMessages w)
          then collectMessages more w wd processedEmails
          else
            match getMessageDetails w id wd with
            | (Ok (Some processedEmail), wd1) =>
                collectMessages more
                  {| gmail := gmail w;
                     processedMessages := {[ id ]} ∪ processedMessages w |}
                  wd1 (processedEmails ++ [processedEmail])
            | (_, wd1) => collectMessages more w wd1 processedEmails
            end
      | _ => collectMessages more w wd processedEmails
      end
  end.

Definition query : jsstring := js "has:attachment filename:pdf -label:PROCESSED".

Definition checkForNewMessages (w : Watcher) (wd : World)
    : Result (list ProcessedEmail) * Watcher * World :=
  if negb (gmail w) then (Throw notInitialized, w, wd)
  else
    match messagesList query 10 wd with
    | (Throw e, wd1) => (Throw e, w, wd1)
    | (Ok [], wd1) =>
        (* the two diagnostic queries, logged only *)
        match messagesList (js "is:unread") 5 wd1 with
        | (Throw e, wd2) => (Throw e, w, wd2)
        | (Ok _, wd2) =>
            match messagesList (js "is:unread has:attachment") 5 wd2 with
            | (Throw e, wd3) => (Throw e, w, wd3)
            | (Ok _, wd3) => (Ok [], w, wd3)
            end
        end
    | (Ok messages, wd1) =>
        let '(processedEmails, w1, wd2) := collectMessages messages w wd1 [] in
        (Ok processedEmails, w1, wd2)
    end.

Definition downloadAttachment (w : Watcher) (messageId attachmentId : jsstring)
    (wd : World) : Result Buffer * World :=
  if negb (gmail w) then (Throw notInitialized, wd)
  else
    match attachmentsGet messageId attachmentId wd with
    | (Throw e, wd1) => (Throw e, wd1)
    | (Ok data, wd1) =>
        if truthy data then
          (Ok (FromBase64
                 (map (fun c => if (c =? chr "-")%N then chr "+"
                                else if (c =? chr "_")%N then chr "/" else c)
                      (default [] data))), wd1)
        else (Throw (Error (js "No attachment data received")), wd1)
    end.

Definition markAsProcessed (w : Watcher) (messageId : jsstring) (wd : World)
    : Result unit * World :=
  if negb (gmail w) then (Throw notInitialized, wd)
  else (Ok tt, snd (labelProcessed messageId wd)).

(** The [for (let i = 0; i < maxRetries; i++)] loop of [retryOperation];
    [fuel] is the number of iterations left. *)
Fixpoint retryLoop {T : Type} (operation : World -> Result T * World)
    (maxRetries : Z) (fuel : nat) (i : Z) (wd : World) : Result T * World :=
  match fuel with
  | 0 => (Throw (Error (js "Max retries exceeded")), wd)
  | S f =>
      if (i <? maxRetries)%Z then
        match operation wd with
        | (Ok v, wd1) => (Ok v, wd1)
        | (Throw error, wd1) =>
            if (i =? maxRetries - 1)%Z then (Throw error, wd1)
            else retryLoop operation maxRetries f (i + 1)%Z (sleep retryDelayMs wd1)
        end
      else (Throw (Error (js "Max retries exceeded")), wd)
  end.

(** [maxRetries] is an integer; the loop runs at most that many times. *)
Definition retryOperation {T : Type} (operation : World -> Result T * World)
    (maxRetries : Z) (wd : World) : Result T * World :=
  retryLoop operation maxRetries (Z.to_nat maxRetries) 0%Z wd.

End WithGmail.

Arguments getMessageDetails {World} messagesGet dateOf now w messageId wd.
Arguments collectMessages {World} messagesGet dateOf now messages w wd processedEmails.
Arguments checkForNewMessages {World} messagesList messagesGet dateOf now w wd.
Arguments downloadAttachment {World} attachmentsGet w messageId attachmentId wd.
Arguments markAsProcessed {World} labelProcessed w messageId wd.
Arguments retryLoop {World} sleep retryDelayMs {T} operation maxRetries fuel i wd.
Arguments retryOperation {World} sleep retryDelayMs {T} operation maxRetries wd.

End GmailWatcher.

(** ** index.ts *)

Module MonitoreoGmail.

Import GmailWatcher.

(** The collaborators of the running system. *)
Record Services (World : Type) := {
  messagesList : jsstring -> nat -> World -> Result (list (option jsstring)) * World;
  messagesGet : jsstring -> World -> Result Message * World;
  attachmentsGet : jsstring -> jsstring -> World -> Result (option jsstring) * World;
  labelProcessed : jsstring -> World -> Result unit * World;
  dateOf : jsstring -> JSDate;
  now : World -> JSDate;
  pdfParse : Buffer -> World -> Result jsstring * World;
  writeFile : ExcelWriter.Worksheet -> World -> Result unit * World
}.

Arguments messagesList {World} _.
Arguments messagesGet {World} _.
Arguments attachmentsGet {World} _.
Arguments labelProcessed {World} _.
Arguments dateOf {World} _.
Arguments now {World} _.
Arguments pdfParse {World} _.
Arguments writeFile {World} _.

(** The fields of the application object that change while it runs. *)
Record System := {
  gmailWatcher : Watcher;
  excelWriter : ExcelWriter.Writer
}.

Definition isCarta (a : GmailAttachment) : bool :=
  includes (toLowerCase (filename a)) (js "carta").

(** [Number(aIsCarta) - Number(bIsCarta)] *)
Definition compareCarta (a b : GmailAttachment) : Z :=
  (Z.b2z (isCarta a) - Z.b2z (isCarta b))%Z.

Definition sortedAttachments (atts : list GmailAttachment) : list GmailAttachment :=
  arraySort compareCarta atts.

(** The three patterns of [extractClientName]:
    ["/^(.+?)\s*<.*>$/"], ["/<(.+?)@/"] and
    ["/^(?:solicitud|pedido|orden)\s+(?:de\s+)?(.+?)(?:\s+-|$)/i"]. *)
Definition displayNamePattern : flags * regex :=
  (noFlags, cats [Bol; Capture 1 (plusLazy Dot); star space; Lit (chr "<");
                  star Dot; Lit (chr ">"); Eol]).

Definition addressPattern : flags * regex :=
  (noFlags, cats [Lit (chr "<"); Capture 1 (plusLazy Dot); Lit (chr "@")]).

Definition subjectNamePattern : flags * regex :=
  (flagI, cats [Bol; alts [lit "solicitud"; lit "pedido"; lit "orden"];
                plus space; opt (Cat (lit "de") (plus space));
                Capture 1 (plusLazy Dot);
                Or (Cat (plus space) (Lit (chr "-"))) Eol]).

Definition extractClientName (sender subject : jsstring) : jsstring :=
  match PDFParser.matchWith displayNamePattern sender with
  | Some emailMatch => trim (PDFParser.group1 emailMatch)
  | None =>
      match PDFParser.matchWith addressPattern sender with
      | Some emailAddressMatch => trim (PDFParser.group1 emailAddressMatch)
      | None =>
          match PDFParser.matchWith subjectNamePattern subject with
          | Some subjectMatch => trim (PDFParser.group1 subjectMatch)
          | None => sender
          end
      end
  end.

Definition months : list jsstring :=
  [js "ene"; js "feb"; js "mar"; js "abr"; js "may"; js "jun";
   js "jul"; js "ago"; js "sep"; js "oct"; js "nov"; js "dic"].

Definition formatShortDate (date : JSDate) : jsstring :=
  match date with
  | InvalidDate => js "NaN-undefined"
  | LocalDate day month =>
      natToString day ++ js "-" ++ nth month months (js "undefined")
  end.

Definition generateGmailLink (messageId : jsstring) : jsstring :=
  js "https://mail.google.com/mail/u/1/#inbox/" ++ messageId.

(** The record [processEmail] builds for one parsed attachment. *)
Definition solicitudData (email : ProcessedEmail) (parsedData : PDFParser.SolicitudParsed)
    : ExcelWriter.SolicitudData :=
  let cantidad := PDFParser.extractAmountFromSubject (subject email) in
  let ciudad := PDFParser.extractCityFromSubject (subject email) in
  let cliente :=
    if negb (jsstring_eqb (PDFParser.domicilioEntrega parsedData) (js "No especificada"))
    then PDFParser.domicilioEntrega parsedData
    else extractClientName (sender email) (subject email) in
  {| ExcelWriter.fecha := formatShortDate (receivedAt email);
     ExcelWriter.operador := cliente;
     ExcelWriter.sucursal := PDFParser.orString ciudad (js "No especificada");
     ExcelWriter.monto := PDFParser.orString cantidad (js "No especificada");
     ExcelWriter.link := generateGmailLink (messageId email);
     ExcelWriter.messageId := messageId email |}.

Section WithServices.

Variable World : Type.
Variable sv : Services World.

(** The body of the [try] inside the attachment loop of [processEmail]. *)
Definition processAttachment (email : ProcessedEmail) (attachment : GmailAttachment)
    (sys : System) (wd : World) : Result unit * System * World :=
  match downloadAttachment (attachmentsGet sv) (gmailWatcher sys)
          (messageId email) (attachmentId attachment) wd with
  | (Throw e, wd1) => (Throw e, sys, wd1)
  | (Ok pdfBuffer, wd1) =>
      match PDFParser.parsePDF (pdfParse sv) pdfBuffer wd1 with
      | (Throw e, wd2) => (Throw e, sys, wd2)
      | (Ok parsedData, wd2) =>
          match ExcelWriter.appendSolicitud (writeFile sv)
                  (solicitudData email parsedData) (excelWriter sys) wd2 with
          | (r, writer1, wd3) =>
              let sys1 := {| gmailWatcher := gmailWatcher sys; excelWriter := writer1 |} in
              match r with
              | Throw e => (Throw e, sys1, wd3)
              | Ok _ =>
                  let '(r2, wd4) := markAsProcessed (labelProcessed sv) (gmailWatcher sys)
                                      (messageId email) wd3 in
                  (r2, sys1, wd4)
              end
          end
      end
  end.

(** [for (const attachment of sortedAttachments) { try { ... } catch { log } }] *)
Fixpoint forAttachments (email : ProcessedEmail) (atts : list GmailAttachment)
    (sys : System) (wd : World) : System * World :=
  match atts with
  | [] => (sys, wd)
  | attachment :: more =>
      let '(_, sys1, wd1) := processAttachment email attachment sys wd in
      forAttachments email more sys1 wd1
  end.

Definition processEmail (email : ProcessedEmail) (sys : System) (wd : World)
    : Result unit * System * World :=
  let '(sys1, wd1) := forAttachments email (sortedAttachments (attachments email)) sys wd in
  (Ok tt, sys1, wd1).

(** [for (const email of emails) { try { processEmail } catch { log } }] *)
Fixpoint forEmails (emails : list ProcessedEmail) (sys : System) (wd : World)
    : System * World :=
  match emails with
  | [] => (sys, wd)
  | email :: more =>
      let '(_, sys1, wd1) := processEmail email sys wd in
      forEmails more sys1 wd1
  end.

Definition checkAndProcessEmails (sys : System) (wd : World) : System * World :=
  match checkForNewMessages (messagesList sv) (messagesGet sv) (dateOf sv) (now sv)
          (gmailWatcher sys) wd with
  | (Throw _, watcher1, wd1) =>
      ({| gmailWatcher := watcher1; excelWriter := excelWriter sys |}, wd1)
  | (Ok emails, watcher1, wd1) =>
      let sys1 := {| gmailWatcher := watcher1; excelWriter := excelWriter sys |} in
      if length emails =? 0 then (sys1, wd1)
      else forEmails emails sys1 wd1
  end.

End WithServices.

Arguments processAttachment {World} sv email attachment sys wd.
Arguments forAttachments {World} sv email atts sys wd.
Arguments processEmail {World} sv email sys wd.
Arguments forEmails {World} sv emails sys wd.
Arguments checkAndProcessEmails {World} sv sys wd.

End MonitoreoGmail.

(** * Vocabulary of the properties *)

Import GmailWatcher MonitoreoGmail.

Definition notCarta (a : GmailAttachment) : bool := negb (isCarta a).

(** The attachments of the ordering example of the specification. *)
Definition exampleAttachment (name mime : string) : GmailAttachment :=
  {| filename := js name; mimeType := js mime;
     attachmentId := js name; size := 1024 |}.

(** The world reached when the first [k] invocations of [operation] all
    fail and each failure is followed by one wait of [d] milliseconds;
    [None] when one of them succeeds. *)
Fixpoint afterFailures {World T : Type} (sleep : Z -> World -> World) (d : Z)
    (operation : World -> Result T * World) (k : nat) (wd : World) : option World :=
  match k with
  | 0 => Some wd
  | S k' =>
      match operation wd with
      | (Throw _, wd1) => afterFailures sleep d operation k' (sleep d wd1)
      | (Ok _, _) => None
      end
  end.

(** A world that only records what happened to it. *)
Inductive Event :=
| Invoked
| Waited (ms : Z).

Definition logSleep (ms : Z) (log : list Event) : list Event := log ++ [Waited ms].

Definition invocations (log : list Event) : nat :=
  length (List.filter (fun ev => match ev with Invoked => true | _ => false end) log).

(** An operation that throws "failure n" on its n-th invocation for the
    first [failures] invocations and returns the number of earlier
    invocations afterwards. *)
Definition failsThenSucceeds (failures : nat) (log : list Event)
    : Result nat * list Event :=
  let n := invocations log in
  if n <? failures
  then (Throw (Error (js "failure " ++ natToString (S n))), log ++ [Invoked])
  else (Ok n, log ++ [Invoked]).

(** The subject of the extraction example of the specification. *)
Definition exampleSubject : jsstring :=
  js "Solicitud - Recurso Tabasco $1,500.00 - entrega".

(** A strategy of the issuer extraction: the lines it scans and what it
    yields on one line. *)
Definition Strategy : Type := list jsstring * (jsstring -> option jsstring).


(** [r] is what the strategy yields on the first of its lines that
    matches. *)
Definition firstHit (s : Strategy) (r : jsstring) : Prop :=
  exists (i : nat) (line : jsstring),
    fst s !! i = Some line /\ snd s line = Some r
    /\ forall (j : nat) (l : jsstring), j < i -> fst s !! j = Some l -> snd s l = None.


(** A message whose document has no company name. *)
Definition exampleEmail : ProcessedEmail :=
  {| GmailWatcher.messageId := js "18c5f2a9d3e4b701";
     subject := js "Solicitud - Recurso Tabasco $1,500.00 - entrega";
     sender := js "Juan Perez <juan.perez@example.com>";
     receivedAt := LocalDate 24 5;
     attachments := [exampleAttachment "FACTURA.pdf" "application/pdf"] |}.

Definition exampleText : jsstring := js "factura del mes".

(** The data rows of the ledger: every row after the header. *)
Definition dataRows (w : ExcelWriter.Writer) : list ExcelWriter.Row :=
  match ExcelWriter.worksheet w with
  | Some ws => drop 1 (ExcelWriter.rows ws)
  | None => []
  end.

(** The hidden identity column of [row] holds [mid]. *)
Definition hasId (mid : jsstring) (row : ExcelWriter.Row) : bool :=
  ExcelWriter.strictEqualsString
    (ExcelWriter.value (ExcelWriter.getCell row ExcelWriter.messageIdColumn)) mid.

Definition rowsWithId (w : ExcelWriter.Writer) (mid : jsstring) : list ExcelWriter.Row :=
  List.filter (hasId mid) (dataRows w).

(** The sheet exists and has its header row, as [setupWorksheet] leaves it. *)
Definition initialized (w : ExcelWriter.Writer) : Prop :=
  exists ws, ExcelWriter.worksheet w = Some ws /\ 1 <= ExcelWriter.rowCount ws.

Definition atMostOnePerId (w : ExcelWriter.Writer) : Prop :=
  forall mid, length (rowsWithId w mid) <= 1.

(** A sequence of appends, whatever each of them returns. *)
Definition appendAll {World : Type}
    (writeFile : ExcelWriter.Worksheet -> World -> Result unit * World)
    (records : list ExcelWriter.SolicitudData) (w : ExcelWriter.Writer) (wd : World)
    : ExcelWriter.Writer * World :=
  fold_left (fun st solicitud =>
               let '(_, w1, wd1) :=
                 ExcelWriter.appendSolicitud writeFile solicitud (fst st) (snd st) in
               (w1, wd1))
            records (w, wd).

(** The row an append adds for a record. *)
Definition newRow (solicitud : ExcelWriter.SolicitudData) : ExcelWriter.Row :=
  ExcelWriter.eachCell ExcelWriter.thinBorder
    (ExcelWriter.formatLink (ExcelWriter.link solicitud)
       (ExcelWriter.formatMonto (ExcelWriter.monto solicitud)
          (map ExcelWriter.stringCell
               [ExcelWriter.fecha solicitud; ExcelWriter.operador solicitud;
                ExcelWriter.sucursal solicitud; ExcelWriter.monto solicitud;
                ExcelWriter.link solicitud; ExcelWriter.messageId solicitud]))).

(** A file system that keeps every version written to it, latest first. *)
Definition diskWrite (ws : ExcelWriter.Worksheet) (disk : list ExcelWriter.Worksheet)
    : Result unit * list ExcelWriter.Worksheet :=
  (Ok tt, ws :: disk).

(** A ledger freshly set up on an empty disk. *)
Definition freshLedger : ExcelWriter.Writer :=
  snd (fst (ExcelWriter.setupWorksheet diskWrite None [])).

Definition exampleRecord (amount : string) : ExcelWriter.SolicitudData :=
  {| ExcelWriter.fecha := js "24-jun";
     ExcelWriter.operador := js "CAZAN";
     ExcelWriter.sucursal := js "Tabasco";
     ExcelWriter.monto := js amount;
     ExcelWriter.link := js "https://mail.google.com/mail/u/1/#inbox/18c5f2a9d3e4b701";
     ExcelWriter.messageId := js "18c5f2a9d3e4b701" |}.

(** The states of the system that later polls reach, in any worlds. *)
Inductive Polled {World : Type} (sv : Services World) : System -> System -> Prop :=
| Polled_here (sys : System) : Polled sv sys sys
| Polled_next (sys : System) (wd : World) (sys' : System) :
    Polled sv (fst (checkAndProcessEmails sv sys wd)) sys' -> Polled sv sys sys'.

(** A mailbox with three messages m1, m2, m3, one PDF each; the download
    of the attachment of m2 throws.  The world counts the API calls. *)
Definition exampleMessage : Message :=
  {| headers := [(js "Subject", js "Solicitud - Recurso Tabasco $1,500.00 - entrega");
                 (js "From", js "Juan Perez <juan.perez@example.com>");
                 (js "Date", js "Mon, 24 Jun 2024 10:00:00 -0600")];
     payloadParts :=
       Some [Part (Some (js "FACTURA.pdf")) (Some (js "application/pdf"))
                  (Some (js "FACTURA.pdf")) (Some 1024%N) None;
             Part (Some (js "note.txt")) (Some (js "text/plain"))
                  (Some (js "note.txt")) (Some 10%N) None] |}.

Definition exampleServices : Services nat :=
  {| messagesList := fun _ _ n => (Ok [Some (js "m1"); Some (js "m2"); Some (js "m3")], S n);
     messagesGet := fun _ n => (Ok exampleMessage, S n);
     attachmentsGet := fun mid _ n =>
       if jsstring_eqb mid (js "m2")
       then (Throw (Error (js "socket hang up")), S n)
       else (Ok (Some (js "JVBERi0xLjQ")), S n);
     labelProcessed := fun _ n => (Ok tt, S n);
     dateOf := fun _ => LocalDate 24 5;
     now := fun _ => LocalDate 1 0;
     pdfParse := fun _ n => (Ok (js "CAZAN VISION EMPRESARIAL SA DE CV"), n);
     writeFile := fun _ n => (Ok tt, S n) |}.

Definition exampleSystem : System :=
  {| gmailWatcher := {| gmail := true; processedMessages := ∅ |};
     excelWriter := freshLedger |}.

Definition exampleBatchEmail (id : string) : ProcessedEmail :=
  {| GmailWatcher.messageId := js id;
     subject := js "Solicitud - Recurso Tabasco $1,500.00 - entrega";
     sender := js "Juan Perez <juan.perez@example.com>";
     receivedAt := LocalDate 24 5;
     attachments := [exampleAttachment "FACTURA.pdf" "application/pdf"] |}.

(** [y] is a matcher state further along the same input as [x]. *)
Definition follows (x y : mstate) : Prop :=
  length (rest y) <= length (rest x)
  /\ pos y + length (rest y) = pos x + length (rest x).

(** Two continuations that agree on every state reachable from [x]. *)
Definition agree (x : mstate) (k k' : cont) : Prop :=
  forall y, follows x y -> k y = k' y.

(** A matcher that only consults its continuation further along the
    input. *)
Definition steady (m : cont -> cont) : Prop :=
  forall x k k', agree x k k' -> m k x = m k' x.

(** The identifier a data row carries in its hidden column, if it is a
    string. *)
Definition idOf (row : ExcelWriter.Row) : option jsstring :=
  match ExcelWriter.value (ExcelWriter.getCell row ExcelWriter.messageIdColumn) with
  | ExcelWriter.VString s => Some s
  | _ => None
  end.

(** The identifiers present in the ledger. *)
Definition ledgerIds (w : ExcelWriter.Writer) : gset jsstring :=
  list_to_set (omap idOf (dataRows w)).

(** The sheet of a writer whose sheet exists. *)
Definition sheetOf (w : ExcelWriter.Writer) : ExcelWriter.Worksheet :=
  default {| ExcelWriter.rows := []; ExcelWriter.autoFilter := None |}
          (ExcelWriter.worksheet w).

(** What the pipeline relies on in a message handed to it: an identifier,
    at least one attachment, and only PDF attachments that can be
    downloaded by name. *)
Definition wellFormedEmail (e : ProcessedEmail) : Prop :=
  GmailWatcher.messageId e <> []
  /\ attachments e <> []
  /\ forall a, In a (attachments e) ->
       mimeType a = js "application/pdf" /\ filename a <> [] /\ attachmentId a <> [].

(** The words a pattern can consume, its assertions (boundaries, anchors,
    lookahead) read as the empty word. *)
Fixpoint lang (fl : flags) (r : regex) (w : jsstring) {struct r} : Prop :=
  match r with
  | Eps => w = []
  | Lit c => exists ch, w = [ch] /\ canonicalize fl ch = canonicalize fl c
  | Dot => exists ch, w = [ch] /\ isLineTerminator ch = false
  | Cls neg items =>
      exists ch, w = [ch] /\ xorb neg (existsb (itemMatches fl ch) items) = true
  | Cat a b => exists w1 w2, w = w1 ++ w2 /\ lang fl a w1 /\ lang fl b w2
  | Or a b => lang fl a w \/ lang fl b w
  | Repeat min max _ a =>
      exists ws, w = concat ws /\ Forall (lang fl a) ws
                 /\ min <= length ws
                 /\ forall mx, max = Some mx -> length ws <= mx
  | Capture _ a => lang fl a w
  | Lookahead _ | WordBoundary | Bol | Eol => w = []
  end.

(** Every quantifier has its lower bound below its upper bound, and what
    group [n] can capture satisfies [G n]. *)
Fixpoint groupsWithin (G : nat -> jsstring -> Prop) (fl : flags) (r : regex) : Prop :=
  match r with
  | Cat a b | Or a b => groupsWithin G fl a /\ groupsWithin G fl b
  | Repeat min max _ a =>
      (forall mx, max = Some mx -> min <= mx) /\ groupsWithin G fl a
  | Capture n a => (forall w, lang fl a w -> G n w) /\ groupsWithin G fl a
  | Lookahead a => groupsWithin G fl a
  | _ => True
  end.

(** The groups that have captured whenever the pattern has matched. *)
Fixpoint sureGroups (r : regex) : list nat :=
  match r with
  | Capture n a => n :: sureGroups a
  | Cat a b =>
      List.filter (fun n => negb (existsb (Nat.eqb n) (groupsOf b))) (sureGroups a)
      ++ sureGroups b
  | Lookahead a => sureGroups a
  | _ => []
  end.

(** The matcher state is a position in [whole]. *)
Definition stateOf (whole : jsstring) (x : mstate) : Prop :=
  rest x = drop (pos x) whole /\ pos x <= length whole.

(** Every recorded capture of group [n] is a stretch of [whole] that
    satisfies [G n]. *)
Definition capturesWithin (G : nat -> jsstring -> Prop) (whole : jsstring)
    (cs : list (nat * (nat * nat))) : Prop :=
  forall n s e, In (n, (s, e)) cs -> G n (substring whole s e).

(** What holds of the state [y] a matcher hands to its continuation after
    consuming [w] from [x]. *)
Definition reaches (G : nat -> jsstring -> Prop) (whole : jsstring)
    (keep : nat -> Prop) (x : mstate) (w : jsstring) (y : mstate) : Prop :=
  rest x = w ++ rest y
  /\ pos y = pos x + length w
  /\ capturesWithin G whole (caps y)
  /\ forall n, keep n -> In n (map fst (caps y)).

(** The groups that are set after [r] has matched from [x]. *)
Definition kept (r : regex) (x : mstate) (n : nat) : Prop :=
  In n (sureGroups r) \/ (In n (map fst (caps x)) /\ ~ In n (groupsOf r)).

(** A successful run of the matcher for [r] consumed a word of [lang r]
    and then ran its continuation. *)
Definition sound (G : nat -> jsstring -> Prop) (whole : jsstring)
    (fl : flags) (r : regex) : Prop :=
  forall (k : cont) (x z : mstate),
    stateOf whole x -> capturesWithin G whole (caps x) ->
    rmatch fl r k x = Some z ->
    exists w y, lang fl r w /\ reaches G whole (kept r x) x w y /\ k y = Some z.

(** A successful iteration of [a] from [x], between [min] and [max] times,
    followed by the continuation. *)
Definition iterated (G : nat -> jsstring -> Prop) (whole : jsstring)
    (fl : flags) (a : regex) (min : nat) (max : option nat)
    (k : cont) (x z : mstate) : Prop :=
  exists ws y,
    Forall (lang fl a) ws
    /\ min <= length ws
    /\ (forall mx, max = Some mx -> length ws <= mx)
    /\ reaches G whole (fun n => In n (map fst (caps x)) /\ ~ In n (groupsOf a))
                x (concat ws) y
    /\ k y = Some z.

(** The text of an amount: digits, optionally followed by a point and two
    digits. *)
Definition isAmountText (a : jsstring) : Prop :=
  exists ds frac,
    a = ds ++ frac
    /\ Forall (fun c => isDigit c = true) ds
    /\ (frac = [] \/ exists d1 d2, frac = [chr "."; d1; d2]
                                    /\ isDigit d1 = true /\ isDigit d2 = true).

(** The code units a word of [lang r] can contain. *)
Fixpoint unitsOf (fl : flags) (r : regex) (c : N) {struct r} : Prop :=
  match r with
  | Lit c0 => canonicalize fl c = canonicalize fl c0
  | Dot => isLineTerminator c = false
  | Cls neg items => xorb neg (existsb (itemMatches fl c) items) = true
  | Cat a b | Or a b => unitsOf fl a c \/ unitsOf fl b c
  | Repeat _ _ _ a | Capture _ a => unitsOf fl a c
  | _ => False
  end.

(** No ASCII lower-case letter occurs in the text. *)
Definition noLowerCase (s : jsstring) : Prop :=
  forall c, In c s -> ~ (97 <= c <= 122)%N.

(** A class item, and a pattern, that only accept white space and code
    units from "A" (U+0041) up: no digit, no ASCII punctuation. *)
Definition itemAbove (it : ClassItem) : bool :=
  match it with
  | CChar c => (65 <=? c)%N
  | CRange lo _ => (65 <=? lo)%N
  | CSpace => true
  | CDigit | CWord => false
  end.

Fixpoint aboveDigits (r : regex) : bool :=
  match r with
  | Lit c => (65 <=? c)%N
  | Dot => false
  | Cls neg items => negb neg && forallb itemAbove items
  | Cat a b | Or a b => aboveDigits a && aboveDigits b
  | Repeat _ _ _ a | Capture _ a => aboveDigits a
  | _ => true
  end.

(** White space or a code unit from "A" up. *)
Definition letterOrSpace (c : N) : Prop :=
  isWhiteSpace c = true \/ (65 <= c)%N.

(** The sign of a number: [true] for the numbers below zero and for
    minus zero. *)
Definition negative (n : JSNumber) : bool :=
  match n with
  | Finite neg _ _ => neg
  | Infinity neg => neg
  end.

(** The units of work of a batch: every attachment of every message, the
    messages in the order of the batch, the attachments of a message in
    the order [processEmail] gives them. *)
Definition worklist (emails : list ProcessedEmail)
    : list (ProcessedEmail * GmailAttachment) :=
  flat_map (fun email => map (pair email) (sortedAttachments (attachments email)))
           emails.

(** The units processed one after the other, each from the system and the
    world the previous one left, whatever each of them returned. *)
Definition runAll {World : Type} (sv : Services World)
    (work : list (ProcessedEmail * GmailAttachment)) (sys : System) (wd : World)
    : System * World :=
  fold_left (fun st u =>
               let '(_, sys1, wd1) := processAttachment sv (fst u) (snd u) (fst st) (snd st) in
               (sys1, wd1))
            work (sys, wd).

(** An outside world that records what was done to it: how many downloads
    and saves were attempted, every version of the file a save wrote
    (latest first) and the messages that were labelled (latest first). *)
Record Outside := {
  downloadCount : nat;
  saveCount : nat;
  savedVersions : list ExcelWriter.Worksheet;
  labelledIds : list jsstring
}.

Definition untouched : Outside :=
  {| downloadCount := 0; saveCount := 0; savedVersions := []; labelledIds := [] |}.

(** Services over that world in which the download number [badDownload]
    and the save number [badSave] (counted from 0, whatever the message)
    throw and everything else succeeds. *)
Definition faultyServices (badDownload badSave : option nat) : Services Outside :=
  {| messagesList := fun _ _ o => (Ok [], o);
     messagesGet := fun _ o => (Ok exampleMessage, o);
     attachmentsGet := fun _ _ o =>
       let o' := {| downloadCount := S (downloadCount o); saveCount := saveCount o;
                    savedVersions := savedVersions o; labelledIds := labelledIds o |} in
       if bool_decide (badDownload = Some (downloadCount o))
       then (Throw (Error (js "socket hang up")), o')
       else (Ok (Some (js "JVBERi0xLjQ")), o');
     labelProcessed := fun mid o =>
       (Ok tt, {| downloadCount := downloadCount o; saveCount := saveCount o;
                  savedVersions := savedVersions o;
                  labelledIds := mid :: labelledIds o |});
     dateOf := fun _ => LocalDate 24 5;
     now := fun _ => LocalDate 1 0;
     pdfParse := fun _ o => (Ok (js "CAZAN VISION EMPRESARIAL SA DE CV"), o);
     writeFile := fun ws o =>
       if bool_decide (badSave = Some (saveCount o))
       then (Throw (Error (js "EBUSY: resource busy or locked")),
             {| downloadCount := downloadCount o; saveCount := S (saveCount o);
                savedVersions := savedVersions o; labelledIds := labelledIds o |})
       else (Ok tt,
             {| downloadCount := downloadCount o; saveCount := S (saveCount o);
                savedVersions := ws :: savedVersions o;
                labelledIds := labelledIds o |}) |}.

(** A message with two PDF attachments. *)
Definition twoPdfEmail : ProcessedEmail :=
  {| GmailWatcher.messageId := js "m1";
     subject := js "Solicitud - Recurso Tabasco $1,500.00 - entrega";
     sender := js "Juan Perez <juan.perez@example.com>";
     receivedAt := LocalDate 24 5;
     attachments := [exampleAttachment "FACTURA.pdf" "application/pdf";
                     exampleAttachment "ANEXO.pdf" "application/pdf"] |}.







(** * Properties *)

(** ** Attachment selection *)

Section Selection.

Lemma insertSorted_first (x : GmailAttachment) (l : list GmailAttachment) :
  isCarta x = false -> insertSorted compareCarta x l = x :: l.
Proof.
  intros Hx. destruct l as [|y t]; [reflexivity|].
  cbn. unfold compareCarta. rewrite Hx. destruct (isCarta y); reflexivity.
Qed.

Lemma insertSorted_between (x : GmailAttachment) (others letters : list GmailAttachment) :
  isCarta x = true ->
  Forall (fun a => isCarta a = false) others ->
  Forall (fun a => isCarta a = true) letters ->
  insertSorted compareCarta x (others ++ letters) = others ++ x :: letters.
Proof.
  intros Hx Ho Hl. induction Ho as [|y others Hy Ho IH].
  - destruct Hl as [|z letters Hz Hl]; [reflexivity|].
    cbn. unfold compareCarta. rewrite Hx, Hz. reflexivity.
  - cbn. unfold compareCarta at 1. rewrite Hx, Hy. cbn. f_equal. exact IH.
Qed.

Lemma insertSorted_carta (x : GmailAttachment) (l : list GmailAttachment) :
  insertSorted compareCarta x (List.filter notCarta l ++ List.filter isCarta l)
  = List.filter notCarta (x :: l) ++ List.filter isCarta (x :: l).
Proof.
  unfold notCarta. cbn [List.filter].
  destruct (isCarta x) eqn:Hx; cbn [negb].
  - apply insertSorted_between; [exact Hx| |].
    + apply List.Forall_forall. intros a Ha. apply filter_In in Ha.
      destruct Ha as [_ Ha]. destruct (isCarta a); [discriminate|reflexivity].
    + apply List.Forall_forall. intros a Ha. apply filter_In in Ha. tauto.
  - apply insertSorted_first. exact Hx.
Qed.

Lemma sortedAttachments_partition (l : list GmailAttachment) :
  sortedAttachments l = List.filter notCarta l ++ List.filter isCarta l.
Proof.
  induction l as [|x l IH]; [reflexivity|].
  unfold sortedAttachments, arraySort in *. cbn [fold_right].
  rewrite IH. apply insertSorted_carta.
Qed.

Lemma sortedAttachments_In (l : list GmailAttachment) (a : GmailAttachment) :
  In a (sortedAttachments l) <-> In a l.
Proof.
  rewrite sortedAttachments_partition, in_app_iff, !filter_In.
  unfold notCarta. destruct (isCarta a); cbn; tauto.
Qed.

End Selection.

(** C4: the selector (the PDF filter of [getMessageDetails] followed by the
    sort of [processEmail]) keeps exactly the attachments whose mimeType is
    "application/pdf", and returns those without "carta" in the lower-cased
    filename, in their original order, followed by those with it, in their
    original order; CARTA.pdf, FACTURA.pdf, note.txt gives FACTURA.pdf,
    CARTA.pdf. *)
Theorem C4_attachment_selector (atts : list GmailAttachment) :
  let selected := sortedAttachments (pdfAttachments atts) in
  selected = List.filter notCarta (pdfAttachments atts)
             ++ List.filter isCarta (pdfAttachments atts)
  /\ (forall a, In a selected <-> In a atts /\ mimeType a = js "application/pdf")
  /\ pdfAttachments atts
     = List.filter (fun a => bool_decide (mimeType a = js "application/pdf")) atts
  /\ sortedAttachments
       (pdfAttachments [exampleAttachment "CARTA.pdf" "application/pdf";
                        exampleAttachment "FACTURA.pdf" "application/pdf";
                        exampleAttachment "note.txt" "text/plain"])
     = [exampleAttachment "FACTURA.pdf" "application/pdf";
        exampleAttachment "CARTA.pdf" "application/pdf"].
Proof.
  cbn zeta. split; [apply sortedAttachments_partition|].
  split; [|split; [reflexivity | vm_compute; reflexivity]].
  intros a. rewrite sortedAttachments_In. unfold pdfAttachments.
  rewrite filter_In. unfold jsstring_eqb, application_pdf.
  rewrite bool_decide_eq_true. reflexivity.
Qed.

(** ** Retry wrapper *)

Section Retry.

Context {World T : Type}.
Variable sleep : Z -> World -> World.
Variable d : Z.
Variable operation : World -> Result T * World.

Lemma retryLoop_success (N : Z) (k : nat) :
  forall (fuel : nat) (i : Z) (wd w w' : World) (v : T),
    fuel = Z.to_nat (N - i) ->
    (i + Z.of_nat k < N)%Z ->
    afterFailures sleep d operation k wd = Some w ->
    operation w = (Ok v, w') ->
    retryLoop sleep d operation N fuel i wd = (Ok v, w').
Proof.
  induction k as [|k IH]; intros fuel i wd w w' v Hfuel Hlt Haf Hop.
  - cbn in Haf. injection Haf as ->.
    destruct fuel as [|f]; [lia|]. cbn.
    replace (i <? N)%Z with true by (symmetry; apply Z.ltb_lt; lia).
    rewrite Hop. reflexivity.
  - cbn in Haf. destruct (operation wd) as [[v0|e] wd1] eqn:Hwd; [discriminate|].
    destruct fuel as [|f]; [lia|]. cbn.
    replace (i <? N)%Z with true by (symmetry; apply Z.ltb_lt; lia).
    rewrite Hwd.
    replace (i =? N - 1)%Z with false by (symmetry; apply Z.eqb_neq; lia).
    apply IH with (w := w); [lia|lia|exact Haf|exact Hop].
Qed.

Lemma retryLoop_exhausted (N : Z) (k : nat) :
  forall (fuel : nat) (i : Z) (wd w w' : World) (e : Exn),
    fuel = Z.to_nat (N - i) ->
    (i + Z.of_nat k = N - 1)%Z ->
    afterFailures sleep d operation k wd = Some w ->
    operation w = (Throw e, w') ->
    retryLoop sleep d operation N fuel i wd = (Throw e, w').
Proof.
  induction k as [|k IH]; intros fuel i wd w w' e Hfuel Hlt Haf Hop.
  - cbn in Haf. injection Haf as ->.
    destruct fuel as [|f]; [lia|]. cbn.
    replace (i <? N)%Z with true by (symmetry; apply Z.ltb_lt; lia).
    rewrite Hop.
    replace (i =? N - 1)%Z with true by (symmetry; apply Z.eqb_eq; lia).
    reflexivity.
  - cbn in Haf. destruct (operation wd) as [[v0|e0] wd1] eqn:Hwd; [discriminate|].
    destruct fuel as [|f]; [lia|]. cbn.
    replace (i <? N)%Z with true by (symmetry; apply Z.ltb_lt; lia).
    rewrite Hwd.
    replace (i =? N - 1)%Z with false by (symmetry; apply Z.eqb_neq; lia).
    apply IH with (w := w); [lia|lia|exact Haf|exact Hop].
Qed.

End Retry.

(** C7: with [maxRetries = N >= 1] and the configured delay [d], if the
    first [k < N] invocations fail and the next one succeeds, the wrapper
    returns that result in the world reached by exactly [k + 1] invocations
    and [k] waits of [d]; if the first [N] invocations fail it throws the
    error of the [N]-th, after [N] invocations and [N - 1] waits.  With
    [N = 3] an operation failing twice then succeeding gives its result
    with exactly two waits, and one failing three times gives the third
    failure. *)
Theorem C7_retry_semantics {World T : Type} (sleep : Z -> World -> World) (d : Z)
    (operation : World -> Result T * World) (N : Z) (wd : World)
    (HN : (1 <= N)%Z) :
  (forall (k : nat) (w w' : World) (v : T),
      (Z.of_nat k < N)%Z ->
      afterFailures sleep d operation k wd = Some w ->
      operation w = (Ok v, w') ->
      retryOperation sleep d operation N wd = (Ok v, w'))
  /\ (forall (w w' : World) (e : Exn),
      afterFailures sleep d operation (Z.to_nat (N - 1)) wd = Some w ->
      operation w = (Throw e, w') ->
      retryOperation sleep d operation N wd = (Throw e, w'))
  /\ retryOperation logSleep 100 (failsThenSucceeds 2) 3 []
     = (Ok 2, [Invoked; Waited 100; Invoked; Waited 100; Invoked])
  /\ retryOperation logSleep 100 (failsThenSucceeds 3) 3 []
     = (Throw (Error (js "failure 3")),
        [Invoked; Waited 100; Invoked; Waited 100; Invoked]).
Proof.
  repeat split.
  - intros k w w' v Hk Haf Hop. unfold retryOperation.
    apply retryLoop_success with (k := k) (w := w); [f_equal; lia|lia|exact Haf|exact Hop].
  - intros w w' e Haf Hop. unfold retryOperation.
    apply retryLoop_exhausted with (k := Z.to_nat (N - 1)) (w := w);
      [f_equal; lia|lia|exact Haf|exact Hop].
Qed.

(** The property at [N = 3] on the recording world: two failures and a
    success, and three failures. *)
Lemma C7_retry_semantics_witness :
  (1 <= 3)%Z
  /\ retryOperation logSleep 100 (failsThenSucceeds 2) 3 []
     = (Ok 2, [Invoked; Waited 100; Invoked; Waited 100; Invoked])
  /\ retryOperation logSleep 100 (failsThenSucceeds 5) 3 []
     = (Throw (Error (js "failure 3")),
        [Invoked; Waited 100; Invoked; Waited 100; Invoked]).
Proof.
  assert (H3 : (1 <= 3)%Z) by lia.
  destruct (C7_retry_semantics logSleep 100 (failsThenSucceeds 2) 3 [] H3) as [Hs _].
  destruct (C7_retry_semantics logSleep 100 (failsThenSucceeds 5) 3 [] H3) as [_ [He _]].
  split; [exact H3|]. split.
  - apply (Hs 2 [Invoked; Waited 100; Invoked; Waited 100]); [lia|reflexivity|reflexivity].
  - apply (He [Invoked; Waited 100; Invoked; Waited 100]); reflexivity.
Defined.

(** C10: with [maxRetries <= 0] the loop body never runs: whatever the
    operation, the world is left as it was (the operation is not invoked,
    nothing is waited for) and the error "Max retries exceeded" is thrown. *)
Theorem C10_nonpositive_retries {World T : Type} (sleep : Z -> World -> World) (d : Z)
    (operation : World -> Result T * World) (N : Z) (wd : World)
    (HN : (N <= 0)%Z) :
  retryOperation sleep d operation N wd
  = (Throw (Error (js "Max retries exceeded")), wd).
Proof.
  unfold retryOperation.
  replace (Z.to_nat N) with 0 by lia. reflexivity.
Qed.

Lemma C10_nonpositive_retries_witness :
  (0 <= 0)%Z
  /\ retryOperation logSleep 100 (failsThenSucceeds 0) 0 []
     = (Throw (Error (js "Max retries exceeded")), [])
  /\ retryOperation logSleep 100 (failsThenSucceeds 0) (-2) []
     = (Throw (Error (js "Max retries exceeded")), []).
Proof.
  split; [lia|]. split.
  - apply (C10_nonpositive_retries logSleep 100 (failsThenSucceeds 0) 0 []). lia.
  - apply (C10_nonpositive_retries logSleep 100 (failsThenSucceeds 0) (-2) []). lia.
Defined.

(** ** Text heuristics *)

Lemma forLines_Some (body : jsstring -> option jsstring) (lines : list jsstring)
    (r : jsstring) :
  PDFParser.forLines body lines = Some r -> firstHit (lines, body) r.
Proof.
  induction lines as [|line more IH]; cbn; [discriminate|].
  destruct (body line) as [r0|] eqn:Hb.
  - intros [= ->]. exists 0, line. cbn. repeat split; [exact Hb|].
    intros j l Hj. lia.
  - intros H. destruct (IH H) as (i & l & Hi & Hl & Hbefore).
    exists (S i), l. cbn in *. repeat split; [exact Hi|exact Hl|].
    intros j l' Hj Hl'. destruct j as [|j]; cbn in Hl'.
    + injection Hl' as <-. exact Hb.
    + apply (Hbefore j); [lia|exact Hl'].
Qed.



Lemma take_5_take_15 {A : Type} (l : list A) : take 5 (take 15 l) = take 5 l.
Proof. rewrite take_take. reflexivity. Qed.


(** C3 as stated fails: the city extracted from the example subject is not
    "Tabasco". *)
Lemma C3_city_is_not_Tabasco :
  ~ (PDFParser.extractAmountFromSubject exampleSubject = js "1500.00"
     /\ PDFParser.extractCityFromSubject exampleSubject = js "Tabasco").
Proof.
  intros [_ H]. vm_compute in H. discriminate H.
Qed.

(** C3 (amended): on the example subject the amount is "1500.00", from the
    first amount pattern (currency symbol), and the city is "Solicitud":
    the labelled-field pattern does not match and the second city pattern
    (capitalised words before a hyphen, a currency sign or the end) matches
    "Solicitud" first, so the list of known cities, which alone would give
    "Tabasco", is not reached. *)
Theorem C3_subject_example :
  PDFParser.extractAmountFromSubject exampleSubject = js "1500.00"
  /\ PDFParser.extractCityFromSubject exampleSubject = js "Solicitud"
  /\ (PDFParser.group1 <$> PDFParser.firstPattern (take 1 PDFParser.amountPatterns) exampleSubject)
     = Some (js "1,500.00")
  /\ PDFParser.firstPattern (take 1 PDFParser.cityPatterns) exampleSubject = None
  /\ (PDFParser.group1 <$> PDFParser.firstPattern (take 2 PDFParser.cityPatterns) exampleSubject)
     = Some (js "Solicitud")
  /\ (PDFParser.group1 <$> PDFParser.firstPattern (drop 2 PDFParser.cityPatterns) exampleSubject)
     = Some (js "Tabasco").
Proof.
  repeat split; vm_compute; reflexivity.
Qed.

(** C2 (what the code does): [extractCompanyName] reports a miss as
    "EMPRESA NO IDENTIFICADA", the assembler tests for "No especificada",
    so the miss is kept as the issuer and the sender and subject are never
    consulted. *)
Theorem C2_unidentified_issuer_kept (email : ProcessedEmail) (text : jsstring) :
  PDFParser.extractCompanyName text = js "EMPRESA NO IDENTIFICADA" ->
  ExcelWriter.operador (solicitudData email (PDFParser.extractDataFromText text))
  = js "EMPRESA NO IDENTIFICADA".
Proof.
  intros H. unfold solicitudData, PDFParser.extractDataFromText. cbn.
  rewrite H. vm_compute. reflexivity.
Qed.

Lemma C2_unidentified_issuer_kept_witness :
  PDFParser.extractCompanyName exampleText = js "EMPRESA NO IDENTIFICADA"
  /\ ExcelWriter.operador
       (solicitudData exampleEmail (PDFParser.extractDataFromText exampleText))
     = js "EMPRESA NO IDENTIFICADA"
  /\ extractClientName (sender exampleEmail) (subject exampleEmail) = js "Juan Perez".
Proof.
  split; [vm_compute; reflexivity|]. split.
  - apply (C2_unidentified_issuer_kept exampleEmail exampleText).
    vm_compute. reflexivity.
  - vm_compute. reflexivity.
Defined.

(** ** Ledger writer *)

Section Ledger.

Import ExcelWriter.

Lemma scanRows_None (rs : list Row) (mid : jsstring) :
  forall i, scanRows i rs mid = None <-> List.filter (hasId mid) rs = [].
Proof.
  induction rs as [|row more IH]; intros i; cbn; [tauto|].
  fold (hasId mid row). destruct (hasId mid row).
  - split; discriminate.
  - apply IH.
Qed.

Lemma findExistingRow_None (w : Writer) (mid : jsstring) :
  findExistingRow (worksheet w) mid = None <-> rowsWithId w mid = [].
Proof.
  unfold findExistingRow, rowsWithId, dataRows.
  destruct (worksheet w) as [ws|]; [apply scanRows_None|tauto].
Qed.

Lemma rows_updateLastRow (f : Row -> Row) (ws : Worksheet) (l : list Row) (r : Row) :
  rows ws = l ++ [r] -> rows (updateLastRow f ws) = l ++ [f r].
Proof.
  intros H. unfold updateLastRow. cbn. rewrite H, rev_unit, rev_involutive.
  reflexivity.
Qed.

Lemma rows_createFilterableTable (ws : Worksheet) :
  rows (createFilterableTable ws) = rows ws.
Proof.
  unfold createFilterableTable. destruct (rowCount ws <=? 1); reflexivity.
Qed.

(** The sheet an append leaves when it adds a row. *)
Lemma appended_rows (solicitud : SolicitudData) (ws : Worksheet) :
  rows (updateLastRow (eachCell thinBorder)
          (createFilterableTable
             (updateLastRow (formatLink (link solicitud))
                (updateLastRow (formatMonto (monto solicitud))
                   (addRow [fecha solicitud; operador solicitud; sucursal solicitud;
                            monto solicitud; link solicitud; messageId solicitud] ws)))))
  = rows ws ++ [newRow solicitud].
Proof.
  unfold newRow.
  apply rows_updateLastRow. rewrite rows_createFilterableTable.
  apply rows_updateLastRow. apply rows_updateLastRow. reflexivity.
Qed.

Lemma formatMonto_cases (m : jsstring) (row : Row) :
  formatMonto m row
  = match parseAmount m with
    | Some amount =>
        updateCell 4 (fun c => {| value := VNumber amount;
                                  numFmt := Some accountingFormat;
                                  font := font c; border := border c |}) row
    | None => row
    end.
Proof.
  unfold formatMonto, parseAmount. destruct m as [|c m]; [reflexivity|].
  destruct (jsstring_eqb (c :: m) No_especificada); reflexivity.
Qed.

Lemma newRow_id (solicitud : SolicitudData) :
  value (getCell (newRow solicitud) messageIdColumn) = VString (messageId solicitud).
Proof.
  unfold newRow. rewrite formatMonto_cases.
  destruct (parseAmount (monto solicitud)); destruct (link solicitud); reflexivity.
Qed.


Lemma hasId_newRow (solicitud : SolicitudData) (mid : jsstring) :
  hasId mid (newRow solicitud) = jsstring_eqb (messageId solicitud) mid.
Proof. unfold hasId. rewrite newRow_id. reflexivity. Qed.

Context {World : Type}.
Variable writeFile : Worksheet -> World -> Result unit * World.

Lemma appendSolicitud_existing (solicitud : SolicitudData) (w : Writer) (wd : World) :
  rowsWithId w (messageId solicitud) <> [] ->
  appendSolicitud writeFile solicitud w wd = (Ok tt, w, wd).
Proof.
  intros H. unfold appendSolicitud.
  destruct (findExistingRow (worksheet w) (messageId solicitud)) as [x|] eqn:Hf.
  - destruct (worksheet w); [reflexivity|discriminate Hf].
  - apply findExistingRow_None in Hf. contradiction.
Qed.

Lemma appendSolicitud_new (solicitud : SolicitudData) (w : Writer) (wd : World)
    (ws : Worksheet) :
  worksheet w = Some ws ->
  rowsWithId w (messageId solicitud) = [] ->
  exists ws',
    rows ws' = rows ws ++ [newRow solicitud]
    /\ appendSolicitud writeFile solicitud w wd
       = (fst (writeFile ws' wd), {| worksheet := Some ws' |}, snd (writeFile ws' wd)).
Proof.
  intros Hws Hnone. apply findExistingRow_None in Hnone.
  unfold appendSolicitud. rewrite Hnone, Hws. unfold saveWorkbook.
  eexists. split; [apply appended_rows|].
  destruct (writeFile _ wd); reflexivity.
Qed.

(** What an append does to an initialized ledger. *)
Lemma appendSolicitud_cases (solicitud : SolicitudData) (w : Writer) (wd : World) :
  initialized w ->
  let w' := snd (fst (appendSolicitud writeFile solicitud w wd)) in
  initialized w'
  /\ ((rowsWithId w (messageId solicitud) <> []
       /\ appendSolicitud writeFile solicitud w wd = (Ok tt, w, wd))
      \/ (rowsWithId w (messageId solicitud) = []
          /\ dataRows w' = dataRows w ++ [newRow solicitud])).
Proof.
  intros (ws & Hws & Hn). cbn zeta.
  destruct (rowsWithId w (messageId solicitud)) as [|r rs] eqn:Hr.
  - destruct (appendSolicitud_new solicitud w wd ws Hws Hr) as (ws' & Hrows & ->).
    cbn. split.
    + exists ws'. split; [reflexivity|]. unfold rowCount in *.
      rewrite Hrows, length_app. lia.
    + right. split; [reflexivity|]. unfold dataRows. cbn. rewrite Hws, Hrows.
      unfold rowCount in Hn. destruct (rows ws); [cbn in Hn; lia|reflexivity].
  - assert (Hne : rowsWithId w (messageId solicitud) <> []) by (rewrite Hr; discriminate).
    rewrite (appendSolicitud_existing solicitud w wd Hne). cbn.
    split; [exists ws; auto|]. left. split; [discriminate|reflexivity].
Qed.

Lemma rowsWithId_snoc (w w' : Writer) (solicitud : SolicitudData) (mid : jsstring) :
  dataRows w' = dataRows w ++ [newRow solicitud] ->
  rowsWithId w' mid
  = rowsWithId w mid
    ++ (if jsstring_eqb (messageId solicitud) mid then [newRow solicitud] else []).
Proof.
  intros H. unfold rowsWithId. rewrite H, List.filter_app. cbn.
  rewrite hasId_newRow. reflexivity.
Qed.

Lemma appendSolicitud_invariant (solicitud : SolicitudData) (w : Writer) (wd : World) :
  initialized w -> atMostOnePerId w ->
  let w' := snd (fst (appendSolicitud writeFile solicitud w wd)) in
  initialized w' /\ atMostOnePerId w'
  /\ length (rowsWithId w' (messageId solicitud)) = 1.
Proof.
  intros Hi Hu. cbn zeta.
  destruct (appendSolicitud_cases solicitud w wd Hi) as [Hi' [[Hne Heq]|[Hnone Hrows]]].
  - split; [exact Hi'|]. rewrite Heq. cbn. split; [exact Hu|].
    specialize (Hu (messageId solicitud)).
    destruct (rowsWithId w (messageId solicitud)) as [|r [|r' rs]];
      [contradiction|reflexivity|cbn in Hu; lia].
  - split; [exact Hi'|]. split.
    + intros mid. rewrite (rowsWithId_snoc _ _ _ mid Hrows), length_app.
      unfold jsstring_eqb. destruct (bool_decide_reflect (messageId solicitud = mid)) as [<-|Hne].
      * rewrite Hnone. cbn. lia.
      * specialize (Hu mid). cbn. lia.
    + rewrite (rowsWithId_snoc _ _ _ _ Hrows), Hnone. unfold jsstring_eqb.
      rewrite bool_decide_eq_true_2 by reflexivity. reflexivity.
Qed.

Lemma appendAll_invariant (records : list SolicitudData) :
  forall (w : Writer) (wd : World),
    initialized w -> atMostOnePerId w ->
    initialized (fst (appendAll writeFile records w wd))
    /\ atMostOnePerId (fst (appendAll writeFile records w wd)).
Proof.
  unfold appendAll.
  induction records as [|solicitud more IH]; intros w wd Hi Hu; [cbn; auto|].
  cbn [fold_left fst snd].
  destruct (appendSolicitud_invariant solicitud w wd Hi Hu) as (Hi' & Hu' & _).
  destruct (appendSolicitud writeFile solicitud w wd) as [[r w1] wd1].
  apply IH; assumption.
Qed.

End Ledger.

(** C1: when a data row already holds [messageId] in the hidden identity
    column, [appendSolicitud] returns without writing: the writer (every
    row of the sheet) and the world (the file) are what they were.  Hence,
    on a ledger set up with its header row in which every identifier occurs
    at most once, any sequence of appends keeps at most one row per
    identifier, and after appending a record there is exactly one row for
    it, which appending it again leaves alone. *)
Theorem C1_idempotent_append {World : Type}
    (writeFile : ExcelWriter.Worksheet -> World -> Result unit * World)
    (w : ExcelWriter.Writer) (wd : World) (solicitud : ExcelWriter.SolicitudData) :
  (rowsWithId w (ExcelWriter.messageId solicitud) <> [] ->
   ExcelWriter.appendSolicitud writeFile solicitud w wd = (Ok tt, w, wd))
  /\ (initialized w -> atMostOnePerId w ->
      (forall records, atMostOnePerId (fst (appendAll writeFile records w wd)))
      /\ (forall r1 w1 wd1,
            ExcelWriter.appendSolicitud writeFile solicitud w wd = (r1, w1, wd1) ->
            length (rowsWithId w1 (ExcelWriter.messageId solicitud)) = 1
            /\ ExcelWriter.appendSolicitud writeFile solicitud w1 wd1 = (Ok tt, w1, wd1))).
Proof.
  split; [apply appendSolicitud_existing|].
  intros Hi Hu. split.
  - intros records. apply appendAll_invariant; assumption.
  - intros r1 w1 wd1 Heq.
    destruct (appendSolicitud_invariant writeFile solicitud w wd Hi Hu) as (_ & _ & Hone).
    rewrite Heq in Hone. cbn in Hone. split; [exact Hone|].
    apply appendSolicitud_existing. intros Hnil. rewrite Hnil in Hone. discriminate.
Qed.

(** On a fresh ledger: one append adds the row, the second is a no-op, and
    three appends of two records leave one row each. *)
Lemma C1_idempotent_append_witness :
  let solicitud := exampleRecord "$2,300.50" in
  let first := ExcelWriter.appendSolicitud diskWrite solicitud freshLedger [] in
  initialized freshLedger /\ atMostOnePerId freshLedger
  /\ length (rowsWithId (snd (fst first)) (ExcelWriter.messageId solicitud)) = 1
  /\ ExcelWriter.appendSolicitud diskWrite solicitud (snd (fst first)) (snd first)
     = (Ok tt, snd (fst first), snd first)
  /\ atMostOnePerId
       (fst (appendAll diskWrite [solicitud; solicitud; exampleRecord "abc"] freshLedger [])).
Proof.
  cbn zeta.
  assert (Hi : initialized freshLedger).
  { eexists. split; [reflexivity|]. vm_compute. lia. }
  assert (Hu : atMostOnePerId freshLedger).
  { intros mid. cbn. lia. }
  destruct (C1_idempotent_append diskWrite freshLedger [] (exampleRecord "$2,300.50"))
    as [_ Hrest].
  destruct (Hrest Hi Hu) as [Hall Htwice].
  split; [exact Hi|]. split; [exact Hu|].
  destruct (ExcelWriter.appendSolicitud diskWrite (exampleRecord "$2,300.50") freshLedger [])
    as [[r1 w1] wd1] eqn:Heq.
  destruct (Htwice r1 w1 wd1 eq_refl) as [Hone Hnoop].
  split; [exact Hone|]. split; [exact Hnoop|]. apply Hall.
Defined.



(** ** Batch processing *)

Section Batch.

Context {World : Type}.
Variable sv : Services World.

Lemma append_keeps_rows (solicitud : ExcelWriter.SolicitudData)
    (w : ExcelWriter.Writer) (wd : World) (mid : jsstring) :
  initialized w ->
  rowsWithId w mid <> [] ->
  rowsWithId (snd (fst (ExcelWriter.appendSolicitud (writeFile sv) solicitud w wd))) mid <> [].
Proof.
  intros Hi Hm.
  destruct (appendSolicitud_cases (writeFile sv) solicitud w wd Hi)
    as [_ [[_ Heq]|[_ Hrows]]].
  - rewrite Heq. exact Hm.
  - rewrite (rowsWithId_snoc _ _ _ mid Hrows).
    destruct (rowsWithId w mid); [contradiction|discriminate].
Qed.

Lemma append_has_row (solicitud : ExcelWriter.SolicitudData)
    (w : ExcelWriter.Writer) (wd : World) :
  initialized w ->
  rowsWithId (snd (fst (ExcelWriter.appendSolicitud (writeFile sv) solicitud w wd)))
             (ExcelWriter.messageId solicitud) <> [].
Proof.
  intros Hi.
  destruct (appendSolicitud_cases (writeFile sv) solicitud w wd Hi)
    as [_ [[Hne Heq]|[Hnone Hrows]]].
  - rewrite Heq. exact Hne.
  - rewrite (rowsWithId_snoc _ _ _ _ Hrows), Hnone. unfold jsstring_eqb.
    rewrite bool_decide_eq_true_2 by reflexivity. discriminate.
Qed.

(** What the processing of one attachment can change. *)
Lemma processAttachment_effect (email : ProcessedEmail) (att : GmailAttachment)
    (sys : System) (wd : World) :
  initialized (excelWriter sys) ->
  let sys' := snd (fst (processAttachment sv email att sys wd)) in
  gmailWatcher sys' = gmailWatcher sys
  /\ initialized (excelWriter sys')
  /\ forall mid, rowsWithId (excelWriter sys) mid <> [] ->
                 rowsWithId (excelWriter sys') mid <> [].
Proof.
  intros Hi. cbn zeta. unfold processAttachment.
  destruct (downloadAttachment _ _ _ _ wd) as [[buf|e] wd1]; [|cbn; auto].
  destruct (PDFParser.parsePDF _ buf wd1) as [[parsed|e] wd2]; [|cbn; auto].
  pose proof (appendSolicitud_cases (writeFile sv) (solicitudData email parsed)
                (excelWriter sys) wd2 Hi) as [Hi' _].
  pose proof (fun mid => append_keeps_rows (solicitudData email parsed)
                (excelWriter sys) wd2 mid Hi) as Hkeep.
  destruct (ExcelWriter.appendSolicitud _ _ (excelWriter sys) wd2) as [[r w1] wd3].
  cbn in Hi', Hkeep.
  destruct r as [[]|e]; [|cbn; auto].
  destruct (markAsProcessed _ _ _ wd3) as [r2 wd4]. cbn. auto.
Qed.

Lemma forAttachments_effect (email : ProcessedEmail) (atts : list GmailAttachment) :
  forall (sys : System) (wd : World),
    initialized (excelWriter sys) ->
    let sys' := fst (forAttachments sv email atts sys wd) in
    gmailWatcher sys' = gmailWatcher sys
    /\ initialized (excelWriter sys')
    /\ forall mid, rowsWithId (excelWriter sys) mid <> [] ->
                   rowsWithId (excelWriter sys') mid <> [].
Proof.
  induction atts as [|att more IH]; intros sys wd Hi; cbn zeta; [cbn; auto|].
  cbn [forAttachments].
  destruct (processAttachment_effect email att sys wd Hi) as (Hw & Hi1 & Hk).
  destruct (processAttachment sv email att sys wd) as [[r sys1] wd1]. cbn in Hw, Hi1, Hk.
  destruct (IH sys1 wd1 Hi1) as (Hw2 & Hi2 & Hk2).
  split; [congruence|]. split; [exact Hi2|]. auto.
Qed.

Lemma processEmail_effect (email : ProcessedEmail) (sys : System) (wd : World) :
  initialized (excelWriter sys) ->
  let sys' := snd (fst (processEmail sv email sys wd)) in
  fst (fst (processEmail sv email sys wd)) = Ok tt
  /\ gmailWatcher sys' = gmailWatcher sys
  /\ initialized (excelWriter sys')
  /\ forall mid, rowsWithId (excelWriter sys) mid <> [] ->
                 rowsWithId (excelWriter sys') mid <> [].
Proof.
  intros Hi. cbn zeta. unfold processEmail.
  pose proof (forAttachments_effect email (sortedAttachments (attachments email)) sys wd Hi) as H.
  destruct (forAttachments sv email _ sys wd) as [sys1 wd1]. cbn in *. tauto.
Qed.

Lemma forEmails_effect (emails : list ProcessedEmail) :
  forall (sys : System) (wd : World),
    initialized (excelWriter sys) ->
    let sys' := fst (forEmails sv emails sys wd) in
    gmailWatcher sys' = gmailWatcher sys
    /\ initialized (excelWriter sys')
    /\ forall mid, rowsWithId (excelWriter sys) mid <> [] ->
                   rowsWithId (excelWriter sys') mid <> [].
Proof.
  induction emails as [|email more IH]; intros sys wd Hi; cbn zeta; [cbn; auto|].
  cbn [forEmails].
  destruct (processEmail_effect email sys wd Hi) as (_ & Hw & Hi1 & Hk).
  destruct (processEmail sv email sys wd) as [[r sys1] wd1]. cbn in Hw, Hi1, Hk.
  destruct (IH sys1 wd1 Hi1) as (Hw2 & Hi2 & Hk2).
  split; [congruence|]. split; [exact Hi2|]. auto.
Qed.

End Batch.

(** What one turn of the attachment loop does, case by case. *)
Lemma processAttachment_cases {World : Type} (sv : Services World)
    (email : ProcessedEmail) (att : GmailAttachment) (sys : System) (wd : World) :
  initialized (excelWriter sys) ->
  match downloadAttachment (attachmentsGet sv) (gmailWatcher sys)
          (GmailWatcher.messageId email) (attachmentId att) wd with
  | (Throw e, wd1) => processAttachment sv email att sys wd = (Throw e, sys, wd1)
  | (Ok buf, wd1) =>
      match PDFParser.parsePDF (pdfParse sv) buf wd1 with
      | (Throw e, wd2) => processAttachment sv email att sys wd = (Throw e, sys, wd2)
      | (Ok parsed, wd2) =>
          gmail (gmailWatcher sys) = true
          /\ ((rowsWithId (excelWriter sys) (GmailWatcher.messageId email) <> []
               /\ processAttachment sv email att sys wd
                  = (Ok tt, sys,
                     snd (labelProcessed sv (GmailWatcher.messageId email) wd2)))
              \/ (rowsWithId (excelWriter sys) (GmailWatcher.messageId email) = []
                  /\ exists sheet,
                       ExcelWriter.rows sheet
                       = ExcelWriter.rows (sheetOf (excelWriter sys))
                         ++ [newRow (solicitudData email parsed)]
                       /\ processAttachment sv email att sys wd
                          = match writeFile sv sheet wd2 with
                            | (Ok _, wd3) =>
                                (Ok tt,
                                 {| gmailWatcher := gmailWatcher sys;
                                    excelWriter :=
                                      {| ExcelWriter.worksheet := Some sheet |} |},
                                 snd (labelProcessed sv
                                        (GmailWatcher.messageId email) wd3))
                            | (Throw e, wd3) =>
                                (Throw e,
                                 {| gmailWatcher := gmailWatcher sys;
                                    excelWriter :=
                                      {| ExcelWriter.worksheet := Some sheet |} |},
                                 wd3)
                            end))
      end
  end.
Proof.
  intros (ws & Hws & Hn). unfold processAttachment.
  destruct (downloadAttachment _ _ _ _ wd) as [[buf|e] wd1] eqn:Hd; [|reflexivity].
  destruct (PDFParser.parsePDF _ buf wd1) as [[parsed|e] wd2] eqn:Hp; [|reflexivity].
  assert (Hg : gmail (gmailWatcher sys) = true).
  { unfold downloadAttachment in Hd. destruct (gmail (gmailWatcher sys));
      [reflexivity|discriminate]. }
  split; [exact Hg|].
  destruct (rowsWithId (excelWriter sys) (GmailWatcher.messageId email)) as [|r rs] eqn:Hr.
  - right. split; [reflexivity|].
    destruct (appendSolicitud_new (writeFile sv) (solicitudData email parsed)
                (excelWriter sys) wd2 ws Hws Hr) as (sheet & Hrows & Heq).
    exists sheet. split; [unfold sheetOf; rewrite Hws; exact Hrows|].
    rewrite Heq. destruct (writeFile sv sheet wd2) as [[[]|e] wd3]; cbn [fst snd].
    + unfold markAsProcessed. rewrite Hg. reflexivity.
    + reflexivity.
  - left. split; [discriminate|].
    rewrite (appendSolicitud_existing (writeFile sv) (solicitudData email parsed)
               (excelWriter sys) wd2)
      by (change (ExcelWriter.messageId (solicitudData email parsed))
            with (GmailWatcher.messageId email); rewrite Hr; discriminate).
    unfold markAsProcessed. rewrite Hg. cbn [negb]. destruct sys. reflexivity.
Qed.

(** ** The seen set *)

Section Seen.

Context {World : Type}.
Variable messagesList : jsstring -> nat -> World -> Result (list (option jsstring)) * World.
Variable messagesGet : jsstring -> World -> Result Message * World.
Variable dateOf : jsstring -> JSDate.
Variable now : World -> JSDate.

Lemma getMessageDetails_id (w : Watcher) (id : jsstring) (wd wd1 : World)
    (e : ProcessedEmail) :
  getMessageDetails messagesGet dateOf now w id wd = (Ok (Some e), wd1) ->
  GmailWatcher.messageId e = id.
Proof.
  unfold getMessageDetails.
  destruct (negb (gmail w)); [discriminate|].
  destruct (messagesGet id wd) as [[m|e0] wd']; [|discriminate].
  destruct (length _ =? 0); [discriminate|].
  intros [= <- _]. reflexivity.
Qed.

Lemma collectMessages_spec (messages : list (option jsstring)) :
  forall (w : Watcher) (wd : World) (acc : list ProcessedEmail),
    let out := collectMessages messagesGet dateOf now messages w wd acc in
    let w' := snd (fst out) in
    gmail w' = gmail w
    /\ processedMessages w ⊆ processedMessages w'
    /\ exists new,
         fst (fst out) = acc ++ new
         /\ NoDup (map GmailWatcher.messageId new)
         /\ forall e, In e new ->
              (GmailWatcher.messageId e ∉ processedMessages w)
              /\ (GmailWatcher.messageId e ∈ processedMessages w').
Proof.
  induction messages as [|m more IH]; intros w wd acc; cbn zeta.
  - cbn. split; [reflexivity|]. split; [reflexivity|].
    exists []. rewrite app_nil_r. split; [reflexivity|]. split; [constructor|].
    intros e [].
  - cbn [collectMessages].
    destruct m as [[|c i]|]; try apply IH.
    destruct (bool_decide_reflect (c :: i ∈ processedMessages w)) as [Hin|Hnin];
      [apply IH|].
    destruct (getMessageDetails messagesGet dateOf now w (c :: i) wd)
      as [[[pe|]|e0] wd1] eqn:Hd; try apply IH.
    apply getMessageDetails_id in Hd.
    specialize (IH {| gmail := gmail w;
                      processedMessages := {[c :: i]} ∪ processedMessages w |}
                   wd1 (acc ++ [pe])).
    cbn zeta in IH. cbn [gmail processedMessages] in IH.
    destruct IH as (Hg & Hsub & new & Hout & Hnd & Hnew).
    split; [exact Hg|].
    split; [intros x Hx; apply Hsub, elem_of_union_r, Hx|].
    exists (pe :: new). split; [rewrite Hout, <- app_assoc; reflexivity|].
    split.
    + cbn. constructor; [|exact Hnd].
      rewrite Hd. intros Hin. apply list_elem_of_In, in_map_iff in Hin.
      destruct Hin as (e & He & Hin). destruct (Hnew e Hin) as [Hn _].
      rewrite He in Hn. apply Hn, elem_of_union_l, elem_of_singleton. reflexivity.
    + intros e [<-|Hin].
      * rewrite Hd. split; [exact Hnin|].
        apply Hsub, elem_of_union_l, elem_of_singleton. reflexivity.
      * destruct (Hnew e Hin) as [Hn Hy]. split; [|exact Hy].
        intros Hx. apply Hn, elem_of_union_r, Hx.
Qed.

Lemma checkForNewMessages_spec (w : Watcher) (wd : World) :
  let out := checkForNewMessages messagesList messagesGet dateOf now w wd in
  let w' := snd (fst out) in
  gmail w' = gmail w
  /\ processedMessages w ⊆ processedMessages w'
  /\ forall emails, fst (fst out) = Ok emails ->
       NoDup (map GmailWatcher.messageId emails)
       /\ forall e, In e emails ->
            (GmailWatcher.messageId e ∉ processedMessages w)
            /\ (GmailWatcher.messageId e ∈ processedMessages w').
Proof.
  cbn zeta. unfold checkForNewMessages.
  destruct (negb (gmail w)); [cbn; split; [|split]; [reflexivity|reflexivity|discriminate]|].
  destruct (messagesList query 10 wd) as [[messages|e] wd1];
    [|cbn; split; [|split]; [reflexivity|reflexivity|discriminate]].
  destruct messages as [|m more].
  - destruct (messagesList (js "is:unread") 5 wd1) as [[l2|e] wd2];
      [|cbn; split; [|split]; [reflexivity|reflexivity|discriminate]].
    destruct (messagesList (js "is:unread has:attachment") 5 wd2) as [[l3|e] wd3];
      [|cbn; split; [|split]; [reflexivity|reflexivity|discriminate]].
    cbn. split; [reflexivity|]. split; [reflexivity|].
    intros emails [= <-]. split; [constructor|]. intros e [].
  - pose proof (collectMessages_spec (m :: more) w wd1 []) as H. cbn zeta in H.
    destruct (collectMessages messagesGet dateOf now (m :: more) w wd1 [])
      as [[out w1] wd2].
    cbn in H |- *. destruct H as (Hg & Hsub & new & -> & Hnd & Hnew).
    split; [exact Hg|]. split; [exact Hsub|].
    intros emails [= <-]. split; [exact Hnd|exact Hnew].
Qed.

End Seen.

Section Polling.

Context {World : Type}.
Variable sv : Services World.

Lemma processAttachment_watcher (email : ProcessedEmail) (att : GmailAttachment)
    (sys : System) (wd : World) :
  gmailWatcher (snd (fst (processAttachment sv email att sys wd))) = gmailWatcher sys.
Proof.
  unfold processAttachment.
  destruct (downloadAttachment _ _ _ _ wd) as [[buf|e] wd1]; [|reflexivity].
  destruct (PDFParser.parsePDF _ buf wd1) as [[parsed|e] wd2]; [|reflexivity].
  destruct (ExcelWriter.appendSolicitud _ _ (excelWriter sys) wd2) as [[r w1] wd3].
  destruct r as [[]|e]; [|reflexivity].
  destruct (markAsProcessed _ _ _ wd3) as [r2 wd4]. reflexivity.
Qed.

Lemma forAttachments_watcher (email : ProcessedEmail) (atts : list GmailAttachment) :
  forall (sys : System) (wd : World),
    gmailWatcher (fst (forAttachments sv email atts sys wd)) = gmailWatcher sys.
Proof.
  induction atts as [|att more IH]; intros sys wd; [reflexivity|].
  cbn [forAttachments].
  pose proof (processAttachment_watcher email att sys wd) as H.
  destruct (processAttachment sv email att sys wd) as [[r sys1] wd1].
  rewrite IH. exact H.
Qed.

Lemma forEmails_watcher (emails : list ProcessedEmail) :
  forall (sys : System) (wd : World),
    gmailWatcher (fst (forEmails sv emails sys wd)) = gmailWatcher sys.
Proof.
  induction emails as [|email more IH]; intros sys wd; [reflexivity|].
  cbn [forEmails]. unfold processEmail.
  pose proof (forAttachments_watcher email (sortedAttachments (attachments email)) sys wd) as H.
  destruct (forAttachments sv email _ sys wd) as [sys1 wd1].
  rewrite IH. exact H.
Qed.

Lemma checkAndProcessEmails_watcher (sys : System) (wd : World) :
  gmailWatcher (fst (checkAndProcessEmails sv sys wd))
  = snd (fst (checkForNewMessages (messagesList sv) (messagesGet sv) (dateOf sv) (now sv)
                (gmailWatcher sys) wd)).
Proof.
  unfold checkAndProcessEmails.
  destruct (checkForNewMessages _ _ _ _ (gmailWatcher sys) wd) as [[[emails|e] w1] wd1];
    [|reflexivity].
  destruct (length emails =? 0); [reflexivity|].
  rewrite forEmails_watcher. reflexivity.
Qed.

Lemma Polled_seen (sys sys' : System) :
  Polled sv sys sys' ->
  processedMessages (gmailWatcher sys) ⊆ processedMessages (gmailWatcher sys').
Proof.
  induction 1 as [sys|sys wd sys' _ IH]; [reflexivity|].
  etransitivity; [|exact IH].
  rewrite checkAndProcessEmails_watcher.
  apply (checkForNewMessages_spec (messagesList sv) (messagesGet sv) (dateOf sv) (now sv)).
Qed.

End Polling.

(** C9: every message [checkForNewMessages] returns was not in the seen
    set before the call and is in it when the call returns, that is, before
    [checkAndProcessEmails] starts processing the batch; processing never
    changes the set.  Hence, whatever becomes of its processing, no later
    poll of the same process returns a message with that identifier
    (nor does the same poll return it twice). *)
Theorem C9_seen_before_processing {World : Type} (sv : Services World)
    (sys : System) (wd : World)
    (emails : list ProcessedEmail) (w1 : Watcher) (wd1 : World) :
  checkForNewMessages (messagesList sv) (messagesGet sv) (dateOf sv) (now sv)
    (gmailWatcher sys) wd = (Ok emails, w1, wd1) ->
  let sys1 := {| gmailWatcher := w1; excelWriter := excelWriter sys |} in
  (forall e, In e emails ->
     (GmailWatcher.messageId e ∉ processedMessages (gmailWatcher sys))
     /\ (GmailWatcher.messageId e ∈ processedMessages w1))
  /\ NoDup (map GmailWatcher.messageId emails)
  /\ checkAndProcessEmails sv sys wd
     = (if length emails =? 0 then (sys1, wd1) else forEmails sv emails sys1 wd1)
  /\ gmailWatcher (fst (checkAndProcessEmails sv sys wd)) = w1
  /\ forall sys' wd' emails' w2 wd2,
       Polled sv (fst (checkAndProcessEmails sv sys wd)) sys' ->
       checkForNewMessages (messagesList sv) (messagesGet sv) (dateOf sv) (now sv)
         (gmailWatcher sys') wd' = (Ok emails', w2, wd2) ->
       forall e e', In e emails -> In e' emails' ->
         GmailWatcher.messageId e' <> GmailWatcher.messageId e.
Proof.
  intros Hcheck. cbn zeta.
  pose proof (checkForNewMessages_spec (messagesList sv) (messagesGet sv) (dateOf sv)
                (now sv) (gmailWatcher sys) wd) as Hspec.
  cbn zeta in Hspec. rewrite Hcheck in Hspec. cbn in Hspec.
  destruct Hspec as (_ & _ & Hret). destruct (Hret emails eq_refl) as [Hnd Hids].
  assert (Hw : gmailWatcher (fst (checkAndProcessEmails sv sys wd)) = w1)
    by (rewrite checkAndProcessEmails_watcher, Hcheck; reflexivity).
  split; [exact Hids|]. split; [exact Hnd|].
  split; [unfold checkAndProcessEmails; rewrite Hcheck; reflexivity|].
  split; [exact Hw|].
  intros sys' wd' emails' w2 wd2 Hp Hcheck' e e' He He' Heq.
  apply Polled_seen in Hp. rewrite Hw in Hp.
  pose proof (checkForNewMessages_spec (messagesList sv) (messagesGet sv) (dateOf sv)
                (now sv) (gmailWatcher sys') wd') as Hspec'.
  cbn zeta in Hspec'. rewrite Hcheck' in Hspec'. cbn in Hspec'.
  destruct Hspec' as (_ & _ & Hret'). destruct (Hret' emails' eq_refl) as [_ Hids'].
  destruct (Hids' e' He') as [Hnot _]. apply Hnot. rewrite Heq.
  apply Hp. apply (Hids e He).
Qed.

(** The example mailbox: the first poll returns m1, m2, m3; the processing
    of m2 fails (no row for it), m2 is in the seen set all the same, and the
    next poll, which lists the same three messages, returns none of them. *)
Lemma C9_seen_before_processing_witness :
  let check := checkForNewMessages (messagesList exampleServices)
                 (messagesGet exampleServices) (dateOf exampleServices)
                 (now exampleServices) in
  let first := check (gmailWatcher exampleSystem) 0 in
  let polled := checkAndProcessEmails exampleServices exampleSystem 0 in
  (map GmailWatcher.messageId
       (match fst (fst first) with Ok l => l | Throw _ => [] end)
   = [js "m1"; js "m2"; js "m3"])
  /\ (js "m2" ∈ processedMessages (snd (fst first)))
  /\ rowsWithId (excelWriter (fst polled)) (js "m2") = []
  /\ fst (fst (check (gmailWatcher (fst polled)) (snd polled))) = Ok [].
Proof.
  cbn zeta.
  pose proof (C9_seen_before_processing exampleServices exampleSystem 0
                [exampleBatchEmail "m1"; exampleBatchEmail "m2"; exampleBatchEmail "m3"]
                (snd (fst (checkForNewMessages (messagesList exampleServices)
                             (messagesGet exampleServices) (dateOf exampleServices)
                             (now exampleServices) (gmailWatcher exampleSystem) 0)))
                4) as H.
  cbn zeta in H.
  destruct (H ltac:(vm_compute; reflexivity)) as (Hids & _).
  split; [vm_compute; reflexivity|].
  split; [apply (Hids (exampleBatchEmail "m2")); right; left; reflexivity|].
  split; vm_compute; reflexivity.
Defined.

(** ** The matcher: the iteration bound is enough *)

Section Matcher.

Lemma follows_refl (x : mstate) : follows x x.
Proof. split; reflexivity. Qed.

Lemma follows_trans (x y z : mstate) : follows x y -> follows y z -> follows x z.
Proof. unfold follows. intros [H1 H2] [H3 H4]. split; lia. Qed.

Lemma agree_follows (x y : mstate) (k k' : cont) :
  agree x k k' -> follows x y -> agree y k k'.
Proof. intros Ha Hxy z Hyz. apply Ha. eapply follows_trans; eassumption. Qed.

Lemma repeatM_unfold (m : cont -> cont) (inner : list nat) (fuel min : nat)
    (max : option nat) (greedy : bool) (k : cont) (x : mstate) :
  repeatM m inner fuel min max greedy k x
  = match max with
    | Some 0 => k x
    | _ =>
        let d : cont := fun y =>
          if (min =? 0) && (pos y =? pos x) then None
          else match fuel with
               | 0 => None
               | S f => repeatM m inner f (Nat.pred min) (Nat.pred <$> max) greedy k y
               end in
        let xr := clearCaps inner x in
        if negb (min =? 0) then m d xr
        else if greedy then orElse (m d xr) (k x)
        else orElse (k x) (m d xr)
    end.
Proof. destruct fuel; reflexivity. Qed.

(** With at least [min + length (rest x)] iterations allowed, allowing more
    changes nothing. *)
Lemma repeatM_fuel (m : cont -> cont) (inner : list nat) (greedy : bool) :
  steady m ->
  forall (f f' min : nat) (max : option nat) (k k' : cont) (x : mstate),
    min + length (rest x) <= f ->
    min + length (rest x) <= f' ->
    agree x k k' ->
    repeatM m inner f min max greedy k x = repeatM m inner f' min max greedy k' x.
Proof.
  intros Hm. induction f as [|f IH]; intros f' min max k k' x Hf Hf' Hk;
    rewrite (repeatM_unfold m inner _ min max greedy k x),
            (repeatM_unfold m inner f' min max greedy k' x).
  - (* nothing left to read and no iteration owed *)
    assert (Hmin : min = 0) by lia. subst min.
    assert (Hd : forall (fuel fuel' : nat) (k1 k2 : cont),
               agree (clearCaps inner x)
                 (fun y => if (0 =? 0) && (pos y =? pos x) then None
                           else match fuel with
                                | 0 => None
                                | S g => repeatM m inner g (Nat.pred 0) (Nat.pred <$> max) greedy k1 y
                                end)
                 (fun y => if (0 =? 0) && (pos y =? pos x) then None
                           else match fuel' with
                                | 0 => None
                                | S g => repeatM m inner g (Nat.pred 0) (Nat.pred <$> max) greedy k2 y
                                end)).
    { intros fuel fuel' k1 k2 y [Hy1 Hy2]. cbn in Hy1, Hy2.
      replace (pos y =? pos x) with true by (symmetry; apply Nat.eqb_eq; lia).
      reflexivity. }
    cbn zeta. rewrite (Hm _ _ _ (Hd 0 f' k k')), (Hk x (follows_refl x)).
    reflexivity.
  - assert (Hd : agree (clearCaps inner x)
                 (fun y => if (min =? 0) && (pos y =? pos x) then None
                           else repeatM m inner f (Nat.pred min) (Nat.pred <$> max) greedy k y)
                 (fun y => if (min =? 0) && (pos y =? pos x) then None
                           else match f' with
                                | 0 => None
                                | S g => repeatM m inner g (Nat.pred min) (Nat.pred <$> max) greedy k' y
                                end)).
    { intros y [Hy1 Hy2]. cbn in Hy1, Hy2.
      destruct ((min =? 0) && (pos y =? pos x)) eqn:E; [reflexivity|].
      assert (Hstep : Nat.pred min + length (rest y) < min + length (rest x)).
      { apply andb_false_iff in E. destruct E as [E|E].
        - apply Nat.eqb_neq in E. lia.
        - apply Nat.eqb_neq in E. lia. }
      destruct f' as [|g]; [lia|].
      apply IH; [lia|lia|].
      apply agree_follows with (x := x); [exact Hk|split; assumption]. }
    cbn zeta. rewrite (Hm _ _ _ Hd), (Hk x (follows_refl x)). reflexivity.
Qed.

Lemma charM_steady (ok : N -> bool) : steady (charM ok).
Proof.
  intros x k k' Hk. unfold charM, advance.
  destruct (rest x) as [|c t] eqn:Hr; [reflexivity|].
  destruct (ok c); [|reflexivity]. cbn. apply Hk.
  split; cbn; rewrite Hr; cbn; lia.
Qed.

Lemma rmatch_steady (fl : flags) (r : regex) : steady (rmatch fl r).
Proof.
  induction r as [|c| |neg items|a IHa b IHb|a IHa b IHb|min max greedy a IHa
                  |n a IHa|a IHa| | |]; intros x k k' Hk; cbn [rmatch].
  - apply Hk, follows_refl.
  - apply charM_steady, Hk.
  - apply charM_steady, Hk.
  - apply charM_steady, Hk.
  - apply IHa. intros y Hy. apply IHb. eapply agree_follows; eassumption.
  - rewrite (IHa x k k' Hk), (IHb x k k' Hk). reflexivity.
  - apply repeatM_fuel; [exact IHa|lia|lia|exact Hk].
  - apply IHa. intros y Hy. apply Hk. exact Hy.
  - destruct (rmatch fl a Some x) as [y|]; [|reflexivity].
    apply Hk. split; reflexivity.
  - rewrite (Hk x (follows_refl x)). reflexivity.
  - rewrite (Hk x (follows_refl x)). reflexivity.
  - rewrite (Hk x (follows_refl x)). reflexivity.
Qed.

(** The bound used for a quantifier loses no match: any larger number of
    allowed iterations gives the same result. *)
Lemma repeat_bound_enough (fl : flags) (min : nat) (max : option nat)
    (greedy : bool) (a : regex) (k : cont) (x : mstate) (fuel : nat) :
  min + length (rest x) <= fuel ->
  rmatch fl (Repeat min max greedy a) k x
  = repeatM (rmatch fl a) (groupsOf a) fuel min max greedy k x.
Proof.
  intros Hf. cbn [rmatch].
  apply repeatM_fuel; [apply rmatch_steady|lia|exact Hf|].
  intros y _. reflexivity.
Qed.

End Matcher.

(** * Further properties of the code *)

(** ** Ledger writer *)

Section LedgerMore.

Import ExcelWriter.

Context {World : Type}.
Variable writeFile : Worksheet -> World -> Result unit * World.

Lemma hasId_idOf (mid : jsstring) (row : Row) :
  hasId mid row = true <-> idOf row = Some mid.
Proof.
  unfold hasId, idOf, strictEqualsString, jsstring_eqb.
  destruct (value (getCell row messageIdColumn)); try (split; discriminate).
  rewrite bool_decide_eq_true. split; [intros ->; reflexivity|intros [= ->]; reflexivity].
Qed.

Lemma rowsWithId_ledgerIds (w : Writer) (mid : jsstring) :
  rowsWithId w mid <> [] <-> mid ∈ ledgerIds w.
Proof.
  unfold rowsWithId, ledgerIds. rewrite elem_of_list_to_set, list_elem_of_omap.
  split.
  - intros H. destruct (List.filter (hasId mid) (dataRows w)) as [|r rs] eqn:E;
      [contradiction|].
    assert (Hr : In r (List.filter (hasId mid) (dataRows w))) by (rewrite E; left; reflexivity).
    apply filter_In in Hr. destruct Hr as [Hr1 Hr2].
    exists r. split; [apply list_elem_of_In; exact Hr1|apply hasId_idOf; exact Hr2].
  - intros (r & Hr1 & Hr2) E.
    assert (Hr : In r (List.filter (hasId mid) (dataRows w))).
    { apply filter_In. split; [apply list_elem_of_In; exact Hr1|apply hasId_idOf; exact Hr2]. }
    rewrite E in Hr. contradiction.
Qed.

Lemma idOf_newRow (solicitud : SolicitudData) :
  idOf (newRow solicitud) = Some (messageId solicitud).
Proof. unfold idOf. rewrite newRow_id. reflexivity. Qed.

Lemma appendSolicitud_ledgerIds (solicitud : SolicitudData) (w : Writer) (wd : World) :
  initialized w ->
  ledgerIds (snd (fst (appendSolicitud writeFile solicitud w wd)))
  = ledgerIds w ∪ {[messageId solicitud]}.
Proof.
  intros Hi.
  destruct (appendSolicitud_cases writeFile solicitud w wd Hi) as [_ [[Hne Heq]|[_ Hrows]]].
  - rewrite Heq. cbn. apply rowsWithId_ledgerIds in Hne.
    apply set_eq. intros x. rewrite elem_of_union, elem_of_singleton.
    split; [tauto|]. intros [Hx| ->]; assumption.
  - unfold ledgerIds. rewrite Hrows, omap_app, list_to_set_app_L. cbn.
    rewrite idOf_newRow. cbn. rewrite union_empty_r_L. reflexivity.
Qed.

End LedgerMore.


(** X2: on a ledger with its header row, after any sequence of appends the
    identifiers in the ledger are exactly those it had together with those
    of the submitted records, whatever the saves returned. *)
Theorem X2_ledger_ids_after_appends {World : Type}
    (writeFile : ExcelWriter.Worksheet -> World -> Result unit * World)
    (records : list ExcelWriter.SolicitudData) (w : ExcelWriter.Writer) (wd : World) :
  initialized w ->
  ledgerIds (fst (appendAll writeFile records w wd))
  = ledgerIds w ∪ list_to_set (map ExcelWriter.messageId records).
Proof.
  unfold appendAll. revert w wd.
  induction records as [|solicitud more IH]; intros w wd Hi.
  - cbn. rewrite union_empty_r_L. reflexivity.
  - cbn [fold_left fst snd map list_to_set].
    pose proof (appendSolicitud_ledgerIds writeFile solicitud w wd Hi) as Hids.
    destruct (appendSolicitud_cases writeFile solicitud w wd Hi) as [Hi' _].
    destruct (ExcelWriter.appendSolicitud writeFile solicitud w wd) as [[r w1] wd1].
    cbn in Hids, Hi'. rewrite (IH w1 wd1 Hi'), Hids.
    rewrite <- (assoc_L (∪)). reflexivity.
Qed.

Lemma X2_ledger_ids_after_appends_witness :
  initialized freshLedger
  /\ ledgerIds (fst (appendAll diskWrite
                       [exampleRecord "$2,300.50"; exampleRecord "abc"] freshLedger []))
     = ledgerIds freshLedger
       ∪ list_to_set (map ExcelWriter.messageId
                          [exampleRecord "$2,300.50"; exampleRecord "abc"]).
Proof.
  assert (Hi : initialized freshLedger).
  { eexists. split; [reflexivity|]. vm_compute. lia. }
  split; [exact Hi|].
  apply (X2_ledger_ids_after_appends diskWrite
           [exampleRecord "$2,300.50"; exampleRecord "abc"] freshLedger [] Hi).
Defined.

(** X3: when an append inserts a row into a ledger with its header row, the
    filter range it leaves is "A1:F" followed by the new number of rows,
    header included; a duplicate leaves the range as it was. *)
Theorem X3_filter_range {World : Type}
    (writeFile : ExcelWriter.Worksheet -> World -> Result unit * World)
    (solicitud : ExcelWriter.SolicitudData) (w : ExcelWriter.Writer) (wd : World) :
  initialized w ->
  let w' := snd (fst (ExcelWriter.appendSolicitud writeFile solicitud w wd)) in
  (rowsWithId w (ExcelWriter.messageId solicitud) = [] ->
   ExcelWriter.rowCount (sheetOf w') = S (ExcelWriter.rowCount (sheetOf w))
   /\ ExcelWriter.autoFilter (sheetOf w')
      = Some (js "A1:F" ++ natToString (ExcelWriter.rowCount (sheetOf w'))))
  /\ (rowsWithId w (ExcelWriter.messageId solicitud) <> [] -> w' = w).
Proof.
  intros (ws & Hws & Hn). cbn zeta. split.
  - intros Hnone. apply findExistingRow_None in Hnone.
    unfold ExcelWriter.appendSolicitud. rewrite Hnone, Hws. cbv zeta.
    unfold ExcelWriter.saveWorkbook. destruct (writeFile _ wd). cbn [fst snd].
    unfold sheetOf. rewrite Hws. cbn [default ExcelWriter.worksheet]. unfold id.
    unfold ExcelWriter.rowCount in *.
    rewrite appended_rows, length_app. cbn [length].
    split; [lia|].
    unfold ExcelWriter.updateLastRow at 1. cbn [ExcelWriter.autoFilter].
    unfold ExcelWriter.createFilterableTable, ExcelWriter.rowCount.
    erewrite rows_updateLastRow;
      [|apply rows_updateLastRow; cbn; reflexivity].
    rewrite length_app. cbn [length].
    replace (length (ExcelWriter.rows ws) + 1 <=? 1) with false
      by (symmetry; apply Nat.leb_gt; lia).
    reflexivity.
  - intros Hne. rewrite (appendSolicitud_existing writeFile solicitud w wd Hne).
    reflexivity.
Qed.

Lemma X3_filter_range_witness :
  let w' := snd (fst (ExcelWriter.appendSolicitud diskWrite
                        (exampleRecord "$2,300.50") freshLedger [])) in
  initialized freshLedger
  /\ ExcelWriter.rowCount (sheetOf w') = 2
  /\ ExcelWriter.autoFilter (sheetOf w') = Some (js "A1:F2").
Proof.
  cbn zeta.
  assert (Hi : initialized freshLedger).
  { eexists. split; [reflexivity|]. vm_compute. lia. }
  destruct (X3_filter_range diskWrite (exampleRecord "$2,300.50") freshLedger [] Hi)
    as [Hnew _].
  destruct (Hnew eq_refl) as [Hcount Hrange].
  split; [exact Hi|]. split; [exact Hcount|]. rewrite Hrange, Hcount. reflexivity.
Defined.

(** ** Retry wrapper and attachment order *)

Lemma retryLoop_outcome {World T : Type} (sleep : Z -> World -> World) (d : Z)
    (operation : World -> Result T * World) (N : Z) :
  forall (fuel : nat) (i : Z) (wd : World),
    fuel = Z.to_nat (N - i) -> (0 <= i < N)%Z ->
    exists (k : nat) (w : World),
      (i + Z.of_nat k < N)%Z
      /\ afterFailures sleep d operation k wd = Some w
      /\ retryLoop sleep d operation N fuel i wd = operation w.
Proof.
  induction fuel as [|f IH]; intros i wd Hfuel Hi; [lia|].
  cbn [retryLoop].
  replace (i <? N)%Z with true by (symmetry; apply Z.ltb_lt; lia).
  destruct (operation wd) as [[v|e] wd1] eqn:Hop.
  - exists 0, wd. split; [lia|]. split; [reflexivity|]. symmetry. exact Hop.
  - destruct (i =? N - 1)%Z eqn:Hlast.
    + exists 0, wd. split; [lia|]. split; [reflexivity|]. symmetry. exact Hop.
    + apply Z.eqb_neq in Hlast.
      destruct (IH (i + 1)%Z (sleep d wd1)) as (k & w & Hk & Haf & Hres); [lia|lia|].
      exists (S k), w. split; [lia|]. split; [|exact Hres].
      cbn [afterFailures]. rewrite Hop. exact Haf.
Qed.

(** X4: with [maxRetries = N >= 1] the wrapper returns exactly what one of
    the first [N] invocations of the operation returned (value or error,
    and the world it left), all earlier invocations having failed and been
    followed by one wait each: the closing "Max retries exceeded" is never
    reached and the operation is invoked at most [N] times. *)
Theorem X4_retry_outcome_is_an_invocation {World T : Type}
    (sleep : Z -> World -> World) (d : Z)
    (operation : World -> Result T * World) (N : Z) (wd : World) :
  (1 <= N)%Z ->
  exists (k : nat) (w : World),
    (Z.of_nat k < N)%Z
    /\ afterFailures sleep d operation k wd = Some w
    /\ retryOperation sleep d operation N wd = operation w.
Proof.
  intros HN. unfold retryOperation.
  destruct (retryLoop_outcome sleep d operation N (Z.to_nat N) 0 wd) as (k & w & H);
    [f_equal; lia|lia|].
  exists k, w. destruct H as (Hk & Haf & Hres). split; [lia|]. split; assumption.
Qed.

Lemma X4_retry_outcome_is_an_invocation_witness :
  (1 <= 3)%Z
  /\ exists (k : nat) (w : list Event),
       (Z.of_nat k < 3)%Z
       /\ afterFailures logSleep 100 (failsThenSucceeds 1) k [] = Some w
       /\ retryOperation logSleep 100 (failsThenSucceeds 1) 3 []
          = failsThenSucceeds 1 w.
Proof.
  assert (H3 : (1 <= 3)%Z) by lia.
  split; [exact H3|].
  apply (X4_retry_outcome_is_an_invocation logSleep 100 (failsThenSucceeds 1) 3 [] H3).
Defined.

Lemma filter_filter_same {A : Type} (f : A -> bool) (l : list A) :
  List.filter f (List.filter f l) = List.filter f l.
Proof.
  induction l as [|x l IH]; [reflexivity|]. cbn.
  destruct (f x) eqn:Hx; cbn; [rewrite Hx, IH; reflexivity|exact IH].
Qed.

Lemma filter_filter_none {A : Type} (f g : A -> bool) (l : list A) :
  (forall x, g x = true -> f x = false) ->
  List.filter f (List.filter g l) = [].
Proof.
  intros H. induction l as [|x l IH]; [reflexivity|]. cbn.
  destruct (g x) eqn:Hx; cbn; [rewrite (H x Hx); exact IH|exact IH].
Qed.

Lemma filter_split_Permutation {A : Type} (f : A -> bool) (l : list A) :
  Permutation (List.filter (fun x => negb (f x)) l ++ List.filter f l) l.
Proof.
  induction l as [|x l IH]; [constructor|]. cbn.
  destruct (f x); cbn.
  - symmetry. apply Permutation_cons_app. symmetry. exact IH.
  - constructor. exact IH.
Qed.

(** X5: the attachment order of [processEmail] neither drops nor
    duplicates an attachment (the sorted list is a permutation of the
    input), and sorting an already sorted list changes nothing. *)
Theorem X5_sort_permutation_idempotent (atts : list GmailAttachment) :
  Permutation (sortedAttachments atts) atts
  /\ sortedAttachments (sortedAttachments atts) = sortedAttachments atts.
Proof.
  split.
  - rewrite sortedAttachments_partition. apply filter_split_Permutation.
  - rewrite (sortedAttachments_partition (sortedAttachments atts)).
    rewrite sortedAttachments_partition, !List.filter_app.
    rewrite (filter_filter_same notCarta), (filter_filter_same isCarta).
    rewrite (filter_filter_none notCarta isCarta),
            (filter_filter_none isCarta notCarta).
    + rewrite app_nil_r. reflexivity.
    + unfold notCarta. intros x Hx. destruct (isCarta x); [discriminate|reflexivity].
    + unfold notCarta. intros x Hx. rewrite Hx. reflexivity.
Qed.

(** ** Mailbox watcher *)

Lemma extractFromPart_named (part : MessagePart) :
  forall a, In a (extractFromPart part) -> filename a <> [] /\ attachmentId a <> [].
Proof.
  revert part. fix IH 1. intros [fn mt aid sz sub] a. cbn [extractFromPart].
  rewrite in_app_iff. intros [H|H].
  - destruct fn as [[|c fn]|]; cbn in H; try contradiction.
    destruct aid as [[|c' aid]|]; cbn in H; try contradiction.
    destruct H as [<-|[]]. cbn. split; discriminate.
  - destruct sub as [ps|]; [|contradiction].
    induction ps as [|p ps IHps]; [contradiction|].
    cbn in H. rewrite in_app_iff in H. destruct H as [H|H].
    + exact (IH p a H).
    + exact (IHps H).
Qed.

Lemma extractAttachments_named (message : Message) (a : GmailAttachment) :
  In a (extractAttachments message) ->
  filename a <> [] /\ attachmentId a <> [].
Proof.
  unfold extractAttachments. destruct (payloadParts message) as [ps|]; [|contradiction].
  induction ps as [|p ps IH]; [contradiction|].
  cbn. rewrite in_app_iff. intros [H|H].
  - exact (extractFromPart_named p a H).
  - exact (IH H).
Qed.

(** X6: every attachment [extractAttachments] collects from the message
    tree, at any depth, has a non-empty file name and a non-empty
    attachment identifier. *)
Theorem X6_extracted_attachments_named (message : Message) (a : GmailAttachment) :
  In a (extractAttachments message) ->
  filename a <> [] /\ attachmentId a <> [].
Proof.
  exact (extractAttachments_named message a).
Qed.

Lemma X6_extracted_attachments_named_witness :
  In (exampleAttachment "FACTURA.pdf" "application/pdf") (extractAttachments exampleMessage)
  /\ filename (exampleAttachment "FACTURA.pdf" "application/pdf") <> []
  /\ attachmentId (exampleAttachment "FACTURA.pdf" "application/pdf") <> [].
Proof.
  assert (H : In (exampleAttachment "FACTURA.pdf" "application/pdf")
                 (extractAttachments exampleMessage)) by (left; reflexivity).
  split; [exact H|].
  apply (X6_extracted_attachments_named exampleMessage _ H).
Defined.

Lemma lookup_map {A B : Type} (f : A -> B) (l : list A) (i : nat) (x : A) :
  l !! i = Some x -> map f l !! i = Some (f x).
Proof.
  revert i. induction l as [|y l IH]; intros [|i] H; try discriminate.
  - injection H as ->. reflexivity.
  - cbn. apply IH. exact H.
Qed.

(** X7: with the client set, [downloadAttachment] throws "No attachment
    data received" when the API answers without data (absent or empty),
    rethrows an API error unchanged, and otherwise decodes a text of the
    same length in which every "-" has become "+" and every "_" has become
    "/", all other code units being kept in place. *)
Theorem X7_download_normalises_base64url {World : Type}
    (attachmentsGet : jsstring -> jsstring -> World -> Result (option jsstring) * World)
    (w : Watcher) (mid aid : jsstring) (wd : World) :
  gmail w = true ->
  match attachmentsGet mid aid wd with
  | (Throw e, wd1) => downloadAttachment attachmentsGet w mid aid wd = (Throw e, wd1)
  | (Ok None, wd1) | (Ok (Some []), wd1) =>
      downloadAttachment attachmentsGet w mid aid wd
      = (Throw (Error (js "No attachment data received")), wd1)
  | (Ok (Some data), wd1) =>
      exists b,
        downloadAttachment attachmentsGet w mid aid wd = (Ok (FromBase64 b), wd1)
        /\ length b = length data
        /\ ~ In (chr "-") b /\ ~ In (chr "_") b
        /\ forall i c, data !! i = Some c ->
             b !! i = Some (if (c =? chr "-")%N then chr "+"
                            else if (c =? chr "_")%N then chr "/" else c)
  end.
Proof.
  intros Hg. unfold downloadAttachment. rewrite Hg. cbn [negb].
  destruct (attachmentsGet mid aid wd) as [[[[|c data]|]|e] wd1]; try reflexivity.
  cbn [truthy default]. unfold id. eexists. split; [reflexivity|].
  split; [apply length_map|]. split; [|split].
  - intros Hin. apply in_map_iff in Hin. destruct Hin as (x & Hx & _).
    destruct (x =? chr "-")%N eqn:E1; [discriminate|].
    destruct (x =? chr "_")%N eqn:E2; [discriminate|].
    apply N.eqb_neq in E1. congruence.
  - intros Hin. apply in_map_iff in Hin. destruct Hin as (x & Hx & _).
    destruct (x =? chr "-")%N eqn:E1; [discriminate|].
    destruct (x =? chr "_")%N eqn:E2; [discriminate|].
    apply N.eqb_neq in E2. congruence.
  - intros i x Hx.
    apply (lookup_map (fun c0 => if (c0 =? chr "-")%N then chr "+"
                                 else if (c0 =? chr "_")%N then chr "/" else c0)).
    exact Hx.
Qed.

Lemma X7_download_normalises_base64url_witness :
  gmail (gmailWatcher exampleSystem) = true
  /\ exists b,
       downloadAttachment (fun _ _ (n : nat) => (Ok (Some (js "ab-_c")), S n))
         (gmailWatcher exampleSystem) (js "m1") (js "a1") 0 = (Ok (FromBase64 b), 1)
       /\ b = js "ab+/c".
Proof.
  split; [reflexivity|].
  pose proof (X7_download_normalises_base64url
                (fun _ _ (n : nat) => (Ok (Some (js "ab-_c")), S n))
                (gmailWatcher exampleSystem) (js "m1") (js "a1") 0 eq_refl) as H.
  cbn beta iota in H. destruct H as (b & Hb & _).
  exists b. split; [exact Hb|]. vm_compute in Hb. injection Hb as <-. reflexivity.
Defined.

Section SeenMore.

Context {World : Type}.
Variable messagesList : jsstring -> nat -> World -> Result (list (option jsstring)) * World.
Variable messagesGet : jsstring -> World -> Result Message * World.
Variable dateOf : jsstring -> JSDate.
Variable now : World -> JSDate.

Lemma getMessageDetails_attachments (w : Watcher) (id : jsstring) (wd wd1 : World)
    (e : ProcessedEmail) :
  getMessageDetails messagesGet dateOf now w id wd = (Ok (Some e), wd1) ->
  attachments e <> []
  /\ forall a, In a (attachments e) ->
       mimeType a = js "application/pdf" /\ filename a <> [] /\ attachmentId a <> [].
Proof.
  unfold getMessageDetails.
  destruct (negb (gmail w)); [discriminate|].
  destruct (messagesGet id wd) as [[m|e0] wd']; [|discriminate].
  destruct (length (pdfAttachments (extractAttachments m)) =? 0) eqn:Hlen; [discriminate|].
  intros [= <- _]. cbn [attachments]. split.
  - intros Hnil. rewrite Hnil in Hlen. discriminate.
  - intros a Ha. unfold pdfAttachments in Ha. apply filter_In in Ha.
    destruct Ha as [Ha Hpdf]. unfold jsstring_eqb in Hpdf.
    apply bool_decide_eq_true in Hpdf. split; [exact Hpdf|].
    exact (extractAttachments_named m a Ha).
Qed.

Lemma collectMessages_exact (messages : list (option jsstring)) :
  forall (w : Watcher) (wd : World) (acc : list ProcessedEmail),
    let out := collectMessages messagesGet dateOf now messages w wd acc in
    exists new,
      fst (fst out) = acc ++ new
      /\ length new <= length messages
      /\ processedMessages (snd (fst out))
         = processedMessages w ∪ list_to_set (map GmailWatcher.messageId new)
      /\ forall e, In e new ->
           wellFormedEmail e /\ In (Some (GmailWatcher.messageId e)) messages.
Proof.
  induction messages as [|m more IH]; intros w wd acc; cbn zeta.
  - exists []. cbn. rewrite app_nil_r, union_empty_r_L.
    split; [reflexivity|]. split; [lia|]. split; [reflexivity|]. intros e [].
  - cbn [collectMessages].
    assert (Hskip : forall w0 wd0,
      exists new,
        fst (fst (collectMessages messagesGet dateOf now more w0 wd0 acc)) = acc ++ new
        /\ length new <= length (m :: more)
        /\ processedMessages
             (snd (fst (collectMessages messagesGet dateOf now more w0 wd0 acc)))
           = processedMessages w0 ∪ list_to_set (map GmailWatcher.messageId new)
        /\ forall e, In e new ->
             wellFormedEmail e /\ In (Some (GmailWatcher.messageId e)) (m :: more)).
    { intros w0 wd0. destruct (IH w0 wd0 acc) as (new & H1 & H2 & H3 & H4).
      exists new. split; [exact H1|]. split; [cbn; lia|]. split; [exact H3|].
      intros e He. destruct (H4 e He). split; [assumption|right; assumption]. }
    destruct m as [[|c i]|]; try apply Hskip.
    destruct (bool_decide (c :: i ∈ processedMessages w)); [apply Hskip|].
    destruct (getMessageDetails messagesGet dateOf now w (c :: i) wd)
      as [[[pe|]|e0] wd1] eqn:Hd; try apply Hskip.
    pose proof (getMessageDetails_attachments _ _ _ _ _ Hd) as [Hne Hatts].
    apply getMessageDetails_id in Hd.
    destruct (IH {| gmail := gmail w;
                    processedMessages := {[c :: i]} ∪ processedMessages w |}
                 wd1 (acc ++ [pe])) as (new & H1 & H2 & H3 & H4).
    exists (pe :: new). split; [rewrite H1, <- app_assoc; reflexivity|].
    split; [cbn; lia|]. split.
    + rewrite H3. cbn [processedMessages map list_to_set]. rewrite Hd.
      rewrite (comm_L (∪) {[c :: i]} (processedMessages w)), <- (assoc_L (∪)).
      reflexivity.
    + intros e [<-|He].
      * split; [|left; rewrite Hd; reflexivity].
        split; [rewrite Hd; discriminate|]. split; assumption.
      * destruct (H4 e He). split; [assumption|right; assumption].
Qed.

End SeenMore.

(** X8: a poll that returns adds to the seen set exactly the identifiers
    of the messages it returns, no other; a poll that throws leaves the
    watcher as it was.  So a message whose details could not be fetched, or
    that has no PDF, is not marked seen and is considered again by the next
    poll. *)
Theorem X8_seen_set_exact {World : Type}
    (messagesList : jsstring -> nat -> World -> Result (list (option jsstring)) * World)
    (messagesGet : jsstring -> World -> Result Message * World)
    (dateOf : jsstring -> JSDate) (now : World -> JSDate)
    (w : Watcher) (wd : World) :
  match checkForNewMessages messagesList messagesGet dateOf now w wd with
  | (Ok emails, w1, _) =>
      gmail w1 = gmail w
      /\ processedMessages w1
         = processedMessages w ∪ list_to_set (map GmailWatcher.messageId emails)
  | (Throw _, w1, _) => w1 = w
  end.
Proof.
  unfold checkForNewMessages.
  destruct (negb (gmail w)); [reflexivity|].
  destruct (messagesList query 10 wd) as [[messages|e] wd1]; [|reflexivity].
  destruct messages as [|m more].
  - destruct (messagesList (js "is:unread") 5 wd1) as [[l2|e] wd2]; [|reflexivity].
    destruct (messagesList (js "is:unread has:attachment") 5 wd2) as [[l3|e] wd3];
      [|reflexivity].
    split; [reflexivity|]. cbn. rewrite union_empty_r_L. reflexivity.
  - pose proof (collectMessages_exact messagesGet dateOf now (m :: more) w wd1 []) as H.
    pose proof (collectMessages_spec messagesGet dateOf now (m :: more) w wd1 []) as H'.
    cbn zeta in H, H'.
    destruct (collectMessages messagesGet dateOf now (m :: more) w wd1 [])
      as [[out w1] wd2].
    cbn in H, H'. destruct H as (new & -> & _ & Hpm & _). destruct H' as [Hg _].
    split; [exact Hg|exact Hpm].
Qed.

(** X9: every message a poll returns is one the listing named, has a
    non-empty identifier and at least one attachment, and each of its
    attachments is a PDF with a non-empty file name and attachment
    identifier; no more messages are returned than were listed. *)
Theorem X9_returned_emails_well_formed {World : Type}
    (messagesList : jsstring -> nat -> World -> Result (list (option jsstring)) * World)
    (messagesGet : jsstring -> World -> Result Message * World)
    (dateOf : jsstring -> JSDate) (now : World -> JSDate)
    (w : Watcher) (wd : World) (emails : list ProcessedEmail) :
  fst (fst (checkForNewMessages messagesList messagesGet dateOf now w wd)) = Ok emails ->
  exists listing wd1,
    messagesList (js "has:attachment filename:pdf -label:PROCESSED") 10 wd
    = (Ok listing, wd1)
    /\ length emails <= length listing
    /\ forall e, In e emails ->
         wellFormedEmail e /\ In (Some (GmailWatcher.messageId e)) listing.
Proof.
  unfold checkForNewMessages. change query with (js "has:attachment filename:pdf -label:PROCESSED").
  destruct (negb (gmail w)); [discriminate|].
  destruct (messagesList _ 10 wd) as [[messages|e] wd1]; [|discriminate].
  intros H. exists messages, wd1. split; [reflexivity|].
  destruct messages as [|m more].
  - destruct (messagesList (js "is:unread") 5 wd1) as [[l2|e] wd2]; [|discriminate].
    destruct (messagesList (js "is:unread has:attachment") 5 wd2) as [[l3|e] wd3];
      [|discriminate].
    cbn in H. injection H as <-. split; [cbn; lia|]. intros e [].
  - pose proof (collectMessages_exact messagesGet dateOf now (m :: more) w wd1 []) as Hc.
    cbn zeta in Hc.
    destruct (collectMessages messagesGet dateOf now (m :: more) w wd1 [])
      as [[out w1] wd2].
    cbn in H, Hc. injection H as ->. destruct Hc as (new & -> & Hlen & _ & Hwf).
    split; [exact Hlen|exact Hwf].
Qed.

Lemma X9_returned_emails_well_formed_witness :
  exists listing wd1,
    messagesList exampleServices (js "has:attachment filename:pdf -label:PROCESSED") 10 0
    = (Ok listing, wd1)
    /\ length [exampleBatchEmail "m1"; exampleBatchEmail "m2"; exampleBatchEmail "m3"]
       <= length listing
    /\ forall e, In e [exampleBatchEmail "m1"; exampleBatchEmail "m2"; exampleBatchEmail "m3"] ->
         wellFormedEmail e /\ In (Some (GmailWatcher.messageId e)) listing.
Proof.
  apply (X9_returned_emails_well_formed (messagesList exampleServices)
           (messagesGet exampleServices) (dateOf exampleServices) (now exampleServices)
           (gmailWatcher exampleSystem) 0).
  vm_compute. reflexivity.
Defined.

(** ** The pipeline *)

Section Pipeline.

Context {World : Type}.
Variable sv : Services World.

(** What one attachment can do to the ledger. *)
Lemma processAttachment_ledger (email : ProcessedEmail) (att : GmailAttachment)
    (sys : System) (wd : World) :
  initialized (excelWriter sys) -> atMostOnePerId (excelWriter sys) ->
  let out := processAttachment sv email att sys wd in
  let w' := excelWriter (snd (fst out)) in
  initialized w' /\ atMostOnePerId w'
  /\ (w' = excelWriter sys
      \/ ledgerIds w' = ledgerIds (excelWriter sys) ∪ {[GmailWatcher.messageId email]})
  /\ (fst (fst out) = Ok tt -> GmailWatcher.messageId email ∈ ledgerIds w').
Proof.
  intros Hi Hu. cbn zeta. unfold processAttachment.
  destruct (downloadAttachment _ _ _ _ wd) as [[buf|e] wd1];
    [|cbn; repeat split; try assumption; [left; reflexivity|discriminate]].
  destruct (PDFParser.parsePDF _ buf wd1) as [[parsed|e] wd2];
    [|cbn; repeat split; try assumption; [left; reflexivity|discriminate]].
  pose proof (appendSolicitud_invariant (writeFile sv) (solicitudData email parsed)
                (excelWriter sys) wd2 Hi Hu) as (Hi' & Hu' & _).
  pose proof (appendSolicitud_ledgerIds (writeFile sv) (solicitudData email parsed)
                (excelWriter sys) wd2 Hi) as Hids.
  destruct (ExcelWriter.appendSolicitud _ _ (excelWriter sys) wd2) as [[r w1] wd3].
  cbn in Hi', Hu', Hids.
  assert (Hin : GmailWatcher.messageId email ∈ ledgerIds w1).
  { rewrite Hids. apply elem_of_union_r, elem_of_singleton. reflexivity. }
  destruct r as [[]|e].
  - destruct (markAsProcessed _ _ _ wd3) as [r2 wd4]. cbn.
    split; [exact Hi'|]. split; [exact Hu'|]. split; [right; exact Hids|].
    intros _. exact Hin.
  - cbn. split; [exact Hi'|]. split; [exact Hu'|]. split; [right; exact Hids|].
    discriminate.
Qed.

Lemma forAttachments_ledger (email : ProcessedEmail) (atts : list GmailAttachment) :
  forall (sys : System) (wd : World),
    initialized (excelWriter sys) -> atMostOnePerId (excelWriter sys) ->
    let w' := excelWriter (fst (forAttachments sv email atts sys wd)) in
    initialized w' /\ atMostOnePerId w'
    /\ ledgerIds (excelWriter sys) ⊆ ledgerIds w'
    /\ ledgerIds w' ⊆ ledgerIds (excelWriter sys) ∪ {[GmailWatcher.messageId email]}.
Proof.
  induction atts as [|att more IH]; intros sys wd Hi Hu; cbn zeta.
  - cbn. split; [exact Hi|]. split; [exact Hu|]. split; [reflexivity|].
    apply union_subseteq_l.
  - cbn [forAttachments].
    destruct (processAttachment_ledger email att sys wd Hi Hu) as (Hi1 & Hu1 & Hids & _).
    destruct (processAttachment sv email att sys wd) as [[r sys1] wd1].
    cbn in Hi1, Hu1, Hids.
    destruct (IH sys1 wd1 Hi1 Hu1) as (Hi2 & Hu2 & Hsub & Hsup).
    split; [exact Hi2|]. split; [exact Hu2|].
    destruct Hids as [Hsame|Hids].
    + rewrite Hsame in Hsub, Hsup. split; assumption.
    + rewrite Hids in Hsub, Hsup. split.
      * intros x Hx. apply Hsub, elem_of_union_l, Hx.
      * intros x Hx. apply Hsup in Hx. apply elem_of_union in Hx.
        destruct Hx as [Hx|Hx]; [exact Hx|apply elem_of_union_r, Hx].
Qed.

Lemma forEmails_ledger (emails : list ProcessedEmail) :
  forall (sys : System) (wd : World),
    initialized (excelWriter sys) -> atMostOnePerId (excelWriter sys) ->
    let w' := excelWriter (fst (forEmails sv emails sys wd)) in
    initialized w' /\ atMostOnePerId w'
    /\ ledgerIds (excelWriter sys) ⊆ ledgerIds w'
    /\ ledgerIds w'
       ⊆ ledgerIds (excelWriter sys) ∪ list_to_set (map GmailWatcher.messageId emails).
Proof.
  induction emails as [|email more IH]; intros sys wd Hi Hu; cbn zeta.
  - cbn. split; [exact Hi|]. split; [exact Hu|]. split; [reflexivity|].
    apply union_subseteq_l.
  - cbn [forEmails]. unfold processEmail.
    destruct (forAttachments_ledger email (sortedAttachments (attachments email)) sys wd Hi Hu)
      as (Hi1 & Hu1 & Hsub1 & Hsup1).
    destruct (forAttachments sv email _ sys wd) as [sys1 wd1].
    cbn in Hi1, Hu1, Hsub1, Hsup1.
    destruct (IH sys1 wd1 Hi1 Hu1) as (Hi2 & Hu2 & Hsub & Hsup).
    split; [exact Hi2|]. split; [exact Hu2|]. split.
    + etransitivity; eassumption.
    + intros x Hx. apply Hsup in Hx. cbn [map list_to_set].
      apply elem_of_union in Hx. destruct Hx as [Hx|Hx].
      * apply Hsup1 in Hx. apply elem_of_union in Hx. destruct Hx as [Hx|Hx].
        -- apply elem_of_union_l, Hx.
        -- apply elem_of_union_r, elem_of_union_l, Hx.
      * apply elem_of_union_r, elem_of_union_r, Hx.
Qed.

Lemma forAttachments_uninitialized (email : ProcessedEmail) (atts : list GmailAttachment)
    (sys : System) (wd : World) :
  gmail (gmailWatcher sys) = false ->
  forAttachments sv email atts sys wd = (sys, wd).
Proof.
  intros Hg. induction atts as [|att more IH]; [reflexivity|].
  cbn [forAttachments]. unfold processAttachment, downloadAttachment at 1.
  rewrite Hg. cbn. exact IH.
Qed.

Lemma forEmails_uninitialized (emails : list ProcessedEmail) (sys : System) (wd : World) :
  gmail (gmailWatcher sys) = false ->
  forEmails sv emails sys wd = (sys, wd).
Proof.
  intros Hg. induction emails as [|email more IH]; [reflexivity|].
  cbn [forEmails]. unfold processEmail.
  rewrite forAttachments_uninitialized by exact Hg. exact IH.
Qed.

End Pipeline.

(** X10: one poll ([checkAndProcessEmails]) on a ledger with its header row
    and at most one row per identifier keeps both properties, loses no
    identifier, and every identifier it adds to the ledger is that of a
    message first seen by this very poll (it is in the seen set afterwards
    and was not before). *)
Theorem X10_poll_keeps_ledger_invariants {World : Type} (sv : Services World)
    (sys : System) (wd : World) :
  initialized (excelWriter sys) -> atMostOnePerId (excelWriter sys) ->
  let sys' := fst (checkAndProcessEmails sv sys wd) in
  initialized (excelWriter sys') /\ atMostOnePerId (excelWriter sys')
  /\ ledgerIds (excelWriter sys) ⊆ ledgerIds (excelWriter sys')
  /\ forall id, id ∈ ledgerIds (excelWriter sys') -> id ∉ ledgerIds (excelWriter sys) ->
       (id ∈ processedMessages (gmailWatcher sys'))
       /\ (id ∉ processedMessages (gmailWatcher sys)).
Proof.
  intros Hi Hu. cbn zeta.
  pose proof (checkAndProcessEmails_watcher sv sys wd) as Hw.
  pose proof (checkForNewMessages_spec (messagesList sv) (messagesGet sv) (dateOf sv)
                (now sv) (gmailWatcher sys) wd) as Hspec.
  cbn zeta in Hspec. unfold checkAndProcessEmails in *.
  destruct (checkForNewMessages _ _ _ _ (gmailWatcher sys) wd) as [[[emails|e] w1] wd1];
    cbn in Hspec, Hw |- *.
  - destruct Hspec as (_ & _ & Hret). destruct (Hret emails eq_refl) as [_ Hids].
    destruct (length emails =? 0).
    + cbn. split; [exact Hi|]. split; [exact Hu|]. split; [reflexivity|].
      intros id Hin Hnin. contradiction.
    + destruct (forEmails_ledger sv emails
                  {| gmailWatcher := w1; excelWriter := excelWriter sys |} wd1 Hi Hu)
        as (Hi' & Hu' & Hsub & Hsup).
      cbn in Hsub, Hsup.
      split; [exact Hi'|]. split; [exact Hu'|]. split; [exact Hsub|].
      intros id Hin Hnin. apply Hsup in Hin. apply elem_of_union in Hin.
      destruct Hin as [Hin|Hin]; [contradiction|].
      apply elem_of_list_to_set, list_elem_of_In, in_map_iff in Hin.
      destruct Hin as (em & <- & Hem). rewrite Hw. apply and_comm. apply Hids. exact Hem.
  - split; [exact Hi|]. split; [exact Hu|]. split; [reflexivity|].
    intros id Hin Hnin. contradiction.
Qed.

Lemma X10_poll_keeps_ledger_invariants_witness :
  let sys' := fst (checkAndProcessEmails exampleServices exampleSystem 0) in
  initialized (excelWriter exampleSystem) /\ atMostOnePerId (excelWriter exampleSystem)
  /\ atMostOnePerId (excelWriter sys')
  /\ ledgerIds (excelWriter exampleSystem) ⊆ ledgerIds (excelWriter sys').
Proof.
  cbn zeta.
  assert (Hi : initialized (excelWriter exampleSystem)).
  { eexists. split; [reflexivity|]. vm_compute. lia. }
  assert (Hu : atMostOnePerId (excelWriter exampleSystem)).
  { intros mid. cbn. lia. }
  destruct (X10_poll_keeps_ledger_invariants exampleServices exampleSystem 0 Hi Hu)
    as (_ & Hu' & Hsub & _).
  split; [exact Hi|]. split; [exact Hu|]. split; [exact Hu'|exact Hsub].
Defined.

(** X11: when the processing of an attachment returns normally (the only
    path on which the message is labelled PROCESSED), the download and the
    parse succeeded and the sheet in memory holds a row for the message.
    Either that row was added at this turn, and then the save of the sheet
    ending with it returned normally before the label was applied; or a
    row for the message was already in the sheet in memory, and then
    nothing is saved at this turn and the label is applied all the same.
    In the second case the label does not tell that the row was ever
    saved. *)
Theorem X11_processed_implies_row {World : Type} (sv : Services World)
    (email : ProcessedEmail) (att : GmailAttachment) (sys : System) (wd : World) :
  initialized (excelWriter sys) ->
  fst (fst (processAttachment sv email att sys wd)) = Ok tt ->
  let out := processAttachment sv email att sys wd in
  rowsWithId (excelWriter (snd (fst out))) (GmailWatcher.messageId email) <> []
  /\ exists buf wd1 parsed wd2,
       downloadAttachment (attachmentsGet sv) (gmailWatcher sys)
         (GmailWatcher.messageId email) (attachmentId att) wd = (Ok buf, wd1)
       /\ PDFParser.parsePDF (pdfParse sv) buf wd1 = (Ok parsed, wd2)
       /\ ((rowsWithId (excelWriter sys) (GmailWatcher.messageId email) <> []
            /\ snd (fst out) = sys
            /\ snd out = snd (labelProcessed sv (GmailWatcher.messageId email) wd2))
           \/ (rowsWithId (excelWriter sys) (GmailWatcher.messageId email) = []
               /\ exists sheet wd3,
                    ExcelWriter.rows sheet
                    = ExcelWriter.rows (sheetOf (excelWriter sys))
                      ++ [newRow (solicitudData email parsed)]
                    /\ excelWriter (snd (fst out))
                       = {| ExcelWriter.worksheet := Some sheet |}
                    /\ writeFile sv sheet wd2 = (Ok tt, wd3)
                    /\ snd out
                       = snd (labelProcessed sv (GmailWatcher.messageId email) wd3))).
Proof.
  intros Hi. cbn zeta.
  pose proof (processAttachment_cases sv email att sys wd Hi) as H.
  destruct (downloadAttachment _ _ _ _ wd) as [[buf|e] wd1] eqn:Hd;
    [|rewrite H; discriminate].
  destruct (PDFParser.parsePDF _ buf wd1) as [[parsed|e] wd2] eqn:Hp;
    [|rewrite H; discriminate].
  destruct H as (Hg & [(Hrow & Heq)|(Hnone & sheet & Hrows & Heq)]).
  - rewrite Heq. cbn [fst snd]. intros _. split; [exact Hrow|].
    exists buf, wd1, parsed, wd2. split; [first [exact Hd|reflexivity]|].
    split; [exact Hp|].
    left. split; [exact Hrow|]. split; [reflexivity|reflexivity].
  - rewrite Heq. destruct (writeFile sv sheet wd2) as [[[]|e] wd3] eqn:Hw;
      cbn [fst snd]; [|discriminate].
    intros _. split.
    + unfold rowsWithId, dataRows. cbn [excelWriter ExcelWriter.worksheet].
      rewrite Hrows. destruct Hi as (ws & Hws & Hn).
      unfold sheetOf. rewrite Hws. cbn [default]. unfold id.
      unfold ExcelWriter.rowCount in Hn.
      destruct (ExcelWriter.rows ws) as [|h t]; [cbn in Hn; lia|].
      cbn [app drop]. rewrite ?drop_0, List.filter_app. cbn [List.filter].
      rewrite hasId_newRow. unfold jsstring_eqb.
      rewrite bool_decide_eq_true_2 by reflexivity.
      destruct (List.filter _ t); discriminate.
    + exists buf, wd1, parsed, wd2. split; [first [exact Hd|reflexivity]|].
    split; [exact Hp|].
      right. split; [exact Hnone|]. exists sheet, wd3.
      split; [exact Hrows|]. split; [reflexivity|]. split; [exact Hw|reflexivity].
Qed.

(** A message with two PDFs when the first save throws: the first PDF adds
    the row in memory and fails, the second finds the row, saves nothing
    and the message is labelled, while no version of the file was ever
    written. *)
Lemma X11_processed_implies_row_witness :
  let sv := faultyServices None (Some 0) in
  let first := processAttachment sv twoPdfEmail
                 (exampleAttachment "FACTURA.pdf" "application/pdf")
                 exampleSystem untouched in
  let second := processAttachment sv twoPdfEmail
                  (exampleAttachment "ANEXO.pdf" "application/pdf")
                  (snd (fst first)) (snd first) in
  fst (fst first) = Throw (Error (js "EBUSY: resource busy or locked"))
  /\ initialized (excelWriter (snd (fst first)))
  /\ fst (fst second) = Ok tt
  /\ rowsWithId (excelWriter (snd (fst second))) (js "m1") <> []
  /\ labelledIds (snd second) = [js "m1"]
  /\ savedVersions (snd second) = [].
Proof.
  cbn zeta.
  set (sv := faultyServices None (Some 0)).
  set (first := processAttachment sv twoPdfEmail
                  (exampleAttachment "FACTURA.pdf" "application/pdf")
                  exampleSystem untouched).
  assert (Hi : initialized (excelWriter (snd (fst first)))).
  { eexists. split; [vm_compute; reflexivity|]. vm_compute. lia. }
  assert (Hok : fst (fst (processAttachment sv twoPdfEmail
                            (exampleAttachment "ANEXO.pdf" "application/pdf")
                            (snd (fst first)) (snd first))) = Ok tt)
    by (vm_compute; reflexivity).
  split; [vm_compute; reflexivity|]. split; [exact Hi|]. split; [exact Hok|].
  split; [|split; vm_compute; reflexivity].
  exact (proj1 (X11_processed_implies_row sv twoPdfEmail
                  (exampleAttachment "ANEXO.pdf" "application/pdf")
                  (snd (fst first)) (snd first) Hi Hok)).
Defined.

(** X12: while the Gmail client is not set, a poll and the processing of
    any batch do nothing at all: the system and the world (mailbox, files)
    are returned as they were. *)
Theorem X12_uninitialized_does_nothing {World : Type} (sv : Services World)
    (emails : list ProcessedEmail) (sys : System) (wd : World) :
  gmail (gmailWatcher sys) = false ->
  forEmails sv emails sys wd = (sys, wd)
  /\ checkAndProcessEmails sv sys wd = (sys, wd).
Proof.
  intros Hg. split; [apply forEmails_uninitialized; exact Hg|].
  unfold checkAndProcessEmails, checkForNewMessages. rewrite Hg. cbn.
  destruct sys. reflexivity.
Qed.

Lemma X12_uninitialized_does_nothing_witness :
  let sys := {| gmailWatcher := {| gmail := false; processedMessages := ∅ |};
                excelWriter := freshLedger |} in
  gmail (gmailWatcher sys) = false
  /\ forEmails exampleServices [exampleBatchEmail "m1"] sys 0 = (sys, 0)
  /\ checkAndProcessEmails exampleServices sys 0 = (sys, 0).
Proof.
  cbn zeta. split; [reflexivity|].
  apply (X12_uninitialized_does_nothing exampleServices [exampleBatchEmail "m1"]
           {| gmailWatcher := {| gmail := false; processedMessages := ∅ |};
              excelWriter := freshLedger |} 0).
  reflexivity.
Defined.

(** ** The matcher: what a match consists of *)

Section MatcherSound.

Variable G : nat -> jsstring -> Prop.
Variable whole : jsstring.

Lemma stateOf_step (x y : mstate) (w : jsstring) :
  stateOf whole x -> rest x = w ++ rest y -> pos y = pos x + length w ->
  stateOf whole y.
Proof.
  intros [Hr Hp] Hw Hy. unfold stateOf.
  assert (Hlen : length (rest x) = length whole - pos x)
    by (rewrite Hr; apply length_drop).
  rewrite Hw, length_app in Hlen. split; [|lia].
  assert (Hd : drop (length w) (rest x) = rest y)
    by (rewrite Hw; apply drop_app_length).
  rewrite <- Hd, Hr, drop_drop, Hy. reflexivity.
Qed.

Lemma substring_consumed (x y : mstate) (w : jsstring) :
  stateOf whole x -> rest x = w ++ rest y -> pos y = pos x + length w ->
  substring whole (pos x) (pos y) = w.
Proof.
  intros [Hr _] Hw Hy. unfold substring. rewrite <- Hr, Hw, Hy.
  replace (pos x + length w - pos x) with (length w) by lia.
  apply take_app_length.
Qed.

Lemma charM_sound (ok : N -> bool) (k : cont) (x z : mstate) :
  charM ok k x = Some z ->
  exists ch y, ok ch = true /\ rest x = [ch] ++ rest y /\ pos y = pos x + 1
               /\ caps y = caps x /\ k y = Some z.
Proof.
  unfold charM, advance.
  destruct (rest x) as [|c t] eqn:Hr; [discriminate|].
  destruct (ok c) eqn:Hok; [|discriminate]. cbn. intros Hk.
  exists c, {| pos := S (pos x); prev := Some c; rest := t; caps := caps x |}.
  split; [exact Hok|]. split; [reflexivity|].
  split; [cbn; lia|]. split; [reflexivity|exact Hk].
Qed.

Lemma clearCaps_within (ns : list nat) (x : mstate) :
  capturesWithin G whole (caps x) -> capturesWithin G whole (caps (clearCaps ns x)).
Proof.
  intros Hc n s e Hin. cbn in Hin. apply filter_In in Hin. apply Hc, Hin.
Qed.

Lemma clearCaps_keeps (ns : list nat) (x : mstate) (n : nat) :
  In n (map fst (caps x)) -> ~ In n ns -> In n (map fst (caps (clearCaps ns x))).
Proof.
  intros Hin Hn. apply in_map_iff in Hin. destruct Hin as ([n' se] & <- & Hin).
  apply in_map_iff. exists (n', se). split; [reflexivity|]. cbn.
  apply filter_In. split; [exact Hin|]. cbn.
  destruct (existsb (Nat.eqb n') ns) eqn:E; [|reflexivity].
  apply existsb_exists in E. destruct E as (m & Hm & Heq).
  apply Nat.eqb_eq in Heq. subst m. contradiction.
Qed.

(** No iteration: the continuation runs where the quantifier started. *)
Lemma iterated_none (fl : flags) (a : regex) (max : option nat)
    (k : cont) (x z : mstate) :
  capturesWithin G whole (caps x) -> k x = Some z ->
  iterated G whole fl a 0 max k x z.
Proof.
  intros Hc Hk. exists [], x. split; [constructor|]. split; [reflexivity|].
  split; [intros mx _; cbn; lia|]. split; [|exact Hk].
  split; [reflexivity|]. split; [cbn; lia|]. split; [exact Hc|].
  intros n [Hn _]. exact Hn.
Qed.

(** One iteration of a sound matcher followed by the rest of the
    iterations. *)
Lemma iterated_more (fl : flags) (a : regex) (min : nat) (max : option nat)
    (k d : cont) (x z : mstate) :
  sound G whole fl a ->
  max <> Some 0 ->
  stateOf whole x -> capturesWithin G whole (caps x) ->
  (forall y, stateOf whole y -> capturesWithin G whole (caps y) -> d y = Some z ->
             iterated G whole fl a (Nat.pred min) (Nat.pred <$> max) k y z) ->
  rmatch fl a d (clearCaps (groupsOf a) x) = Some z ->
  iterated G whole fl a min max k x z.
Proof.
  intros Ha Hmax Hx Hc Hd Hr.
  apply Ha in Hr; [|exact Hx|apply clearCaps_within, Hc].
  destruct Hr as (w1 & y1 & Hw1 & (Hrest & Hpos & Hc1 & Hkeep1) & Hdy).
  cbn [clearCaps rest pos] in Hrest, Hpos.
  assert (Hy1 : stateOf whole y1) by (eapply stateOf_step; eassumption).
  destruct (Hd y1 Hy1 Hc1 Hdy) as (ws & y & Hws & Hmin & Hmx & (Hrest' & Hpos' & Hc' & Hkeep') & Hk).
  exists (w1 :: ws), y. split; [constructor; assumption|].
  split; [cbn; lia|]. split.
  - intros mx ->. destruct mx as [|mx]; [contradiction|].
    specialize (Hmx mx eq_refl). cbn. lia.
  - split; [|exact Hk]. split; [cbn; rewrite Hrest, Hrest', <- app_assoc; reflexivity|].
    split; [cbn; rewrite length_app; lia|]. split; [exact Hc'|].
    intros n [Hn Hna]. apply Hkeep'. split; [|exact Hna].
    apply Hkeep1. right. split; [|exact Hna]. apply clearCaps_keeps; assumption.
Qed.

Lemma repeatM_sound (fl : flags) (a : regex) (greedy : bool) :
  sound G whole fl a ->
  forall (fuel min : nat) (max : option nat) (k : cont) (x z : mstate),
    (forall mx, max = Some mx -> min <= mx) ->
    stateOf whole x -> capturesWithin G whole (caps x) ->
    repeatM (rmatch fl a) (groupsOf a) fuel min max greedy k x = Some z ->
    iterated G whole fl a min max k x z.
Proof.
  intros Ha.
  assert (Hbody : forall (d : cont) (min : nat) (max : option nat) (k : cont) (x z : mstate),
    (forall mx, max = Some mx -> min <= mx) ->
    stateOf whole x -> capturesWithin G whole (caps x) ->
    (forall y, stateOf whole y -> capturesWithin G whole (caps y) -> d y = Some z ->
               iterated G whole fl a (Nat.pred min) (Nat.pred <$> max) k y z) ->
    match max with
    | Some 0 => k x
    | _ => if negb (min =? 0) then rmatch fl a d (clearCaps (groupsOf a) x)
           else if greedy then orElse (rmatch fl a d (clearCaps (groupsOf a) x)) (k x)
           else orElse (k x) (rmatch fl a d (clearCaps (groupsOf a) x))
    end = Some z ->
    iterated G whole fl a min max k x z).
  { intros d min max k x z Hmm Hx Hc Hd H.
    destruct (decide (max = Some 0)) as [->|Hmax].
    - specialize (Hmm 0 eq_refl). assert (min = 0) as -> by lia.
      apply iterated_none; assumption.
    - assert (H' : (if negb (min =? 0) then rmatch fl a d (clearCaps (groupsOf a) x)
                    else if greedy
                         then orElse (rmatch fl a d (clearCaps (groupsOf a) x)) (k x)
                         else orElse (k x) (rmatch fl a d (clearCaps (groupsOf a) x)))
                   = Some z)
        by (destruct max as [[|mx]|]; [contradiction|exact H|exact H]).
      clear H.
      assert (Hiter : rmatch fl a d (clearCaps (groupsOf a) x) = Some z ->
                      iterated G whole fl a min max k x z)
        by (apply iterated_more; assumption).
      destruct (min =? 0) eqn:Hmin; cbn [negb] in H'; [|apply Hiter, H'].
      apply Nat.eqb_eq in Hmin. subst min.
      destruct greedy; unfold orElse in H'.
      + destruct (rmatch fl a d (clearCaps (groupsOf a) x)) as [z'|] eqn:Hr.
        * apply Hiter. congruence.
        * apply iterated_none; assumption.
      + destruct (k x) as [z'|] eqn:Hk.
        * apply iterated_none; [assumption|congruence].
        * apply Hiter, H'. }
  induction fuel as [|f IH]; intros min max k x z Hmm Hx Hc; rewrite repeatM_unfold;
    apply Hbody; try assumption.
  - intros y _ _ Hd. destruct ((min =? 0) && (pos y =? pos x)); discriminate.
  - intros y Hy Hcy Hd. destruct ((min =? 0) && (pos y =? pos x)); [discriminate|].
    apply IH in Hd; [exact Hd| |exact Hy|exact Hcy].
    intros mx' Hmx'. destruct max as [mx|]; [|discriminate].
    injection Hmx' as <-. specialize (Hmm mx eq_refl). lia.
Qed.

Lemma setCap_entries (n s e : nat) (y : mstate) (p : nat * (nat * nat)) :
  In p (caps (setCap n s e y)) -> p = (n, (s, e)) \/ In p (caps y).
Proof.
  cbn. intros [<-|H]; [left; reflexivity|right]. apply filter_In in H. apply H.
Qed.

Lemma setCap_keeps (n s e : nat) (y : mstate) (m : nat) :
  m = n \/ In m (map fst (caps y)) -> In m (map fst (caps (setCap n s e y))).
Proof.
  cbn. intros [->|H]; [left; reflexivity|].
  destruct (Nat.eq_dec m n) as [->|Hne]; [left; reflexivity|right].
  apply in_map_iff in H. destruct H as ([m' se] & <- & Hin).
  apply in_map_iff. exists (m', se). split; [reflexivity|].
  apply filter_In. split; [exact Hin|]. cbn in *.
  apply negb_true_iff, Nat.eqb_neq. exact Hne.
Qed.

Lemma rmatch_sound (fl : flags) (r : regex) :
  groupsWithin G fl r -> sound G whole fl r.
Proof.
  induction r as [|c| |neg items|a IHa b IHb|a IHa b IHb|min max greedy a IHa
                  |n a IHa|a IHa| | |]; intros Hg k x z Hx Hc H; cbn [rmatch] in H.
  - exists [], x. split; [reflexivity|]. split; [|exact H].
    split; [reflexivity|]. split; [cbn; lia|]. split; [exact Hc|].
    intros n [[]|[Hn _]]. exact Hn.
  - apply charM_sound in H. destruct H as (ch & y & Hok & Hr & Hp & Hcy & Hk).
    exists [ch], y. split; [exists ch; split; [reflexivity|apply N.eqb_eq, Hok]|].
    split; [|exact Hk]. split; [exact Hr|]. split; [exact Hp|]. rewrite Hcy.
    split; [exact Hc|]. intros n [[]|[Hn _]]. exact Hn.
  - apply charM_sound in H. destruct H as (ch & y & Hok & Hr & Hp & Hcy & Hk).
    exists [ch], y. split; [exists ch; split; [reflexivity|apply negb_true_iff, Hok]|].
    split; [|exact Hk]. split; [exact Hr|]. split; [exact Hp|]. rewrite Hcy.
    split; [exact Hc|]. intros n [[]|[Hn _]]. exact Hn.
  - apply charM_sound in H. destruct H as (ch & y & Hok & Hr & Hp & Hcy & Hk).
    exists [ch], y. split; [exists ch; split; [reflexivity|exact Hok]|].
    split; [|exact Hk]. split; [exact Hr|]. split; [exact Hp|]. rewrite Hcy.
    split; [exact Hc|]. intros n [[]|[Hn _]]. exact Hn.
  - destruct Hg as [Hga Hgb].
    apply (IHa Hga) in H; [|exact Hx|exact Hc].
    destruct H as (w1 & y1 & Hw1 & (Hr1 & Hp1 & Hc1 & Hk1) & H).
    assert (Hy1 : stateOf whole y1) by (eapply stateOf_step; eassumption).
    apply (IHb Hgb) in H; [|exact Hy1|exact Hc1].
    destruct H as (w2 & y2 & Hw2 & (Hr2 & Hp2 & Hc2 & Hk2) & H).
    exists (w1 ++ w2), y2. split; [exists w1, w2; auto|]. split; [|exact H].
    split; [rewrite Hr1, Hr2, app_assoc; reflexivity|].
    split; [rewrite length_app; lia|]. split; [exact Hc2|].
    intros n Hn. apply Hk2. cbn [sureGroups groupsOf] in Hn.
    destruct Hn as [Hn|[Hn Hnot]].
    + apply in_app_iff in Hn. destruct Hn as [Hn|Hn]; [|left; exact Hn].
      apply filter_In in Hn. destruct Hn as [Hn Hnb]. right. split.
      * apply Hk1. left. exact Hn.
      * intros Hin. apply negb_true_iff in Hnb.
        assert (existsb (Nat.eqb n) (groupsOf b) = true)
          by (apply existsb_exists; exists n; split; [exact Hin|apply Nat.eqb_refl]).
        congruence.
    + right. split.
      * apply Hk1. right. split; [exact Hn|]. intros Hin. apply Hnot, in_app_iff. auto.
      * intros Hin. apply Hnot, in_app_iff. auto.
  - destruct Hg as [Hga Hgb]. unfold orElse in H.
    destruct (rmatch fl a k x) as [z'|] eqn:Ea.
    + apply (IHa Hga) in Ea; [|exact Hx|exact Hc].
      destruct Ea as (w & y & Hw & (Hr & Hp & Hcy & Hk) & Hky).
      exists w, y. split; [left; exact Hw|]. split; [|congruence].
      split; [exact Hr|]. split; [exact Hp|]. split; [exact Hcy|].
      intros n [[]|[Hn Hnot]]. apply Hk. right. split; [exact Hn|].
      intros Hin. apply Hnot. cbn. apply in_app_iff. auto.
    + apply (IHb Hgb) in H; [|exact Hx|exact Hc].
      destruct H as (w & y & Hw & (Hr & Hp & Hcy & Hk) & Hky).
      exists w, y. split; [right; exact Hw|]. split; [|exact Hky].
      split; [exact Hr|]. split; [exact Hp|]. split; [exact Hcy|].
      intros n [[]|[Hn Hnot]]. apply Hk. right. split; [exact Hn|].
      intros Hin. apply Hnot. cbn. apply in_app_iff. auto.
  - destruct Hg as [Hmm Hga].
    apply (repeatM_sound fl a greedy (IHa Hga)) in H; [|exact Hmm|exact Hx|exact Hc].
    destruct H as (ws & y & Hws & Hmin & Hmx & (Hr & Hp & Hcy & Hk) & Hky).
    exists (concat ws), y. split; [exists ws; auto|]. split; [|exact Hky].
    split; [exact Hr|]. split; [exact Hp|]. split; [exact Hcy|].
    intros n [[]|Hn]. apply Hk. exact Hn.
  - destruct Hg as [Hgn Hga].
    apply (IHa Hga) in H; [|exact Hx|exact Hc].
    destruct H as (w & y & Hw & (Hr & Hp & Hcy & Hk) & Hky).
    exists w, (setCap n (pos x) (pos y) y). split; [exact Hw|]. split; [|exact Hky].
    split; [exact Hr|]. split; [exact Hp|]. split.
    + intros n' s e Hin. apply setCap_entries in Hin. destruct Hin as [Heq|Hin].
      * injection Heq as -> -> ->. rewrite (substring_consumed x y w); auto.
      * apply (Hcy n' s e Hin).
    + intros m Hm. apply setCap_keeps. cbn [sureGroups groupsOf] in Hm.
      destruct Hm as [[<-|Hm]|[Hm Hnot]]; [left; reflexivity| |].
      * right. apply Hk. left. exact Hm.
      * right. apply Hk. right. split; [exact Hm|]. intros Hin. apply Hnot. right. exact Hin.
  - destruct (rmatch fl a Some x) as [y1|] eqn:Ea; [|discriminate].
    apply (IHa Hg) in Ea; [|exact Hx|exact Hc].
    destruct Ea as (w & y & Hw & (Hr & Hp & Hcy & Hk) & Hky). injection Hky as ->.
    eexists [], _. split; [reflexivity|]. split; [|exact H].
    split; [reflexivity|]. split; [cbn; lia|]. split; [exact Hcy|].
    intros n Hn. apply Hk. exact Hn.
  - destruct (xorb _ _); [|discriminate].
    exists [], x. split; [reflexivity|]. split; [|exact H].
    split; [reflexivity|]. split; [cbn; lia|]. split; [exact Hc|].
    intros n [[]|[Hn _]]. exact Hn.
  - assert (Hk : k x = Some z).
    { destruct (prev x) as [c|]; [|exact H].
      destruct (multiline fl && isLineTerminator c); [exact H|discriminate]. }
    exists [], x. split; [reflexivity|]. split; [|exact Hk].
    split; [reflexivity|]. split; [cbn; lia|]. split; [exact Hc|].
    intros n [[]|[Hn _]]. exact Hn.
  - assert (Hk : k x = Some z).
    { destruct (rest x) as [|c t]; [exact H|].
      destruct (multiline fl && isLineTerminator c); [exact H|discriminate]. }
    exists [], x. split; [reflexivity|]. split; [|exact Hk].
    split; [reflexivity|]. split; [cbn; lia|]. split; [exact Hc|].
    intros n [[]|[Hn _]]. exact Hn.
Qed.

End MatcherSound.

Lemma attempt_sound (G : nat -> jsstring -> Prop) (fl : flags) (r : regex)
    (subject s : jsstring) (start : nat) (before : option N) (y : mstate) :
  groupsWithin G fl r ->
  s = drop start subject -> start <= length subject ->
  rmatch fl r Some {| pos := start; prev := before; rest := s; caps := [] |} = Some y ->
  let m := {| input := subject; index := start; lastIndex := pos y;
              captures := caps y |} in
  lang fl r (whole m)
  /\ (forall n w, group m n = Some w -> G n w)
  /\ (forall n, In n (sureGroups r) -> exists w, group m n = Some w).
Proof.
  intros Hg Hs Hstart Hr. cbn zeta.
  assert (Hx : stateOf subject {| pos := start; prev := before; rest := s; caps := [] |})
    by (split; [exact Hs|exact Hstart]).
  apply (rmatch_sound G subject fl r Hg) in Hr; [|exact Hx|intros n s0 e []].
  destruct Hr as (w & y' & Hw & (Hrest & Hpos & Hcy & Hkeep) & Hy).
  injection Hy as ->.
  split; [|split].
  - unfold whole. cbn [input index lastIndex].
    pose proof (substring_consumed subject _ y w Hx Hrest Hpos) as Hsub.
    cbn [pos] in Hsub. rewrite Hsub. exact Hw.
  - intros n w0. unfold group. cbn [captures input].
    destruct (find (fun p => fst p =? n) (caps y)) as [[n' [s0 e]]|] eqn:Hf;
      [|discriminate].
    intros [= <-]. apply find_some in Hf. destruct Hf as [Hin Heq].
    cbn in Heq. apply Nat.eqb_eq in Heq. subst n'. exact (Hcy n s0 e Hin).
  - intros n Hn. unfold group. cbn [captures input].
    assert (Hin : In n (map fst (caps y))) by (apply Hkeep; left; exact Hn).
    apply in_map_iff in Hin. destruct Hin as ([n' [s0 e]] & Heq & Hin).
    cbn in Heq. subst n'.
    destruct (find (fun p => fst p =? n) (caps y)) as [[n' [s1 e1]]|] eqn:Hf;
      [eexists; reflexivity|].
    exfalso. apply (find_none _ _ Hf) in Hin. cbn in Hin.
    rewrite Nat.eqb_refl in Hin. discriminate.
Qed.

(** What [s.match(re)] returns: the match is a stretch of the input that
    the pattern can consume, every group that captured holds a word its
    sub-pattern can consume, and the groups that always take part have
    captured. *)
Lemma searchFrom_sound (G : nat -> jsstring -> Prop) (fl : flags) (r : regex)
    (subject : jsstring) :
  groupsWithin G fl r ->
  forall (s : jsstring) (start : nat) (before : option N) (m : MatchResult),
    s = drop start subject -> start <= length subject ->
    searchFrom fl r subject start before s = Some m ->
    input m = subject
    /\ lang fl r (whole m)
    /\ (forall n w, group m n = Some w -> G n w)
    /\ (forall n, In n (sureGroups r) -> exists w, group m n = Some w).
Proof.
  intros Hg. induction s as [|c t IH]; intros start before m Hs Hstart; cbn [searchFrom].
  - destruct (rmatch fl r Some _) as [y|] eqn:Hr; [|discriminate].
    intros [= <-]. split; [reflexivity|].
    apply (attempt_sound G fl r subject [] start before y Hg Hs Hstart Hr).
  - destruct (rmatch fl r Some _) as [y|] eqn:Hr.
    + intros [= <-]. split; [reflexivity|].
      apply (attempt_sound G fl r subject (c :: t) start before y Hg Hs Hstart Hr).
    + apply IH.
      * assert (Hd : drop (S start) subject = drop 1 (drop start subject))
          by (rewrite drop_drop; f_equal; lia).
        rewrite Hd, <- Hs. reflexivity.
      * assert (Hlen : length (c :: t) = length subject - start)
          by (rewrite Hs; apply length_drop).
        cbn in Hlen. lia.
Qed.

Lemma jsmatch_sound (G : nat -> jsstring -> Prop) (p : flags * regex)
    (subject : jsstring) (m : MatchResult) :
  groupsWithin G (fst p) (snd p) ->
  PDFParser.matchWith p subject = Some m ->
  input m = subject
  /\ lang (fst p) (snd p) (whole m)
  /\ (forall n w, group m n = Some w -> G n w)
  /\ (forall n, In n (sureGroups (snd p)) -> exists w, group m n = Some w).
Proof.
  intros Hg H. unfold PDFParser.matchWith, jsmatch in H.
  apply (searchFrom_sound G (fst p) (snd p) subject Hg subject 0 None m);
    [reflexivity|lia|exact H].
Qed.

(** The first group of a pattern in which group 1 always takes part. *)
Lemma group1_sound (G : nat -> jsstring -> Prop) (p : flags * regex)
    (subject : jsstring) (m : MatchResult) :
  groupsWithin G (fst p) (snd p) ->
  In 1 (sureGroups (snd p)) ->
  PDFParser.matchWith p subject = Some m ->
  G 1 (PDFParser.group1 m).
Proof.
  intros Hg Hs H. destruct (jsmatch_sound G p subject m Hg H) as (_ & _ & Hgr & Hsure).
  destruct (Hsure 1 Hs) as (w & Hw). unfold PDFParser.group1. rewrite Hw. cbn.
  apply (Hgr 1 w Hw).
Qed.

(** ** Code units and case *)

Lemma between_spec (lo hi c : N) :
  between lo hi c = true <-> (lo <= c <= hi)%N.
Proof.
  unfold between. rewrite andb_true_iff, !N.leb_le. reflexivity.
Qed.

Lemma between_false (lo hi c : N) :
  between lo hi c = false <-> (c < lo \/ hi < c)%N.
Proof.
  unfold between. rewrite andb_false_iff, !N.leb_gt. reflexivity.
Qed.

(** The cases of the upper-case table. *)
Lemma upperUnit_cases (c : N) :
  ((97 <= c <= 122)%N /\ upperUnit c = (c - 32)%N)
  \/ ((224 <= c <= 254)%N /\ upperUnit c = (c - 32)%N)
  \/ (c = 255%N /\ upperUnit c = 376%N)
  \/ (c = 181%N /\ upperUnit c = 924%N)
  \/ ((c < 97 \/ 122 < c)%N /\ upperUnit c = c).
Proof.
  unfold upperUnit.
  destruct (between 97 122 c) eqn:E1.
  { apply between_spec in E1. left. split; [exact E1|reflexivity]. }
  apply between_false in E1.
  destruct (between 224 254 c) eqn:E2.
  { apply between_spec in E2. cbn [andb].
    destruct (N.eqb_spec c 247) as [->|Hne]; cbn [negb].
    - right. right. right. right. split; [lia|reflexivity].
    - right. left. split; [exact E2|reflexivity]. }
  cbn [andb].
  destruct (N.eqb_spec c 255) as [->|H255].
  { right. right. left. split; reflexivity. }
  destruct (N.eqb_spec c 181) as [->|H181].
  { right. right. right. left. split; reflexivity. }
  right. right. right. right. split; [exact E1|reflexivity].
Qed.

Lemma canonicalize_cases (fl : flags) (c : N) :
  canonicalize fl c = c
  \/ ((97 <= c <= 122)%N /\ canonicalize fl c = (c - 32)%N)
  \/ ((192 <= canonicalize fl c)%N).
Proof.
  unfold canonicalize. destruct (ignoreCase fl); [|left; reflexivity].
  destruct ((128 <=? c)%N && (upperUnit c <? 128)%N); [left; reflexivity|].
  destruct (upperUnit_cases c) as [[H E]|[[H E]|[[H E]|[[H E]|[H E]]]]]; rewrite E.
  - right. left. split; [exact H|reflexivity].
  - right. right. lia.
  - right. right. lia.
  - right. right. lia.
  - left. reflexivity.
Qed.

Lemma canonicalize_below_letters (fl : flags) (ch c : N) :
  (c < 65)%N -> canonicalize fl ch = canonicalize fl c -> ch = c.
Proof.
  intros Hc H.
  destruct (canonicalize_cases fl c) as [Ec|[[Hr Ec]|Ec]]; [|lia|].
  - rewrite Ec in H.
    destruct (canonicalize_cases fl ch) as [E|[[Hr E]|E]]; [congruence|lia|lia].
  - destruct (canonicalize_cases fl ch) as [E|[[Hr E]|E]].
    + (* c is below 65, so its canonical form is c itself *)
      exfalso. clear H E. revert Ec. unfold canonicalize.
      destruct (ignoreCase fl); [|lia].
      destruct (upperUnit_cases c) as [[H0 E0]|[[H0 E0]|[[H0 E0]|[[H0 E0]|[H0 E0]]]]];
        try lia.
      rewrite E0. destruct ((128 <=? c)%N && (c <? 128)%N); lia.
    + exfalso. revert Ec. unfold canonicalize.
      destruct (ignoreCase fl); [|lia].
      destruct (upperUnit_cases c) as [[H0 E0]|[[H0 E0]|[[H0 E0]|[[H0 E0]|[H0 E0]]]]];
        try lia.
      rewrite E0. destruct ((128 <=? c)%N && (c <? 128)%N); lia.
    + exfalso. revert Ec. unfold canonicalize.
      destruct (ignoreCase fl); [|lia].
      destruct (upperUnit_cases c) as [[H0 E0]|[[H0 E0]|[[H0 E0]|[[H0 E0]|[H0 E0]]]]];
        try lia.
      rewrite E0. destruct ((128 <=? c)%N && (c <? 128)%N); lia.
Qed.

Lemma canonicalize_capital (fl : flags) (ch c : N) :
  (65 <= c <= 90)%N -> canonicalize fl ch = canonicalize fl c ->
  (65 <= ch <= 90)%N \/ (97 <= ch <= 122)%N.
Proof.
  intros Hc H.
  assert (Ec : canonicalize fl c = c).
  { unfold canonicalize. destruct (ignoreCase fl); [|reflexivity].
    destruct (upperUnit_cases c) as [[H0 E0]|[[H0 E0]|[[H0 E0]|[[H0 E0]|[H0 E0]]]]];
      try lia.
    rewrite E0. destruct ((128 <=? c)%N && (c <? 128)%N); reflexivity. }
  rewrite Ec in H.
  destruct (canonicalize_cases fl ch) as [E|[[Hr E]|E]]; [left; lia|right; lia|lia].
Qed.

Lemma letter_not_space (c : N) :
  (65 <= c <= 90)%N \/ (97 <= c <= 122)%N -> isWhiteSpace c = false.
Proof.
  intros H. unfold isWhiteSpace.
  repeat (apply orb_false_iff; split);
    try (apply between_false; lia); apply N.eqb_neq; lia.
Qed.

Lemma digit_not_space (c : N) : isDigit c = true -> isWhiteSpace c = false.
Proof.
  intros H. apply between_spec in H. unfold isWhiteSpace.
  repeat (apply orb_false_iff; split);
    try (apply between_false; lia); apply N.eqb_neq; lia.
Qed.

(** ** Amounts *)

Lemma concat_units (P : N -> Prop) (ws : list jsstring) :
  Forall (fun w => exists ch, w = [ch] /\ P ch) ws ->
  Forall P (concat ws) /\ length (concat ws) = length ws.
Proof.
  induction 1 as [|w ws (ch & -> & Hch) _ [IH1 IH2]]; [split; [constructor|reflexivity]|].
  cbn. split; [constructor; assumption|lia].
Qed.

Lemma lang_amountDigits (fl : flags) (w : jsstring) :
  lang fl PDFParser.amountDigits w ->
  exists body frac,
    w = body ++ frac
    /\ Forall (fun c => isDigit c = true \/ c = chr ",") body
    /\ (frac = [] \/ exists d1 d2, frac = [chr "."; d1; d2]
                                   /\ isDigit d1 = true /\ isDigit d2 = true).
Proof.
  unfold PDFParser.amountDigits, plus, opt, exactly, digit. cbn [lang].
  intros (w1 & w2 & -> & (ws1 & -> & Hws1 & _ & _) & (ws2 & -> & Hws2 & _ & Hmax)).
  exists (concat ws1), (concat ws2). split; [reflexivity|]. split.
  - apply (concat_units (fun c => isDigit c = true \/ c = chr ",")).
    eapply List.Forall_impl; [|exact Hws1]. cbn beta.
    intros w (ch & -> & Hch). exists ch. split; [reflexivity|].
    cbn [xorb existsb itemMatches] in Hch. rewrite orb_false_r in Hch.
    apply orb_true_iff in Hch.
    destruct Hch as [Hd|Hc]; [left; exact Hd|right].
    apply N.eqb_eq in Hc. symmetry in Hc.
    apply canonicalize_below_letters in Hc; [exact Hc|reflexivity].
  - specialize (Hmax 1 eq_refl).
    destruct ws2 as [|f [|f' ws2]]; [left; reflexivity| |cbn in Hmax; lia].
    right. inversion Hws2 as [|? ? Hf _]; subst.
    destruct Hf as (p & q & -> & (ch & -> & Hch) & (ds & -> & Hds & Hmin & Hmx)).
    specialize (Hmx 2 eq_refl).
    destruct ds as [|a [|b [|c ds]]]; cbn in Hmin, Hmx; try lia.
    inversion Hds as [|? ? (d1 & -> & Hd1) Hds']; subst.
    inversion Hds' as [|? ? (d2 & -> & Hd2) _]; subst.
    apply canonicalize_below_letters in Hch; [|reflexivity]. subst ch.
    cbn [xorb existsb itemMatches] in Hd1, Hd2. rewrite orb_false_r in Hd1, Hd2.
    exists d1, d2. auto.
Qed.

Lemma firstPattern_Some (patterns : list (flags * regex)) (subject : jsstring)
    (m : MatchResult) :
  PDFParser.firstPattern patterns subject = Some m ->
  exists p, In p patterns /\ PDFParser.matchWith p subject = Some m.
Proof.
  induction patterns as [|p more IH]; cbn; [discriminate|].
  destruct (PDFParser.matchWith p subject) as [m'|] eqn:E.
  - intros [= ->]. exists p. split; [left; reflexivity|exact E].
  - intros H. destruct (IH H) as (q & Hq & Hm). exists q. split; [right; exact Hq|exact Hm].
Qed.

Lemma amount_group (subject : jsstring) (m : MatchResult) :
  PDFParser.firstPattern PDFParser.amountPatterns subject = Some m ->
  exists fl, lang fl PDFParser.amountDigits (PDFParser.group1 m).
Proof.
  intros H. apply firstPattern_Some in H. destruct H as (p & Hp & Hm).
  exists (fst p).
  apply (group1_sound (fun _ w => lang (fst p) PDFParser.amountDigits w) p subject m);
    [| |exact Hm].
  - cbn in Hp. destruct Hp as [<-|[<-|[<-|[<-|[]]]]]; cbn;
      repeat split; auto; intros mx [= <-]; lia.
  - cbn in Hp. destruct Hp as [<-|[<-|[<-|[<-|[]]]]]; cbn; auto.
Qed.

Lemma digit_cases (d : N) :
  isDigit d = true ->
  d = 48%N \/ d = 49%N \/ d = 50%N \/ d = 51%N \/ d = 52%N
  \/ d = 53%N \/ d = 54%N \/ d = 55%N \/ d = 56%N \/ d = 57%N.
Proof. intros H. apply between_spec in H. lia. Qed.

Lemma filter_all {A : Type} (f : A -> bool) (l : list A) :
  (forall x, In x l -> f x = true) -> List.filter f l = l.
Proof.
  induction l as [|x l IH]; intros H; [reflexivity|]. cbn.
  rewrite (H x (or_introl eq_refl)). f_equal. apply IH. intros y Hy. apply H. right. exact Hy.
Qed.

Lemma trimStart_unchanged (s : jsstring) :
  (forall c, In c s -> isWhiteSpace c = false) -> trimStart s = s.
Proof.
  destruct s as [|c t]; [reflexivity|]. intros H. cbn.
  rewrite (H c (or_introl eq_refl)). reflexivity.
Qed.

Lemma trim_unchanged (s : jsstring) :
  (forall c, In c s -> isWhiteSpace c = false) -> trim s = s.
Proof.
  intros H. unfold trim, trimEnd. rewrite (trimStart_unchanged s H).
  rewrite trimStart_unchanged; [apply rev_involutive|].
  intros c Hc. apply H. apply in_rev. exact Hc.
Qed.

Lemma spanDigits_app (ds r : jsstring) :
  Forall (fun c => isDigit c = true) ds ->
  (forall c t, r = c :: t -> isDigit c = false) ->
  spanDigits (ds ++ r) = (ds, r).
Proof.
  intros Hds Hr. induction Hds as [|d ds Hd _ IH].
  - cbn. destruct r as [|c t]; [reflexivity|]. cbn. rewrite (Hr c t eq_refl). reflexivity.
  - cbn. rewrite Hd, IH. reflexivity.
Qed.

Lemma spanDigits_two (d1 d2 : N) :
  isDigit d1 = true -> isDigit d2 = true -> spanDigits [d1; d2] = ([d1; d2], []).
Proof.
  intros H1 H2. apply (spanDigits_app [d1; d2] []);
    [constructor; [exact H1|constructor; [exact H2|constructor]]|discriminate].
Qed.

(** [parseFloat] on a text that starts with a digit. *)
Lemma parseFloat_digit_first (d : N) (u : jsstring) :
  isDigit d = true ->
  parseFloat (d :: u)
  = (let '(ip, r1) := spanDigits (d :: u) in
     let '(fp, r2) := match r1 with
                      | 46%N :: r => spanDigits r
                      | _ => ([], r1)
                      end in
     match ip ++ fp with
     | [] => None
     | ds => Some (Finite false (digitsValue ds)
                          (exponentPart r2 - Z.of_nat (length fp))%Z)
     end).
Proof.
  intros H.
  destruct (digit_cases d H) as [->|[->|[->|[->|[->|[->|[->|[->|[->| ->]]]]]]]]];
    reflexivity.
Qed.

Lemma parseFloat_point_first (u : jsstring) :
  parseFloat (46%N :: u)
  = match spanDigits u with
    | ([], _) => None
    | (fp, r2) => Some (Finite false (digitsValue fp)
                               (exponentPart r2 - Z.of_nat (length fp))%Z)
    end.
Proof.
  unfold parseFloat.
  cbn -[spanDigits digitsValue exponentPart Z.sub Z.of_nat length app].
  cbn [spanDigits isDigit between N.leb N.compare Pos.compare Pos.compare_cont andb].
  cbn -[spanDigits digitsValue exponentPart Z.sub Z.of_nat length app].
  destruct (spanDigits u) as [[|x l] r2]; reflexivity.
Qed.

Lemma parseFloat_amountText (a : jsstring) :
  isAmountText a -> a <> [] ->
  exists m e, parseFloat a = Some (Finite false m e) /\ (e = 0 \/ e = -2)%Z.
Proof.
  intros (ds & frac & -> & Hds & Hfrac) Hne.
  assert (Hfr : forall c t, frac = c :: t -> isDigit c = false).
  { intros c t Hc. destruct Hfrac as [->|(d1 & d2 & -> & _)]; [discriminate|].
    injection Hc as <- _. reflexivity. }
  destruct ds as [|d ds].
  - destruct Hfrac as [->|(d1 & d2 & -> & Hd1 & Hd2)]; [contradiction|].
    cbn [app]. change (chr ".") with 46%N. rewrite parseFloat_point_first.
    rewrite (spanDigits_two d1 d2 Hd1 Hd2).
    eexists _, _. split; [reflexivity|]. right. reflexivity.
  - inversion Hds as [|? ? Hd Hds']; subst.
    change ((d :: ds) ++ frac) with (d :: (ds ++ frac)).
    rewrite (parseFloat_digit_first d (ds ++ frac) Hd).
    change (d :: (ds ++ frac)) with ((d :: ds) ++ frac).
    rewrite (spanDigits_app (d :: ds) frac Hds Hfr).
    destruct Hfrac as [->|(d1 & d2 & -> & Hd1 & Hd2)].
    + cbn -[digitsValue]. eexists _, _. split; [reflexivity|]. left. reflexivity.
    + change (chr ".") with 46%N. cbn iota beta zeta.
      rewrite (spanDigits_two d1 d2 Hd1 Hd2).
      cbn -[digitsValue]. eexists _, _. split; [reflexivity|]. right. reflexivity.
Qed.

Lemma amountText_units (a : jsstring) :
  isAmountText a -> forall c, In c a -> isDigit c = true \/ c = chr ".".
Proof.
  intros (ds & frac & -> & Hds & Hfrac) c Hc. apply in_app_iff in Hc.
  destruct Hc as [Hc|Hc].
  - left. rewrite List.Forall_forall in Hds. apply Hds, Hc.
  - destruct Hfrac as [->|(d1 & d2 & -> & Hd1 & Hd2)]; [contradiction|].
    destruct Hc as [<-|[<-|[<-|[]]]]; auto.
Qed.

Lemma parseAmount_cleaning (a : jsstring) :
  isAmountText a -> a <> [] -> ExcelWriter.parseAmount a = parseFloat a.
Proof.
  intros Ha Hne. pose proof (amountText_units a Ha) as Hu.
  unfold ExcelWriter.parseAmount. destruct a as [|c u] eqn:Ea; [contradiction|].
  rewrite <- Ea in *.
  assert (Hs : jsstring_eqb a ExcelWriter.No_especificada = false).
  { unfold jsstring_eqb. apply bool_decide_eq_false. intros Heq.
    assert (Hc : In 78%N a) by (rewrite Heq; left; reflexivity).
    destruct (Hu 78%N Hc) as [H|H]; discriminate. }
  rewrite Hs.
  assert (Hclean : removeAll (fun c0 => (c0 =? chr "$")%N || (c0 =? chr ",")%N) a = a).
  { unfold removeAll. apply filter_all. intros x Hx.
    destruct (Hu x Hx) as [H| ->]; [|reflexivity].
    destruct (digit_cases x H) as [->|[->|[->|[->|[->|[->|[->|[->|[->| ->]]]]]]]]];
      reflexivity. }
  rewrite Hclean, trim_unchanged; [reflexivity|].
  intros x Hx. destruct (Hu x Hx) as [H| ->]; [apply digit_not_space, H|reflexivity].
Qed.

Lemma parseAmount_amountText (a : jsstring) :
  isAmountText a -> a <> [] ->
  exists m e, ExcelWriter.parseAmount a = Some (Finite false m e) /\ (e = 0 \/ e = -2)%Z.
Proof.
  intros Ha Hne. pose proof (amountText_units a Ha) as Hu.
  unfold ExcelWriter.parseAmount. destruct a as [|c u] eqn:Ea; [contradiction|].
  rewrite <- Ea in *.
  assert (Hs : jsstring_eqb a ExcelWriter.No_especificada = false).
  { unfold jsstring_eqb. apply bool_decide_eq_false. intros Heq.
    assert (Hc : In 78%N a) by (rewrite Heq; left; reflexivity).
    destruct (Hu 78%N Hc) as [H|H]; discriminate. }
  rewrite Hs.
  assert (Hclean : removeAll (fun c0 => (c0 =? chr "$")%N || (c0 =? chr ",")%N) a = a).
  { unfold removeAll. apply filter_all. intros x Hx.
    destruct (Hu x Hx) as [H| ->]; [|reflexivity].
    destruct (digit_cases x H) as [->|[->|[->|[->|[->|[->|[->|[->|[->| ->]]]]]]]]];
      reflexivity. }
  rewrite Hclean, trim_unchanged.
  - apply parseFloat_amountText; [exact Ha|rewrite Ea; discriminate].
  - intros x Hx. destruct (Hu x Hx) as [H| ->]; [apply digit_not_space, H|reflexivity].
Qed.

Lemma extractAmount_amountText (subject : jsstring) :
  isAmountText (PDFParser.extractAmountFromSubject subject).
Proof.
  unfold PDFParser.extractAmountFromSubject.
  destruct (PDFParser.firstPattern PDFParser.amountPatterns subject) as [m|] eqn:E.
  - destruct (amount_group subject m E) as (fl & Hl).
    apply lang_amountDigits in Hl. destruct Hl as (body & frac & -> & Hbody & Hfrac).
    unfold removeAll. rewrite List.filter_app.
    exists (List.filter (fun c => negb (chr "," =? c)%N) body), frac.
    split; [|split; [|exact Hfrac]].
    + f_equal. apply filter_all. intros x Hx.
      destruct Hfrac as [->|(d1 & d2 & -> & Hd1 & Hd2)]; [contradiction|].
      destruct Hx as [<-|[<-|[<-|[]]]]; [reflexivity| |].
      * destruct (digit_cases _ Hd1) as [->|[->|[->|[->|[->|[->|[->|[->|[->| ->]]]]]]]]];
          reflexivity.
      * destruct (digit_cases _ Hd2) as [->|[->|[->|[->|[->|[->|[->|[->|[->| ->]]]]]]]]];
          reflexivity.
    + apply List.Forall_forall. intros x Hx. apply filter_In in Hx.
      destruct Hx as [Hx Hne]. rewrite List.Forall_forall in Hbody.
      destruct (Hbody x Hx) as [H| ->]; [exact H|discriminate].
  - exists [], []. split; [reflexivity|]. split; [constructor|left; reflexivity].
Qed.

(** X13: whatever the subject, the amount [extractAmountFromSubject]
    returns is empty or made of digits optionally followed by a point and
    two digits (no thousands separator, sign, currency symbol or space).
    On a non-empty amount the cleaning step of [parseAmount] changes
    nothing, so that [parseAmount] yields what [parseFloat] reads from the
    amount itself, and this is a number (never NaN, hence never [null])
    that is not negative. *)
Theorem X13_extracted_amount_parses (subject : jsstring) :
  let a := PDFParser.extractAmountFromSubject subject in
  isAmountText a
  /\ (a <> [] ->
      ExcelWriter.parseAmount a = parseFloat a
      /\ exists n, ExcelWriter.parseAmount a = Some n /\ negative n = false).
Proof.
  cbn zeta. split; [apply extractAmount_amountText|].
  intros Ha. split.
  - apply parseAmount_cleaning; [apply extractAmount_amountText|exact Ha].
  - destruct (parseAmount_amountText _ (extractAmount_amountText subject) Ha)
      as (m & e & Hp & _).
    exists (Finite false m e). split; [exact Hp|reflexivity].
Qed.

Lemma X13_extracted_amount_parses_witness :
  PDFParser.extractAmountFromSubject exampleSubject <> []
  /\ ExcelWriter.parseAmount (PDFParser.extractAmountFromSubject exampleSubject)
     = parseFloat (PDFParser.extractAmountFromSubject exampleSubject)
  /\ exists n,
       ExcelWriter.parseAmount (PDFParser.extractAmountFromSubject exampleSubject)
       = Some n
       /\ negative n = false.
Proof.
  assert (H : PDFParser.extractAmountFromSubject exampleSubject <> [])
    by (vm_compute; discriminate).
  split; [exact H|].
  exact (proj2 (X13_extracted_amount_parses exampleSubject) H).
Defined.



(** ** Company names *)

Lemma lang_units (fl : flags) (r : regex) :
  forall w, lang fl r w -> forall c, In c w -> unitsOf fl r c.
Proof.
  induction r as [|c0| |neg items|a IHa b IHb|a IHa b IHb|min max greedy a IHa
                  |n a IHa|a IHa| | |]; intros w Hw c Hc; cbn [lang unitsOf] in *.
  - subst w. contradiction.
  - destruct Hw as (ch & -> & H). destruct Hc as [<-|[]]. exact H.
  - destruct Hw as (ch & -> & H). destruct Hc as [<-|[]]. exact H.
  - destruct Hw as (ch & -> & H). destruct Hc as [<-|[]]. exact H.
  - destruct Hw as (w1 & w2 & -> & H1 & H2). apply in_app_iff in Hc.
    destruct Hc as [Hc|Hc]; [left; eapply IHa|right; eapply IHb]; eassumption.
  - destruct Hw as [H|H]; [left; eapply IHa|right; eapply IHb]; eassumption.
  - destruct Hw as (ws & -> & Hws & _). apply in_concat in Hc.
    destruct Hc as (w & Hw & Hc). rewrite List.Forall_forall in Hws.
    eapply IHa; [apply Hws, Hw|exact Hc].
  - eapply IHa; eassumption.
  - subst w. contradiction.
  - subst w. contradiction.
  - subst w. contradiction.
  - subst w. contradiction.
Qed.

Lemma trimStart_In (s : jsstring) (c : N) : In c (trimStart s) -> In c s.
Proof.
  induction s as [|x s IH]; [auto|]. cbn.
  destruct (isWhiteSpace x); [intros H; right; apply IH, H|auto].
Qed.

Lemma trim_In (s : jsstring) (c : N) : In c (trim s) -> In c s.
Proof.
  unfold trim, trimEnd. intros H. apply in_rev, trimStart_In, in_rev in H.
  apply trimStart_In, H.
Qed.

Lemma trimStart_keeps (s : jsstring) (c : N) :
  In c s -> isWhiteSpace c = false -> trimStart s <> [].
Proof.
  induction s as [|x s IH]; [contradiction|]. cbn. intros [->|Hin] Hc.
  - rewrite Hc. discriminate.
  - destruct (isWhiteSpace x); [apply IH; assumption|discriminate].
Qed.

Lemma trim_nonempty (c : N) (t : jsstring) :
  isWhiteSpace c = false -> trim (c :: t) <> [].
Proof.
  intros Hc. unfold trim, trimEnd. cbn [trimStart]. rewrite Hc.
  intros H. apply (f_equal (@rev N)) in H. rewrite rev_involutive in H. cbn in H.
  revert H. apply (trimStart_keeps _ c); [|exact Hc].
  apply in_app_iff. right. left. reflexivity.
Qed.

Lemma toUpperCase_nonempty (s : jsstring) : s <> [] -> toUpperCase s <> [].
Proof.
  destruct s as [|c t]; [contradiction|]. intros _. unfold toUpperCase. cbn.
  destruct (c =? 223)%N; discriminate.
Qed.

Lemma toUpperCase_noLowerCase (s : jsstring) : noLowerCase (toUpperCase s).
Proof.
  intros c Hc. unfold toUpperCase in Hc. apply in_flat_map in Hc.
  destruct Hc as (x & _ & Hc). destruct (x =? 223)%N.
  - destruct Hc as [<-|[<-|[]]]; lia.
  - destruct Hc as [<-|[]].
    destruct (upperUnit_cases x) as [[H E]|[[H E]|[[H E]|[[H E]|[H E]]]]]; rewrite E; lia.
Qed.

(** A word that starts with a letter of a brand or keyword. *)
Lemma lit_first (fl : flags) (c : N) (cs : list N) (w : jsstring) :
  lang fl (cats (map Lit (c :: cs))) w ->
  exists ch t, w = ch :: t /\ canonicalize fl ch = canonicalize fl c.
Proof.
  destruct cs as [|c' cs]; cbn.
  - intros (ch & -> & H). eauto.
  - intros (w1 & w2 & -> & (ch & -> & H) & _). cbn. eauto.
Qed.

Lemma space_not_lower (c : N) : isWhiteSpace c = true -> ~ (97 <= c <= 122)%N.
Proof.
  intros Hs Hc. rewrite letter_not_space in Hs by (right; exact Hc). discriminate.
Qed.

Lemma brand_first (fl : flags) (w : jsstring) :
  lang fl (Or (lit "CAZAN") (lit "OPTIMAL")) w ->
  exists ch t, w = ch :: t /\ isWhiteSpace ch = false.
Proof.
  intros [H|H].
  - apply (lit_first fl 67 [65; 90; 65; 78]%N) in H. destruct H as (ch & t & -> & Hc).
    exists ch, t. split; [reflexivity|].
    apply letter_not_space, (canonicalize_capital fl ch 67); [lia|exact Hc].
  - apply (lit_first fl 79 [80; 84; 73; 77; 65; 76]%N) in H.
    destruct H as (ch & t & -> & Hc).
    exists ch, t. split; [reflexivity|].
    apply letter_not_space, (canonicalize_capital fl ch 79); [lia|exact Hc].
Qed.

Lemma upperAZ_unit (fl : flags) (w : jsstring) :
  ignoreCase fl = false ->
  lang fl PDFParser.upperAZ w -> exists ch, w = [ch] /\ (65 <= ch <= 90)%N.
Proof.
  intros Hfl (ch & -> & H). exists ch. split; [reflexivity|].
  cbn [xorb existsb itemMatches] in H. rewrite Hfl, orb_false_r in H.
  apply between_spec in H. exact H.
Qed.

Lemma fullNameOnLine_result (line r : jsstring) :
  PDFParser.fullNameOnLine line = Some r -> r <> [] /\ noLowerCase r.
Proof.
  unfold PDFParser.fullNameOnLine.
  destruct (PDFParser.matchWith PDFParser.fullCompanyName line) as [m|] eqn:E;
    [|discriminate].
  cbn. intros [= <-]. split; [|apply toUpperCase_noLowerCase].
  apply (jsmatch_sound (fun _ _ => True)) in E;
    [|cbn; repeat split; auto; intros mx [= <-]; lia].
  destruct E as (_ & Hl & _).
  cbn [PDFParser.fullCompanyName fst snd cats lang] in Hl.
  destruct Hl as (w0 & w' & Hw & -> & (w1 & w2 & -> & H1 & _)).
  apply brand_first in H1. destruct H1 as (ch & t & -> & Hc).
  rewrite Hw. cbn [app]. apply toUpperCase_nonempty, trim_nonempty, Hc.
Qed.

Lemma companyLineOnLine_result (line r : jsstring) :
  PDFParser.companyLineOnLine line = Some r -> r <> [] /\ noLowerCase r.
Proof.
  unfold PDFParser.companyLineOnLine.
  destruct (PDFParser.matchWith PDFParser.companyLinePattern line) as [m|] eqn:E;
    [|discriminate].
  cbn [mbind option_bind].
  destruct (10 <=? length (PDFParser.group1 m)); [|discriminate].
  intros [= <-]. split; [|apply toUpperCase_noLowerCase].
  apply (group1_sound
           (fun _ w => exists ch t, w = ch :: t /\ isWhiteSpace ch = false)) in E.
  - destruct E as (ch & t & -> & Hc). apply toUpperCase_nonempty, trim_nonempty, Hc.
  - cbn -[lang]. repeat split; auto; try (intros mx [= <-]; lia).
    intros w H. cbn [lang] in H. destruct H as (w1 & w2 & -> & H1 & _).
    apply (upperAZ_unit noFlags) in H1; [|reflexivity].
    destruct H1 as (ch & -> & Hch). exists ch, w2. split; [reflexivity|].
    apply letter_not_space. left. exact Hch.
  - cbn. auto.
Qed.

Lemma specificOnLine_result (line r : jsstring) :
  PDFParser.specificOnLine line = Some r -> r <> [] /\ noLowerCase r.
Proof.
  unfold PDFParser.specificOnLine.
  destruct (PDFParser.matchWith PDFParser.specificCompanies line) as [m|] eqn:E;
    [|discriminate].
  cbn. intros [= <-]. split; [|apply toUpperCase_noLowerCase].
  apply (group1_sound (fun _ w => w <> [])) in E.
  - apply toUpperCase_nonempty, E.
  - cbn -[lang]. repeat split; auto.
    intros w H. apply (brand_first flagI) in H. destruct H as (ch & t & -> & _).
    discriminate.
  - cbn. auto.
Qed.

Lemma lit_nonempty (fl : flags) (c : N) (cs : list N) (w : jsstring) :
  lang fl (cats (map Lit (c :: cs))) w -> w <> [].
Proof.
  intros H. apply lit_first in H. destruct H as (ch & t & -> & _). discriminate.
Qed.

Lemma knownOnLine_result (line r : jsstring) :
  PDFParser.knownOnLine line = Some r -> r <> [] /\ noLowerCase r.
Proof.
  unfold PDFParser.knownOnLine.
  destruct (PDFParser.matchWith PDFParser.knownCompanies line) as [m|] eqn:E;
    [|discriminate].
  cbn. intros [= <-]. split; [|apply toUpperCase_noLowerCase].
  apply (group1_sound (fun _ w => w <> [])) in E.
  - apply toUpperCase_nonempty, E.
  - cbn [PDFParser.knownCompanies fst snd groupsWithin alts]. split; [|cbn; tauto].
    intros w H. cbn [lang] in H.
    destruct H as [H|[H|[H|[H|[H|[H|H]]]]]].
    + exact (lit_nonempty flagI 67 [65; 90; 65; 78]%N w H).
    + exact (lit_nonempty flagI 79 [80; 84; 73; 77; 65; 76]%N w H).
    + exact (lit_nonempty flagI 79 [70; 70; 83; 72; 79; 82; 69]%N w H).
    + exact (lit_nonempty flagI 67 [79; 82; 80; 79; 82; 65; 84; 73; 86; 79]%N w H).
    + exact (lit_nonempty flagI 69 [77; 80; 82; 69; 83; 65]%N w H).
    + cbn [cats lang] in H. destruct H as (w1 & w2 & -> & H1 & _).
      apply (lit_first flagI 67 [79; 77; 80; 65]%N) in H1.
      destruct H1 as (ch & t & -> & _). discriminate.
    + exact (lit_nonempty flagI 83 [69; 82; 86; 73; 67; 73; 79; 83]%N w H).
  - cbn. auto.
Qed.

Lemma upperRunOnLine_result (line r : jsstring) :
  PDFParser.upperRunOnLine line = Some r -> r <> [] /\ noLowerCase r.
Proof.
  unfold PDFParser.upperRunOnLine.
  destruct (PDFParser.matchWith PDFParser.companyName (trim line)) as [m|] eqn:E;
    [|discriminate].
  cbn [mbind option_bind].
  destruct ((4 <=? length (PDFParser.group1 m)) && (length (PDFParser.group1 m) <=? 25));
    [|discriminate].
  intros [= <-].
  apply (group1_sound
           (fun _ w => (exists ch t, w = ch :: t /\ isWhiteSpace ch = false)
                       /\ forall c, In c w -> (65 <= c <= 90)%N \/ isWhiteSpace c = true)) in E.
  - destruct E as [(ch & t & Hw & Hc) Hunits]. split.
    + rewrite Hw. apply trim_nonempty, Hc.
    + intros c Hin. apply trim_In in Hin.
      destruct (Hunits c Hin) as [H|H]; [lia|apply space_not_lower, H].
  - cbn [PDFParser.companyName fst snd groupsWithin cats]. repeat split; auto;
      try (intros mx [= <-]; lia); try (intros mx H; discriminate H).
    + cbn [lang] in H. destruct H as (w1 & w2 & -> & (ws & -> & Hws & Hmin & _) & _).
      destruct ws as [|u ws]; [cbn in Hmin; lia|].
      inversion Hws as [|? ? Hu _]; subst.
      apply (upperAZ_unit flagM) in Hu; [|reflexivity]. destruct Hu as (ch & -> & Hch).
      eexists ch, _. split; [reflexivity|]. apply letter_not_space. left. exact Hch.
    + intros c Hin. apply (lang_units _ _ _ H) in Hin.
      cbn [unitsOf atLeast star plus space PDFParser.upperAZ] in Hin.
      assert (Hup : xorb false (existsb (itemMatches flagM c)
                      [CRange (chr "A") (chr "Z")]) = true -> (65 <= c <= 90)%N).
      { cbn [xorb existsb itemMatches flagM ignoreCase]. rewrite orb_false_r.
        apply between_spec. }
      assert (Hsp : xorb false (existsb (itemMatches flagM c) [CSpace]) = true ->
                    isWhiteSpace c = true).
      { cbn [xorb existsb itemMatches]. rewrite orb_false_r. auto. }
      tauto.
  - cbn. auto.
Qed.

Lemma forLines_result (body : jsstring -> option jsstring) (lines : list jsstring)
    (r : jsstring) :
  PDFParser.forLines body lines = Some r -> exists line, body line = Some r.
Proof.
  intros H. apply forLines_Some in H. destruct H as (i & line & _ & Hl & _).
  exists line. exact Hl.
Qed.

Lemma extractCompanyName_result (text : jsstring) :
  PDFParser.extractCompanyName text <> []
  /\ noLowerCase (PDFParser.extractCompanyName text).
Proof.
  unfold PDFParser.extractCompanyName.
  destruct (PDFParser.forLines PDFParser.fullNameOnLine _) as [r|] eqn:H1.
  { apply forLines_result in H1. destruct H1 as (l & H1).
    exact (fullNameOnLine_result l r H1). }
  destruct (PDFParser.forLines PDFParser.companyLineOnLine _) as [r|] eqn:H2.
  { apply forLines_result in H2. destruct H2 as (l & H2).
    exact (companyLineOnLine_result l r H2). }
  destruct (PDFParser.forLines PDFParser.specificOnLine _) as [r|] eqn:H3.
  { apply forLines_result in H3. destruct H3 as (l & H3).
    exact (specificOnLine_result l r H3). }
  destruct (PDFParser.forLines PDFParser.knownOnLine _) as [r|] eqn:H4.
  { apply forLines_result in H4. destruct H4 as (l & H4).
    exact (knownOnLine_result l r H4). }
  destruct (PDFParser.forLines PDFParser.upperRunOnLine _) as [r|] eqn:H5.
  { apply forLines_result in H5. destruct H5 as (l & H5).
    exact (upperRunOnLine_result l r H5). }
  destruct (PDFParser.specificOnLine text) as [r|] eqn:H6.
  { exact (specificOnLine_result text r H6). }
  split; [discriminate|].
  intros c Hc. vm_compute in Hc.
  repeat (destruct Hc as [<-|Hc]; [lia|]). contradiction.
Qed.

(** X15: whatever the document text, the company name
    [extractCompanyName] returns is never empty and contains no ASCII
    lower-case letter. *)
Theorem X15_company_name_nonempty (text : jsstring) :
  PDFParser.extractCompanyName text <> []
  /\ noLowerCase (PDFParser.extractCompanyName text).
Proof.
  exact (extractCompanyName_result text).
Qed.

(** X16: for every message and document text, the issuer written to the
    record is exactly what [extractCompanyName] returned: the default
    "No especificada" is never substituted and the name is never taken
    from the sender or the subject. *)
Theorem X16_issuer_is_company_name (email : ProcessedEmail) (text : jsstring) :
  PDFParser.domicilioEntrega (PDFParser.extractDataFromText text)
  = PDFParser.extractCompanyName text
  /\ ExcelWriter.operador (solicitudData email (PDFParser.extractDataFromText text))
     = PDFParser.extractCompanyName text.
Proof.
  destruct (extractCompanyName_result text) as [Hne Hlow].
  assert (Hd : PDFParser.domicilioEntrega (PDFParser.extractDataFromText text)
               = PDFParser.extractCompanyName text).
  { cbn. destruct (PDFParser.extractCompanyName text); [contradiction|reflexivity]. }
  split; [exact Hd|].
  unfold solicitudData. cbn [ExcelWriter.operador]. rewrite Hd.
  assert (Hs : jsstring_eqb (PDFParser.extractCompanyName text) (js "No especificada")
               = false).
  { unfold jsstring_eqb. apply bool_decide_eq_false. intros Heq.
    apply (Hlow 111%N); [rewrite Heq; right; left; reflexivity|lia]. }
  rewrite Hs. reflexivity.
Qed.

(** ** Cities *)

Lemma canonicalize_above (fl : flags) (ch c : N) :
  (65 <= c)%N -> canonicalize fl ch = canonicalize fl c -> (65 <= ch)%N.
Proof.
  intros Hc H. destruct (N.lt_ge_cases ch 65) as [Hlt|Hge]; [|exact Hge].
  symmetry in H. apply canonicalize_below_letters in H; [lia|exact Hlt].
Qed.

Lemma rangeUnits_In (lo hi a : N) : In a (rangeUnits lo hi) -> (lo <= a)%N.
Proof.
  unfold rangeUnits. intros H. apply in_map_iff in H. destruct H as (i & <- & _). lia.
Qed.

Lemma itemAbove_sound (fl : flags) (c : N) (it : ClassItem) :
  itemAbove it = true -> itemMatches fl c it = true -> letterOrSpace c.
Proof.
  destruct it as [c0|lo hi| | |]; cbn; intros Ha Hm; try discriminate.
  - right. apply N.leb_le in Ha. apply N.eqb_eq in Hm. symmetry in Hm.
    exact (canonicalize_above fl c c0 Ha Hm).
  - right. apply N.leb_le in Ha. destruct (ignoreCase fl).
    + apply existsb_exists in Hm. destruct Hm as (a & Hin & Heq).
      apply rangeUnits_In in Hin. apply N.eqb_eq in Heq. symmetry in Heq.
      apply (canonicalize_above fl c a); [lia|exact Heq].
    + apply between_spec in Hm. lia.
  - left. exact Hm.
Qed.

Lemma aboveDigits_sound (fl : flags) (r : regex) (c : N) :
  aboveDigits r = true -> unitsOf fl r c -> letterOrSpace c.
Proof.
  induction r as [|c0| |neg items|a IHa b IHb|a IHa b IHb|min max greedy a IHa
                  |n a IHa|a IHa| | |]; cbn [aboveDigits unitsOf]; intros Ha Hu;
    try contradiction; try discriminate; auto.
  - right. apply N.leb_le in Ha. exact (canonicalize_above fl c c0 Ha Hu).
  - apply andb_true_iff in Ha. destruct Ha as [Hneg Hall].
    destruct neg; [discriminate|]. cbn [xorb] in Hu.
    assert (Hex : existsb (itemMatches fl c) items = true)
      by (destruct (existsb (itemMatches fl c) items); [reflexivity|discriminate]).
    apply existsb_exists in Hex. destruct Hex as (it & Hin & Hm).
    rewrite forallb_forall in Hall. exact (itemAbove_sound fl c it (Hall it Hin) Hm).
  - apply andb_true_iff in Ha. destruct Ha, Hu; auto.
  - apply andb_true_iff in Ha. destruct Ha, Hu; auto.
Qed.

Lemma trimStart_head (s : jsstring) (c : N) (t : jsstring) :
  trimStart s = c :: t -> isWhiteSpace c = false.
Proof.
  induction s as [|x s IH]; [discriminate|]. cbn.
  destruct (isWhiteSpace x) eqn:E; [exact IH|]. intros [= <- _]. exact E.
Qed.

Lemma trimStart_suffix (s : jsstring) :
  exists ws, s = ws ++ trimStart s.
Proof.
  induction s as [|x s (ws & IH)]; [exists []; reflexivity|]. cbn.
  destruct (isWhiteSpace x); [|exists []; reflexivity].
  exists (x :: ws). cbn. f_equal. exact IH.
Qed.

(** What [trim] returns starts and ends with a code unit that is not
    white space. *)
Lemma trim_ends (s : jsstring) :
  (forall c t, trim s = c :: t -> isWhiteSpace c = false)
  /\ (forall t c, trim s = t ++ [c] -> isWhiteSpace c = false).
Proof.
  unfold trim, trimEnd.
  destruct (trimStart (rev (trimStart s))) as [|l u] eqn:Eu.
  { split; [discriminate|]. intros [|? ?] c H; discriminate. }
  pose proof (trimStart_head _ _ _ Eu) as Hl.
  split.
  - intros c t H.
    destruct (trimStart_suffix (rev (trimStart s))) as (ws & Hws). rewrite Eu in Hws.
    apply (f_equal (@rev N)) in Hws. rewrite rev_involutive, rev_app_distr in Hws.
    rewrite H in Hws. cbn in Hws.
    destruct (trimStart s) as [|c' t'] eqn:Es; [discriminate|].
    injection Hws as <- _. exact (trimStart_head _ _ _ Es).
  - intros t c H. cbn in H. apply app_inj_tail in H. destruct H as [_ <-]. exact Hl.
Qed.

Lemma city_group (subject : jsstring) (m : MatchResult) :
  PDFParser.firstPattern PDFParser.cityPatterns subject = Some m
  \/ PDFParser.matchWith PDFParser.locationPattern subject = Some m ->
  forall c, In c (PDFParser.group1 m) -> letterOrSpace c.
Proof.
  intros H.
  assert (Hp : exists p,
             (In p PDFParser.cityPatterns \/ p = PDFParser.locationPattern)
             /\ PDFParser.matchWith p subject = Some m).
  { destruct H as [H|H].
    - apply firstPattern_Some in H. destruct H as (p & Hp & Hm). exists p. auto.
    - eexists. split; [right; reflexivity|exact H]. }
  destruct Hp as (p & Hp & Hm).
  apply (group1_sound (fun _ w => forall c, In c w -> letterOrSpace c) p subject m);
    [| |exact Hm].
  - cbn [PDFParser.cityPatterns In] in Hp.
    destruct Hp as [[<-|[<-|[<-|[]]]]| ->]; cbn -[lang]; repeat split; auto;
      try (intros mx [= <-]; lia);
      intros w Hw c Hc; apply (lang_units _ _ _ Hw) in Hc;
      (eapply aboveDigits_sound; [|exact Hc]; reflexivity).
  - cbn [PDFParser.cityPatterns In] in Hp.
    destruct Hp as [[<-|[<-|[<-|[]]]]| ->]; cbn; auto.
Qed.

(** X17: whatever the subject, the city [extractCityFromSubject] returns
    is made of white space and code units from "A" up only (no digit, no
    currency sign, hyphen, point or comma), and it neither starts nor ends
    with white space. *)
Theorem X17_city_text (subject : jsstring) :
  let city := PDFParser.extractCityFromSubject subject in
  (forall c, In c city -> letterOrSpace c)
  /\ (forall c t, city = c :: t -> isWhiteSpace c = false)
  /\ (forall t c, city = t ++ [c] -> isWhiteSpace c = false).
Proof.
  cbn zeta. unfold PDFParser.extractCityFromSubject.
  destruct (PDFParser.firstPattern PDFParser.cityPatterns subject) as [m|] eqn:E1.
  { split; [|apply trim_ends].
    intros c Hc. apply trim_In in Hc. exact (city_group subject m (or_introl E1) c Hc). }
  destruct (PDFParser.matchWith PDFParser.locationPattern subject) as [m|] eqn:E2.
  { split; [|apply trim_ends].
    intros c Hc. apply trim_In in Hc. exact (city_group subject m (or_intror E2) c Hc). }
  split; [intros c []|]. split; [discriminate|]. intros [|? ?] c H; discriminate.
Qed.

Lemma X17_city_text_witness :
  In 83%N (PDFParser.extractCityFromSubject exampleSubject)
  /\ letterOrSpace 83.
Proof.
  assert (H : In 83%N (PDFParser.extractCityFromSubject exampleSubject))
    by (vm_compute; left; reflexivity).
  split; [exact H|].
  exact (proj1 (X17_city_text exampleSubject) 83%N H).
Defined.

(** ** Success of the matcher under a weaker continuation *)

Lemma orElse_not_None (a b : option mstate) :
  orElse a b <> None <-> a <> None \/ b <> None.
Proof.
  destruct a; cbn; split; intros H; try (left; discriminate); try discriminate.
  - right. exact H.
  - destruct H as [H|H]; [contradiction|exact H].
Qed.

Lemma charM_weaker (ok : N -> bool) (k k' : cont) (x : mstate) :
  (forall y, k y <> None -> k' y <> None) ->
  charM ok k x <> None -> charM ok k' x <> None.
Proof.
  intros Hk. unfold charM, advance. destruct (rest x) as [|c t]; [auto|].
  destruct (ok c); [|auto]. cbn. apply Hk.
Qed.

Lemma repeatM_weaker (m : cont -> cont) (inner : list nat) :
  (forall k k' x, (forall y, k y <> None -> k' y <> None) ->
                  m k x <> None -> m k' x <> None) ->
  forall fuel min max greedy k k' x,
    (forall y, k y <> None -> k' y <> None) ->
    repeatM m inner fuel min max greedy k x <> None ->
    repeatM m inner fuel min max greedy k' x <> None.
Proof.
  intros Hm. induction fuel as [|f IH]; intros min max greedy k k' x Hk.
  - cbn [repeatM].
    assert (Hd : forall y : mstate,
               (if (min =? 0) && (pos y =? pos x) then @None mstate else None) <> None ->
               (if (min =? 0) && (pos y =? pos x) then @None mstate else None) <> None)
      by auto.
    destruct max as [[|mx]|]; [apply Hk| |];
      (destruct (negb (min =? 0));
       [apply Hm; exact Hd
       |destruct greedy; rewrite !orElse_not_None;
        (intros [H|H]; [| ]);
        first [left; revert H; apply Hm; exact Hd
              |right; revert H; apply Hk
              |left; revert H; apply Hk
              |right; revert H; apply Hm; exact Hd]]).
  - cbn [repeatM].
    assert (Hd : forall (mx : option nat) (y : mstate),
               (if (min =? 0) && (pos y =? pos x) then None
                else repeatM m inner f (Nat.pred min) mx greedy k y) <> None ->
               (if (min =? 0) && (pos y =? pos x) then None
                else repeatM m inner f (Nat.pred min) mx greedy k' y) <> None).
    { intros mx y. destruct ((min =? 0) && (pos y =? pos x)); [auto|].
      apply IH. exact Hk. }
    destruct max as [[|mx]|]; [apply Hk| |];
      (destruct (negb (min =? 0));
       [apply Hm; apply Hd
       |destruct greedy; rewrite !orElse_not_None;
        (intros [H|H]; [| ]);
        first [left; revert H; apply Hm; apply Hd
              |right; revert H; apply Hk
              |left; revert H; apply Hk
              |right; revert H; apply Hm; apply Hd]]).
Qed.

(** A match that succeeds with one continuation succeeds with every
    continuation that accepts at least the same states. *)
Lemma rmatch_weaker (fl : flags) (r : regex) :
  forall k k' x, (forall y, k y <> None -> k' y <> None) ->
                 rmatch fl r k x <> None -> rmatch fl r k' x <> None.
Proof.
  induction r as [|c0| |neg items|a IHa b IHb|a IHa b IHb|min max greedy a IHa
                  |n a IHa|a IHa| | |]; intros k k' x Hk; cbn [rmatch].
  - apply Hk.
  - apply charM_weaker, Hk.
  - apply charM_weaker, Hk.
  - apply charM_weaker, Hk.
  - apply IHa. intros y. apply IHb, Hk.
  - rewrite !orElse_not_None. intros [H|H].
    + left. revert H. apply IHa, Hk.
    + right. revert H. apply IHb, Hk.
  - apply repeatM_weaker; [exact IHa|exact Hk].
  - apply IHa. intros y. apply Hk.
  - destruct (rmatch fl a Some x); [apply Hk|auto].
  - destruct (xorb _ _); [apply Hk|auto].
  - destruct (prev x) as [c|]; [|apply Hk].
    destruct (multiline fl && isLineTerminator c); [apply Hk|auto].
  - destruct (rest x) as [|c t]; [apply Hk|].
    destruct (multiline fl && isLineTerminator c); [apply Hk|auto].
Qed.

(** A repetition that may be empty succeeds wherever what follows it
    does. *)
Lemma repeatM_optional (m : cont -> cont) (inner : list nat) (fuel : nat)
    (max : option nat) (greedy : bool) (k : cont) (x : mstate) :
  k x <> None -> repeatM m inner fuel 0 max greedy k x <> None.
Proof.
  intros H. destruct fuel; cbn [repeatM]; destruct max as [[|mx]|]; try exact H;
    cbn [Nat.eqb negb]; destruct greedy; apply orElse_not_None; auto.
Qed.

Lemma searchFrom_weaker (fl : flags) (r r' : regex) (whole : jsstring) :
  (forall x, rmatch fl r Some x <> None -> rmatch fl r' Some x <> None) ->
  forall s start before,
    searchFrom fl r whole start before s <> None ->
    searchFrom fl r' whole start before s <> None.
Proof.
  intros Hr. induction s as [|c t IH]; intros start before; cbn [searchFrom].
  - pose proof (Hr {| pos := start; prev := before; rest := []; caps := [] |}) as H0.
    destruct (rmatch fl r' Some _); [intros _; discriminate|].
    destruct (rmatch fl r Some _); [exfalso; apply H0; [discriminate|reflexivity]|auto].
  - pose proof (Hr {| pos := start; prev := before; rest := c :: t; caps := [] |}) as H1.
    destruct (rmatch fl r' Some _); [intros _; discriminate|].
    destruct (rmatch fl r Some _); [exfalso; apply H1; [discriminate|reflexivity]|].
    apply IH.
Qed.

Lemma rmatch_Cat (fl : flags) (a b : regex) (k : cont) (x : mstate) :
  rmatch fl (Cat a b) k x = rmatch fl a (rmatch fl b k) x.
Proof. reflexivity. Qed.

Lemma rmatch_optional (fl : flags) (max : option nat) (greedy : bool) (a : regex)
    (k : cont) (x : mstate) :
  k x <> None -> rmatch fl (Repeat 0 max greedy a) k x <> None.
Proof. cbn [rmatch]. apply repeatM_optional. Qed.

(** ** The third loop of the issuer extraction *)

Lemma specific_then_full (line : jsstring) :
  PDFParser.specificOnLine line <> None -> PDFParser.fullNameOnLine line <> None.
Proof.
  unfold PDFParser.specificOnLine, PDFParser.fullNameOnLine.
  intros H.
  assert (Hm : PDFParser.matchWith PDFParser.fullCompanyName line <> None).
  { assert (Hs : PDFParser.matchWith PDFParser.specificCompanies line <> None).
    { destruct (PDFParser.matchWith PDFParser.specificCompanies line);
        [discriminate|exfalso; apply H; reflexivity]. }
    revert Hs. unfold PDFParser.matchWith, jsmatch. apply searchFrom_weaker.
    intros x. unfold PDFParser.specificCompanies, PDFParser.fullCompanyName.
    cbn [snd fst cats]. rewrite !(rmatch_Cat flagI WordBoundary).
    apply rmatch_weaker. intros y. rewrite !rmatch_Cat.
    apply rmatch_weaker. intros z _. rewrite rmatch_Cat.
    apply rmatch_optional, rmatch_optional. discriminate. }
  destruct (PDFParser.matchWith PDFParser.fullCompanyName line);
    [discriminate|contradiction].
Qed.

(** X18: the third loop of [extractCompanyName] (the brand as a whole
    word) never decides the result: on any list of lines, whenever the
    first loop (the brand followed by the rest of the name) returns
    nothing, the third returns nothing either, so the extraction is the
    same with that loop removed. *)
Theorem X18_third_loop_never_returns (text : jsstring) :
  (forall lines,
      PDFParser.forLines PDFParser.fullNameOnLine lines = None ->
      PDFParser.forLines PDFParser.specificOnLine lines = None)
  /\ PDFParser.extractCompanyName text
     = let lines := take 15 (splitOn 10 text) in
       match PDFParser.forLines PDFParser.fullNameOnLine lines with
       | Some r => r
       | None =>
       match PDFParser.forLines PDFParser.companyLineOnLine lines with
       | Some r => r
       | None =>
       match PDFParser.forLines PDFParser.knownOnLine lines with
       | Some r => r
       | None =>
       match PDFParser.forLines PDFParser.upperRunOnLine
               (take (Nat.min 5 (length lines)) lines) with
       | Some r => r
       | None =>
       match PDFParser.specificOnLine text with
       | Some r => r
       | None => PDFParser.EMPRESA_NO_IDENTIFICADA
       end end end end end.
Proof.
  assert (Hdead : forall lines,
             PDFParser.forLines PDFParser.fullNameOnLine lines = None ->
             PDFParser.forLines PDFParser.specificOnLine lines = None).
  { induction lines as [|l ls IH]; [reflexivity|]. cbn [PDFParser.forLines].
    destruct (PDFParser.fullNameOnLine l) eqn:Hf; [discriminate|].
    intros Hrest. destruct (PDFParser.specificOnLine l) eqn:Hs.
    - exfalso. apply (specific_then_full l); [rewrite Hs; discriminate|exact Hf].
    - exact (IH Hrest). }
  split; [exact Hdead|].
  unfold PDFParser.extractCompanyName. cbn zeta.
  destruct (PDFParser.forLines PDFParser.fullNameOnLine _) eqn:H1; [reflexivity|].
  rewrite (Hdead _ H1). reflexivity.
Qed.

Lemma X18_third_loop_never_returns_witness :
  PDFParser.forLines PDFParser.fullNameOnLine [exampleText] = None
  /\ PDFParser.forLines PDFParser.specificOnLine [exampleText] = None.
Proof.
  assert (H : PDFParser.forLines PDFParser.fullNameOnLine [exampleText] = None)
    by (vm_compute; reflexivity).
  split; [exact H|].
  exact (proj1 (X18_third_loop_never_returns exampleText) [exampleText] H).
Defined.

(** ** Batch isolation, turn by turn *)

Lemma runAll_app {World : Type} (sv : Services World)
    (a b : list (ProcessedEmail * GmailAttachment)) (sys : System) (wd : World) :
  runAll sv (a ++ b) sys wd
  = runAll sv b (fst (runAll sv a sys wd)) (snd (runAll sv a sys wd)).
Proof.
  unfold runAll. rewrite fold_left_app.
  destruct (fold_left _ a (sys, wd)) as [s1 w1]. reflexivity.
Qed.

Lemma runAll_cons {World : Type} (sv : Services World)
    (u : ProcessedEmail * GmailAttachment)
    (more : list (ProcessedEmail * GmailAttachment)) (sys : System) (wd : World) :
  runAll sv (u :: more) sys wd
  = runAll sv more (snd (fst (processAttachment sv (fst u) (snd u) sys wd)))
                   (snd (processAttachment sv (fst u) (snd u) sys wd)).
Proof.
  unfold runAll. cbn [fold_left fst snd].
  destruct (processAttachment sv (fst u) (snd u) sys wd) as [[r s1] w1]. reflexivity.
Qed.

Lemma forAttachments_runAll {World : Type} (sv : Services World)
    (email : ProcessedEmail) (atts : list GmailAttachment) :
  forall (sys : System) (wd : World),
    forAttachments sv email atts sys wd = runAll sv (map (pair email) atts) sys wd.
Proof.
  induction atts as [|a more IH]; intros sys wd; [reflexivity|].
  cbn [forAttachments map]. rewrite runAll_cons. cbn [fst snd].
  destruct (processAttachment sv email a sys wd) as [[r s1] w1]. apply IH.
Qed.

(** The two nested loops with their [try]/[catch] process every unit of
    the batch. *)
Lemma forEmails_runAll {World : Type} (sv : Services World)
    (emails : list ProcessedEmail) :
  forall (sys : System) (wd : World),
    forEmails sv emails sys wd = runAll sv (worklist emails) sys wd.
Proof.
  induction emails as [|email more IH]; intros sys wd; [reflexivity|].
  cbn [forEmails worklist flat_map]. rewrite runAll_app.
  unfold processEmail. rewrite forAttachments_runAll.
  destruct (runAll sv (map (pair email) (sortedAttachments (attachments email))) sys wd)
    as [s1 w1].
  cbn [fst snd]. apply IH.
Qed.

Lemma runAll_effect {World : Type} (sv : Services World)
    (work : list (ProcessedEmail * GmailAttachment)) :
  forall (sys : System) (wd : World),
    initialized (excelWriter sys) ->
    let sys' := fst (runAll sv work sys wd) in
    gmailWatcher sys' = gmailWatcher sys
    /\ initialized (excelWriter sys')
    /\ forall mid, rowsWithId (excelWriter sys) mid <> [] ->
                   rowsWithId (excelWriter sys') mid <> [].
Proof.
  induction work as [|u more IH]; intros sys wd Hi; cbn zeta; [cbn; auto|].
  rewrite runAll_cons.
  destruct (processAttachment_effect sv (fst u) (snd u) sys wd Hi) as (Hw & Hi1 & Hk).
  destruct (IH _ (snd (processAttachment sv (fst u) (snd u) sys wd)) Hi1)
    as (Hw2 & Hi2 & Hk2).
  split; [congruence|]. split; [exact Hi2|]. auto.
Qed.

(** C8: a failure in one attachment or one message aborts nothing.  The
    two loops of a batch process every attachment of every message, in
    order, each from the system and the world the previous one left,
    whatever the previous ones returned; no row of the sheet is lost.  For
    every attachment whose download and parse succeed at its own turn (in
    the world reached then, whatever failed before or fails later) the
    sheet holds a row for its message when the batch ends; and when the
    message had no row yet, that turn adds the row to the sheet and
    attempts the save of the sheet ending with it, labelling the message
    when the save returns. *)
Theorem C8_batch_isolation {World : Type} (sv : Services World)
    (emails : list ProcessedEmail) (sys : System) (wd : World) :
  initialized (excelWriter sys) ->
  let work := worklist emails in
  let final := fst (forEmails sv emails sys wd) in
  forEmails sv emails sys wd = runAll sv work sys wd
  /\ (forall mid, rowsWithId (excelWriter sys) mid <> [] ->
                  rowsWithId (excelWriter final) mid <> [])
  /\ forall k email att buf wd1 parsed wd2,
       work !! k = Some (email, att) ->
       let turn := runAll sv (take k work) sys wd in
       downloadAttachment (attachmentsGet sv) (gmailWatcher (fst turn))
         (GmailWatcher.messageId email) (attachmentId att) (snd turn) = (Ok buf, wd1) ->
       PDFParser.parsePDF (pdfParse sv) buf wd1 = (Ok parsed, wd2) ->
       rowsWithId (excelWriter final) (GmailWatcher.messageId email) <> []
       /\ (rowsWithId (excelWriter (fst turn)) (GmailWatcher.messageId email) = [] ->
           exists sheet,
             ExcelWriter.rows sheet
             = ExcelWriter.rows (sheetOf (excelWriter (fst turn)))
               ++ [newRow (solicitudData email parsed)]
             /\ runAll sv (take (S k) work) sys wd
                = ({| gmailWatcher := gmailWatcher sys;
                      excelWriter := {| ExcelWriter.worksheet := Some sheet |} |},
                   match writeFile sv sheet wd2 with
                   | (Ok _, wd3) =>
                       snd (labelProcessed sv (GmailWatcher.messageId email) wd3)
                   | (Throw _, wd3) => wd3
                   end)).
Proof.
  intros Hi. cbn zeta. split; [apply forEmails_runAll|]. split.
  - rewrite forEmails_runAll. apply (runAll_effect sv (worklist emails) sys wd Hi).
  - intros k email att buf wd1 parsed wd2 Hk Hd Hp.
    rewrite forEmails_runAll.
    pose proof (take_drop_middle _ _ _ Hk) as Hsplit.
    pose proof (take_S_r _ _ _ Hk) as Hnext.
    destruct (runAll_effect sv (take k (worklist emails)) sys wd Hi) as (Hw & Hi1 & _).
    set (turn := runAll sv (take k (worklist emails)) sys wd) in *.
    pose proof (processAttachment_cases sv email att (fst turn) (snd turn) Hi1) as Hc.
    rewrite Hd, Hp in Hc. destruct Hc as (Hg & Hc).
    assert (Hstep : runAll sv (take (S k) (worklist emails)) sys wd
                    = (snd (fst (processAttachment sv email att (fst turn) (snd turn))),
                       snd (processAttachment sv email att (fst turn) (snd turn)))).
    { rewrite Hnext, runAll_app. fold turn. rewrite runAll_cons. reflexivity. }
    assert (Hrow : rowsWithId
                     (excelWriter (fst (runAll sv (take (S k) (worklist emails)) sys wd)))
                     (GmailWatcher.messageId email) <> []).
    { rewrite Hstep. cbn [fst].
      destruct Hc as [(Hrow & ->)|(Hnone & sheet & Hrows & ->)]; [exact Hrow|].
      assert (Hin : rowsWithId {| ExcelWriter.worksheet := Some sheet |}
                      (GmailWatcher.messageId email) <> []).
      { unfold rowsWithId, dataRows. cbn [ExcelWriter.worksheet]. rewrite Hrows.
        destruct Hi1 as (ws & Hws & Hn). unfold sheetOf. rewrite Hws. cbn [default].
        unfold id. unfold ExcelWriter.rowCount in Hn.
        destruct (ExcelWriter.rows ws) as [|h t]; [cbn in Hn; lia|].
        cbn [app drop]. rewrite ?drop_0, List.filter_app. cbn [List.filter].
        rewrite hasId_newRow. unfold jsstring_eqb.
        rewrite bool_decide_eq_true_2 by reflexivity.
        destruct (List.filter _ t); discriminate. }
      destruct (writeFile sv sheet wd2) as [[[]|e] wd3]; exact Hin. }
    split.
    + assert (Hwork : worklist emails
                      = take (S k) (worklist emails) ++ drop (S k) (worklist emails))
        by (symmetry; apply take_drop).
      rewrite Hwork at 1. rewrite runAll_app.
      assert (Hi2 : initialized
                      (excelWriter
                         (fst (runAll sv (take (S k) (worklist emails)) sys wd)))).
      { apply (runAll_effect sv (take (S k) (worklist emails)) sys wd Hi). }
      destruct (runAll_effect sv (drop (S k) (worklist emails)) _
                  (snd (runAll sv (take (S k) (worklist emails)) sys wd)) Hi2)
        as (_ & _ & Hkeep).
      apply Hkeep, Hrow.
    + intros Hnone. destruct Hc as [(Hrow' & _)|(_ & sheet & Hrows & Heq)];
        [contradiction|].
      exists sheet. split; [exact Hrows|].
      rewrite Hstep, Heq, <- Hw.
      destruct (writeFile sv sheet wd2) as [[[]|e] wd3]; reflexivity.
Qed.

(** Three messages when the second download throws, whichever message it
    is for: the sheet ends with rows for the first and the third message
    and none for the second, and so does the last version of the file
    that was saved. *)
Lemma C8_batch_isolation_witness :
  let sv := faultyServices (Some 1) None in
  let batch := [exampleBatchEmail "m1"; exampleBatchEmail "m2"; exampleBatchEmail "m3"] in
  let final := forEmails sv batch exampleSystem untouched in
  initialized (excelWriter exampleSystem)
  /\ fst (downloadAttachment (attachmentsGet sv) (gmailWatcher exampleSystem)
            (js "m2") (js "FACTURA.pdf")
            (snd (runAll sv (take 1 (worklist batch)) exampleSystem untouched)))
     = Throw (Error (js "socket hang up"))
  /\ rowsWithId (excelWriter (fst final)) (js "m1") <> []
  /\ rowsWithId (excelWriter (fst final)) (js "m3") <> []
  /\ rowsWithId (excelWriter (fst final)) (js "m2") = []
  /\ map (fun ws => omap idOf (drop 1 (ExcelWriter.rows ws)))
         (take 1 (savedVersions (snd final)))
     = [[js "m1"; js "m3"]]
  /\ labelledIds (snd final) = [js "m3"; js "m1"].
Proof.
  cbn zeta.
  set (sv := faultyServices (Some 1) None).
  set (batch := [exampleBatchEmail "m1"; exampleBatchEmail "m2"; exampleBatchEmail "m3"]).
  assert (Hi : initialized (excelWriter exampleSystem)).
  { eexists. split; [reflexivity|]. vm_compute. lia. }
  destruct (C8_batch_isolation sv batch exampleSystem untouched Hi) as (_ & _ & Hturn).
  split; [exact Hi|]. split; [vm_compute; reflexivity|].
  split; [|split; [|split; [|split]]].
  - refine (proj1 (Hturn 0 (exampleBatchEmail "m1")
                     (exampleAttachment "FACTURA.pdf" "application/pdf")
                     _ _ _ _ eq_refl _ _));
      vm_compute; reflexivity.
  - refine (proj1 (Hturn 2 (exampleBatchEmail "m3")
                     (exampleAttachment "FACTURA.pdf" "application/pdf")
                     _ _ _ _ eq_refl _ _));
      vm_compute; reflexivity.
  - vm_compute. reflexivity.
  - vm_compute. reflexivity.
  - vm_compute. reflexivity.
Defined.

(** ** The six strategies of the issuer extraction *)





























